(** * PreconnectManager: admission control, cancellation and completion
      aggregation of speculative pre-resolve / pre-connect jobs.

    Shallow embedding of chrome/browser/predictors/preconnect_manager.cc.
    The manager is a single-threaded object (every method DCHECKs the UI
    thread), so its methods are functions on an explicit state.  The state
    carries, next to the members of the class, the two things the
    environment holds for it: the completion callbacks that are still
    outstanding and the trace of the calls the manager made. *)

From Stdlib Require Import ZArith Lia.
From stdpp Require Import base option list gmap strings fin_maps.

(** ** Collaborator types *)

(** Modelled from the spec: url/gurl.h is not part of the sources.  The spec
    describes an origin as the triple scheme + host + port with no path or
    query; a URL is that triple plus the rest.  [GetOrigin] keeps the triple
    and resets the path to the root. *)
Record GURL := mkGURL {
  scheme : string;
  host : string;
  port : string;
  path : string }.

(** The default-constructed, empty [GURL()]. *)
Definition GURL_empty : GURL := mkGURL "" "" "" "".

Definition GetOrigin (u : GURL) : GURL :=
  mkGURL (scheme u) (host u) (port u) "/".

Definition SchemeIsHTTPOrHTTPS (u : GURL) : bool :=
  bool_decide (scheme u = "http") || bool_decide (scheme u = "https").

(** [GURL("http://" + hostname)] for a plain host name. *)
Definition GURL_http (hostname : string) : GURL :=
  mkGURL "http" hostname "" "/".

(** [size_t] counters: 64-bit unsigned with wrap-around. *)
Definition size_t_modulus : Z := 2 ^ 64.
Definition size_t_inc (x : Z) : Z := ((x + 1) mod size_t_modulus)%Z.
Definition size_t_dec (x : Z) : Z := ((x - 1) mod size_t_modulus)%Z.

Module PreconnectRequest.
Record t := mk {
  origin : GURL;
  num_sockets : Z;
  allow_credentials : bool }.
End PreconnectRequest.

Module PreconnectedRequestStats.
Record t := mk {
  origin : GURL;
  was_preresolve_cached : bool;
  was_preconnected : bool }.
End PreconnectedRequestStats.

(** [start_time] is a reading of the wall clock and is left out. *)
Module PreconnectStats.
Record t := mk {
  url : GURL;
  requests_stats : list PreconnectedRequestStats.t }.
End PreconnectStats.

Module PreresolveInfo.
Record t := mk {
  url : GURL;
  queued_count : Z;
  inflight_count : Z;
  was_canceled : bool;
  stats : PreconnectStats.t }.

(** [PreresolveInfo::PreresolveInfo(url, count)] *)
Definition new (url : GURL) (count : Z) : t :=
  mk url count 0 false (PreconnectStats.mk url []).

(** Modelled from the spec: [is_done] lives in the header, which is not part
    of the sources; a group is done iff its queued count and its in-flight
    count are both zero. *)
Definition is_done (i : t) : bool :=
  bool_decide (queued_count i = 0%Z) && bool_decide (inflight_count i = 0%Z).
End PreresolveInfo.

(** The key type of the job table. *)
Abbreviation PreresolveJobId := nat.

(** A [PreresolveInfo*] is the key of the entry of [preresolve_info_] that
    owns the object, which is the host of its URL; [None] is [nullptr].
    Dereferencing a key that is not in the map is a dangling dereference
    and makes the method fail; the invariant below shows that it does not
    happen.  [resolve_host_client] says whether the client is non-null. *)
Module PreresolveJob.
Record t := mk {
  url : GURL;
  num_sockets : Z;
  allow_credentials : bool;
  info : option string;
  resolve_host_client : bool }.

(** [PreresolveJob::PreresolveJob(url, num_sockets, allow_credentials, info)] *)
Definition new (url : GURL) (num_sockets : Z) (allow_credentials : bool)
    (info : option string) : t :=
  mk url num_sockets allow_credentials info false.

(** Modelled from the spec: [need_preconnect] lives in the header; the spec
    gives the condition as socket count > 0. *)
Definition need_preconnect (j : t) : bool := (0 <? num_sockets j)%Z.
End PreresolveJob.

(** Modelled from the spec: base::IDMap is not part of the sources.  [Add]
    inserts and returns a stable identifier, [Lookup] returns the job or
    nothing, [Remove] deletes the entry, and no handle is reused. *)
Module IDMap.
Record t (V : Type) := mk {
  next_id_ : PreresolveJobId;
  data_ : gmap nat V }.
Arguments mk {V}.
Arguments next_id_ {V}.
Arguments data_ {V}.

Definition empty {V} : t V := mk 1 ∅.
Definition Add {V} (v : V) (m : t V) : PreresolveJobId * t V :=
  (next_id_ m, mk (S (next_id_ m)) (<[next_id_ m := v]> (data_ m))).
Definition Lookup {V} (id : PreresolveJobId) (m : t V) : option V :=
  data_ m !! id.
Definition Remove {V} (id : PreresolveJobId) (m : t V) : t V :=
  mk (next_id_ m) (delete id (data_ m)).
End IDMap.

Record Profile := mkProfile { AsTestingProfile : bool }.

(** ** Trace *)

(** What the manager does that the claims speak about: calls on the
    observer, the network context, the task runner and the delegate, and
    the updates of its own containers. *)
Inductive Action :=
| OnPreconnectUrl (url : GURL) (num_sockets : Z) (allow_credentials : bool)
| OnPreresolveUrl (url : GURL)
| OnPreresolveFinished_ (url : GURL) (success : bool)
| PreconnectSockets (num_sockets : Z) (url : GURL) (load_flags : Z)
    (privacy_mode : bool)
| ResolveHost (url : GURL)
| PostTask (success : bool)
| PreconnectFinished (stats : PreconnectStats.t)
| JobsAdd
| JobsRemove
| StatsEmplaceBack (group : string) (r : PreconnectedRequestStats.t)
| InfoEmplace (group : string)
| InfoErase (group : string).

(** An action together with the job on whose behalf it is done.  The job
    id is not passed with the call: it labels the trace, so that the claims
    about single jobs can be stated. *)
Definition Event : Type := option PreresolveJobId * Action.

(** ** State *)

(** The members of [PreconnectManager], then the environment.
    [delegate_], [observer_] and [network_context_] are pointers of which
    only nullness is used.  [callbacks] are the outstanding
    [OnPreresolveFinished] callbacks, each bound to its job id: one held by
    a [ResolveHostClientImpl] waits for the network's answer ([None]), one
    posted to the UI thread already has its argument bound. *)
Record State := mkState {
  delegate_ : bool;
  observer_ : bool;
  network_context_ : bool;
  profile_ : Profile;
  preresolve_info_ : gmap string PreresolveInfo.t;
  preresolve_jobs_ : IDMap.t PreresolveJob.t;
  queued_jobs_ : list PreresolveJobId;
  inflight_preresolves_count_ : Z;
  callbacks : list (PreresolveJobId * option bool);
  trace : list Event }.

Definition set_info (f : gmap string PreresolveInfo.t → gmap string PreresolveInfo.t)
    (s : State) : State :=
  mkState (delegate_ s) (observer_ s) (network_context_ s) (profile_ s)
    (f (preresolve_info_ s)) (preresolve_jobs_ s) (queued_jobs_ s)
    (inflight_preresolves_count_ s) (callbacks s) (trace s).

Definition set_jobs (f : IDMap.t PreresolveJob.t → IDMap.t PreresolveJob.t)
    (s : State) : State :=
  mkState (delegate_ s) (observer_ s) (network_context_ s) (profile_ s)
    (preresolve_info_ s) (f (preresolve_jobs_ s)) (queued_jobs_ s)
    (inflight_preresolves_count_ s) (callbacks s) (trace s).

Definition set_queue (f : list PreresolveJobId → list PreresolveJobId)
    (s : State) : State :=
  mkState (delegate_ s) (observer_ s) (network_context_ s) (profile_ s)
    (preresolve_info_ s) (preresolve_jobs_ s) (f (queued_jobs_ s))
    (inflight_preresolves_count_ s) (callbacks s) (trace s).

Definition set_inflight (f : Z → Z) (s : State) : State :=
  mkState (delegate_ s) (observer_ s) (network_context_ s) (profile_ s)
    (preresolve_info_ s) (preresolve_jobs_ s) (queued_jobs_ s)
    (f (inflight_preresolves_count_ s)) (callbacks s) (trace s).

Definition set_callbacks
    (f : list (PreresolveJobId * option bool) → list (PreresolveJobId * option bool))
    (s : State) : State :=
  mkState (delegate_ s) (observer_ s) (network_context_ s) (profile_ s)
    (preresolve_info_ s) (preresolve_jobs_ s) (queued_jobs_ s)
    (inflight_preresolves_count_ s) (f (callbacks s)) (trace s).

(** Appends to the trace the actions done for [job]. *)
Definition emit (job : option PreresolveJobId) (acts : list Action)
    (s : State) : State :=
  mkState (delegate_ s) (observer_ s) (network_context_ s) (profile_ s)
    (preresolve_info_ s) (preresolve_jobs_ s) (queued_jobs_ s)
    (inflight_preresolves_count_ s) (callbacks s)
    (trace s ++ map (pair job) acts).

(** [PreconnectManager::PreconnectManager(delegate, profile)] *)
Definition PreconnectManager_new (delegate observer network_context : bool)
    (profile : Profile) : State :=
  mkState delegate observer network_context profile ∅ IDMap.empty [] 0 [] [].

(** [PreconnectManager::GetNetworkContext]: the context set for testing if
    any, nothing for a testing profile, else the context of the profile's
    default storage partition. *)
Definition GetNetworkContext (s : State) : bool :=
  if network_context_ s then true
  else if AsTestingProfile (profile_ s) then false
  else true.

(** The jobs whose callback is outstanding. *)
Abbreviation inflight_jobs s := ((callbacks s).*1).

(** ** Methods *)

Section Manager.

(** Constants of headers that are not part of the sources: the cap of
    preconnect_manager.h and the load flags of net/base/load_flags.h. *)
Variable kMaxInflightPreresolves : Z.
Variables LOAD_NORMAL LOAD_DO_NOT_SEND_COOKIES LOAD_DO_NOT_SAVE_COOKIES
  LOAD_DO_NOT_SEND_AUTH_DATA : Z.

(** [info->field = f(info->field)] through a [PreresolveInfo*]. *)
Definition info_update (info : string)
    (f : PreresolveInfo.t → PreresolveInfo.t) (s : State) : option State :=
  i ← preresolve_info_ s !! info;
  Some (set_info (<[info := f i]>) s).

(** The same through a pointer that may be null: [if (info) ...]. *)
Definition if_info (info : option string)
    (f : PreresolveInfo.t → PreresolveInfo.t) (s : State) : option State :=
  match info with
  | Some h => info_update h f s
  | None => Some s
  end.

Definition inc_inflight_count (i : PreresolveInfo.t) : PreresolveInfo.t :=
  PreresolveInfo.mk (PreresolveInfo.url i) (PreresolveInfo.queued_count i)
    (size_t_inc (PreresolveInfo.inflight_count i))
    (PreresolveInfo.was_canceled i) (PreresolveInfo.stats i).

Definition dec_inflight_count (i : PreresolveInfo.t) : PreresolveInfo.t :=
  PreresolveInfo.mk (PreresolveInfo.url i) (PreresolveInfo.queued_count i)
    (size_t_dec (PreresolveInfo.inflight_count i))
    (PreresolveInfo.was_canceled i) (PreresolveInfo.stats i).

Definition dec_queued_count (i : PreresolveInfo.t) : PreresolveInfo.t :=
  PreresolveInfo.mk (PreresolveInfo.url i)
    (size_t_dec (PreresolveInfo.queued_count i))
    (PreresolveInfo.inflight_count i)
    (PreresolveInfo.was_canceled i) (PreresolveInfo.stats i).

Definition set_was_canceled (i : PreresolveInfo.t) : PreresolveInfo.t :=
  PreresolveInfo.mk (PreresolveInfo.url i) (PreresolveInfo.queued_count i)
    (PreresolveInfo.inflight_count i) true (PreresolveInfo.stats i).

Definition stats_emplace_back (r : PreconnectedRequestStats.t)
    (i : PreresolveInfo.t) : PreresolveInfo.t :=
  PreresolveInfo.mk (PreresolveInfo.url i) (PreresolveInfo.queued_count i)
    (PreresolveInfo.inflight_count i) (PreresolveInfo.was_canceled i)
    (PreconnectStats.mk (PreconnectStats.url (PreresolveInfo.stats i))
       (PreconnectStats.requests_stats (PreresolveInfo.stats i) ++ [r])).

(** [job->resolve_host_client = client] for the job stored under [job_id]. *)
Definition set_resolve_host_client (job_id : PreresolveJobId) (client : bool)
    (s : State) : State :=
  set_jobs (λ m, IDMap.mk (IDMap.next_id_ m)
    (alter (λ j, PreresolveJob.mk (PreresolveJob.url j)
                   (PreresolveJob.num_sockets j)
                   (PreresolveJob.allow_credentials j)
                   (PreresolveJob.info j) client) job_id (IDMap.data_ m))) s.

(** [PreconnectManager::PreconnectUrl]: a const method; the result is the
    list of calls it makes. *)
Definition PreconnectUrl (s : State) (url site_for_cookies : GURL)
    (num_sockets : Z) (allow_credentials : bool) : list Action :=
  (if observer_ s then [OnPreconnectUrl url num_sockets allow_credentials]
   else []) ++
  if negb (GetNetworkContext s) then []
  else
    let privacy_mode := false in
    let load_flags := LOAD_NORMAL in
    let '(privacy_mode, load_flags) :=
      if negb allow_credentials then
        (true, Z.lor (Z.lor LOAD_DO_NOT_SEND_COOKIES LOAD_DO_NOT_SAVE_COOKIES)
                 LOAD_DO_NOT_SEND_AUTH_DATA)
      else (privacy_mode, load_flags) in
    [PreconnectSockets num_sockets url load_flags privacy_mode].

(** Modelled from the spec: resolve_host_client_impl.h is not part of the
    sources.  Constructing the client asks the network layer to resolve the
    name; the client keeps the callback and runs it, asynchronously, with
    the outcome. *)
Definition ResolveHostClientImpl_new (url : GURL) (callback : PreresolveJobId)
    (s : State) : State :=
  emit (Some callback) [ResolveHost url]
    (set_callbacks (λ c, c ++ [(callback, None)]) s).

(** [BrowserThread::PostTask(UI, FROM_HERE, BindOnce(callback, success))] *)
Definition BrowserThread_PostTask (callback : PreresolveJobId) (success : bool)
    (s : State) : State :=
  emit (Some callback) [PostTask success]
    (set_callbacks (λ c, c ++ [(callback, Some success)]) s).

(** [PreconnectManager::PreresolveUrl].  The callback is
    [OnPreresolveFinished] bound to [callback]; the result says whether a
    client was returned (false is [nullptr]). *)
Definition PreresolveUrl (url : GURL) (callback : PreresolveJobId)
    (s : State) : bool * State :=
  let s := emit (Some callback)
             (if observer_ s then [OnPreresolveUrl url] else []) s in
  if negb (GetNetworkContext s) then
    (false, BrowserThread_PostTask callback false s)
  else (true, ResolveHostClientImpl_new url callback s).

(** One iteration of the loop of [TryToLaunchPreresolveJobs], after
    [job_id] was popped from the queue. *)
Definition TryToLaunch_iteration (job_id : PreresolveJobId) (s : State)
    : option State :=
  job ← IDMap.Lookup job_id (preresolve_jobs_ s);
  let info := PreresolveJob.info job in
  canceled ← match info with
             | Some h => PreresolveInfo.was_canceled <$> preresolve_info_ s !! h
             | None => Some false
             end;
  s ← (if negb canceled then
         let '(client, s) := PreresolveUrl (PreresolveJob.url job) job_id s in
         let s := set_resolve_host_client job_id client s in
         s ← if_info info inc_inflight_count s;
         Some (set_inflight size_t_inc s)
       else
         Some (emit (Some job_id) [JobsRemove]
                 (set_jobs (IDMap.Remove job_id) s)));
  if_info info dec_queued_count s.

(** The loop of [TryToLaunchPreresolveJobs]; [queue] is [queued_jobs_]. *)
Fixpoint TryToLaunch_loop (queue : list PreresolveJobId) (s : State)
    : option State :=
  match queue with
  | [] => Some s
  | job_id :: queue' =>
      if (inflight_preresolves_count_ s <? kMaxInflightPreresolves)%Z then
        s ← TryToLaunch_iteration job_id (set_queue (λ _, queue') s);
        TryToLaunch_loop queue' s
      else Some s
  end.

(** [PreconnectManager::TryToLaunchPreresolveJobs] *)
Definition TryToLaunchPreresolveJobs (s : State) : option State :=
  TryToLaunch_loop (queued_jobs_ s) s.

(** [preresolve_jobs_.Add(make_unique<PreresolveJob>(...))] followed by
    [queued_jobs_.push_back(job_id)] or [push_front(job_id)]. *)
Definition add_job (front : bool) (job : PreresolveJob.t) (s : State)
    : State :=
  let '(job_id, jobs) := IDMap.Add job (preresolve_jobs_ s) in
  emit (Some job_id) [JobsAdd]
    (set_queue (λ q, if front then job_id :: q else q ++ [job_id])
       (set_jobs (λ _, jobs) s)).

(** [PreconnectManager::Start].  [requests.size()] is the length of the
    list; a vector's size fits [size_t] (see [wf_op]). *)
Definition Start (url : GURL) (requests : list PreconnectRequest.t)
    (s : State) : option State :=
  let host := host url in
  if decide (is_Some (preresolve_info_ s !! host)) then Some s
  else
    let s := emit None [InfoEmplace host]
               (set_info (<[host := PreresolveInfo.new url
                                      (Z.of_nat (length requests))]>) s) in
    let info := Some host in
    let s := foldl (λ s request,
                 add_job false
                   (PreresolveJob.new (PreconnectRequest.origin request)
                      (PreconnectRequest.num_sockets request)
                      (PreconnectRequest.allow_credentials request) info) s)
               s requests in
    TryToLaunchPreresolveJobs s.

Definition kAllowCredentialsOnPreconnectByDefault : bool := true.

(** [PreconnectManager::StartPreresolveHost] *)
Definition StartPreresolveHost (url : GURL) (s : State) : option State :=
  if negb (SchemeIsHTTPOrHTTPS url) then Some s
  else
    let s := add_job true
               (PreresolveJob.new (GetOrigin url) 0
                  kAllowCredentialsOnPreconnectByDefault None) s in
    TryToLaunchPreresolveJobs s.

(** [PreconnectManager::StartPreresolveHosts]: the host names are walked
    from the last to the first. *)
Definition StartPreresolveHosts (hostnames : list string) (s : State)
    : option State :=
  let s := foldl (λ s it,
               add_job true
                 (PreresolveJob.new (GURL_http it) 0
                    kAllowCredentialsOnPreconnectByDefault None) s)
             s (rev hostnames) in
  TryToLaunchPreresolveJobs s.

(** [PreconnectManager::StartPreconnectUrl] *)
Definition StartPreconnectUrl (url : GURL) (allow_credentials : bool)
    (s : State) : option State :=
  if negb (SchemeIsHTTPOrHTTPS url) then Some s
  else
    let s := add_job true
               (PreresolveJob.new (GetOrigin url) 1 allow_credentials None) s in
    TryToLaunchPreresolveJobs s.

(** [PreconnectManager::Stop] *)
Definition Stop (url : GURL) (s : State) : option State :=
  match preresolve_info_ s !! host url with
  | None => Some s
  | Some i => Some (set_info (<[host url := set_was_canceled i]>) s)
  end.

(** [PreconnectManager::FinishPreresolve] *)
Definition FinishPreresolve (job_id : PreresolveJobId) (found cached : bool)
    (s : State) : option State :=
  job ← IDMap.Lookup job_id (preresolve_jobs_ s);
  let info := PreresolveJob.info job in
  need_preconnect ←
    (if found && PreresolveJob.need_preconnect job then
       match info with
       | None => Some true
       | Some h => (λ i, negb (PreresolveInfo.was_canceled i))
                     <$> preresolve_info_ s !! h
       end
     else Some false);
  s ← (if need_preconnect : bool then
         site ← match info with
                | Some h => PreresolveInfo.url <$> preresolve_info_ s !! h
                | None => Some GURL_empty
                end;
         Some (emit (Some job_id)
                 (PreconnectUrl s (PreresolveJob.url job) site
                    (PreresolveJob.num_sockets job)
                    (PreresolveJob.allow_credentials job)) s)
       else Some s);
  s ← match info with
      | Some h =>
          if found then
            let r := PreconnectedRequestStats.mk (PreresolveJob.url job)
                       cached need_preconnect in
            s ← info_update h (stats_emplace_back r) s;
            Some (emit (Some job_id) [StatsEmplaceBack h r] s)
          else Some s
      | None => Some s
      end;
  Some (emit (Some job_id) [JobsRemove] (set_jobs (IDMap.Remove job_id) s)).

(** [PreconnectManager::AllPreresolvesForUrlFinished]; [job_id] is the job
    whose completion led here, for the trace only.  Erasing [end()] when
    the host is not found fails. *)
Definition AllPreresolvesForUrlFinished (job_id : PreresolveJobId)
    (info : string) (s : State) : option State :=
  i ← preresolve_info_ s !! info;
  let it := host (PreresolveInfo.url i) in
  _ ← preresolve_info_ s !! it;
  let s := if delegate_ s
           then emit (Some job_id) [PreconnectFinished (PreresolveInfo.stats i)] s
           else s in
  Some (emit (Some job_id) [InfoErase it] (set_info (delete it) s)).

(** [PreconnectManager::OnPreresolveFinished] *)
Definition OnPreresolveFinished (job_id : PreresolveJobId) (success : bool)
    (s : State) : option State :=
  job ← IDMap.Lookup job_id (preresolve_jobs_ s);
  let info := PreresolveJob.info job in
  let s := emit (Some job_id)
             (if observer_ s
              then [OnPreresolveFinished_ (PreresolveJob.url job) success]
              else []) s in
  s ← FinishPreresolve job_id success false s;
  let s := set_inflight size_t_dec s in
  s ← if_info info dec_inflight_count s;
  s ← match info with
      | Some h =>
          i ← preresolve_info_ s !! h;
          if PreresolveInfo.is_done i
          then AllPreresolvesForUrlFinished job_id h s
          else Some s
      | None => Some s
      end;
  TryToLaunchPreresolveJobs s.

(** ** Runs *)

(** A call of a public method, or the environment running one of the
    outstanding callbacks: the network's answer [success] for a callback
    held by a resolve client, the bound argument for a posted one. *)
Inductive Op :=
| OpStart (url : GURL) (requests : list PreconnectRequest.t)
| OpStartPreresolveHost (url : GURL)
| OpStartPreresolveHosts (hostnames : list string)
| OpStartPreconnectUrl (url : GURL) (allow_credentials : bool)
| OpStop (url : GURL)
| OpCallback (job_id : PreresolveJobId) (success : bool).

(** Takes the callback bound to [job_id] out of the outstanding ones. *)
Fixpoint take_callback (job_id : PreresolveJobId)
    (cbs : list (PreresolveJobId * option bool))
    : option (option bool * list (PreresolveJobId * option bool)) :=
  match cbs with
  | [] => None
  | (id, bound) :: cbs' =>
      if decide (id = job_id) then Some (bound, cbs')
      else '(b, rest) ← take_callback job_id cbs'; Some (b, (id, bound) :: rest)
  end.

Definition step (op : Op) (s : State) : option State :=
  match op with
  | OpStart url requests => Start url requests s
  | OpStartPreresolveHost url => StartPreresolveHost url s
  | OpStartPreresolveHosts hostnames => StartPreresolveHosts hostnames s
  | OpStartPreconnectUrl url allow_credentials =>
      StartPreconnectUrl url allow_credentials s
  | OpStop url => Stop url s
  | OpCallback job_id success =>
      match take_callback job_id (callbacks s) with
      | None => Some s
      | Some (bound, rest) =>
          OnPreresolveFinished job_id (default success bound)
            (set_callbacks (λ _, rest) s)
      end
  end.

Fixpoint run (ops : list Op) (s : State) : option State :=
  match ops with
  | [] => Some s
  | op :: ops' => s ← step op s; run ops' s
  end.

(** ** Invariant *)

(** The group a job of the table points to. *)
Definition job_group (jobs : gmap nat PreresolveJob.t) (id : PreresolveJobId)
    : option string :=
  jobs !! id ≫= PreresolveJob.info.

(** How many of the jobs [l] point to the group [h]. *)
Definition group_count (jobs : gmap nat PreresolveJob.t) (h : string)
    (l : list PreresolveJobId) : nat :=
  length (filter (λ id, job_group jobs id = Some h) l).


Hypothesis kMax_range :
  (0 ≤ kMaxInflightPreresolves < size_t_modulus)%Z.

(** The job table holds exactly the queued and the in-flight jobs, each
    once; the counters count them; a job's group pointer never dangles. *)
Record Inv (s : State) : Prop := {
  inv_fresh : ∀ id, is_Some (IDMap.data_ (preresolve_jobs_ s) !! id) →
    id < IDMap.next_id_ (preresolve_jobs_ s);
  inv_nodup : NoDup (queued_jobs_ s ++ inflight_jobs s);
  inv_dom : ∀ id, is_Some (IDMap.data_ (preresolve_jobs_ s) !! id) ↔
    id ∈ queued_jobs_ s ++ inflight_jobs s;
  inv_inflight :
    inflight_preresolves_count_ s = Z.of_nat (length (callbacks s));
  inv_cap : (inflight_preresolves_count_ s ≤ kMaxInflightPreresolves)%Z;
  inv_group : ∀ id h,
    job_group (IDMap.data_ (preresolve_jobs_ s)) id = Some h →
    is_Some (preresolve_info_ s !! h);
  inv_key : ∀ h i, preresolve_info_ s !! h = Some i →
    host (PreresolveInfo.url i) = h ∧
    PreconnectStats.url (PreresolveInfo.stats i) = PreresolveInfo.url i;
  inv_counts : ∀ h i, preresolve_info_ s !! h = Some i →
    PreresolveInfo.queued_count i =
      Z.of_nat (group_count (IDMap.data_ (preresolve_jobs_ s)) h
                  (queued_jobs_ s)) ∧
    PreresolveInfo.inflight_count i =
      Z.of_nat (group_count (IDMap.data_ (preresolve_jobs_ s)) h
                  (inflight_jobs s)) ∧
    (PreresolveInfo.queued_count i < size_t_modulus)%Z }.

(** ** Transitions *)

(** The states the methods pass through, written out.  Every method is a
    sequence of the transitions below (lemmas [*_msteps]), so an invariant
    of the transitions is an invariant of the code. *)

(** [Start] up to its call of [TryToLaunchPreresolveJobs]. *)
Definition start_state (url : GURL) (requests : list PreconnectRequest.t)
    (s : State) : State :=
  foldl (λ s request,
      add_job false
        (PreresolveJob.new (PreconnectRequest.origin request)
           (PreconnectRequest.num_sockets request)
           (PreconnectRequest.allow_credentials request) (Some (host url))) s)
    (emit None [InfoEmplace (host url)]
       (set_info (<[host url := PreresolveInfo.new url
                                  (Z.of_nat (length requests))]>) s))
    requests.

(** A loop iteration that drops the popped job of a cancelled group. *)
Definition drop_state (id : PreresolveJobId) (q : list PreresolveJobId)
    (h : string) (i : PreresolveInfo.t) (s : State) : State :=
  set_info (<[h := dec_queued_count i]>)
    (emit (Some id) [JobsRemove]
       (set_jobs (IDMap.Remove id) (set_queue (λ _, q) s))).

Definition admit_acts (job : PreresolveJob.t) (s : State) : list Action :=
  (if observer_ s then [OnPreresolveUrl (PreresolveJob.url job)] else []) ++
  [if GetNetworkContext s then ResolveHost (PreresolveJob.url job)
   else PostTask false].

(** A loop iteration that submits the popped job. *)
Definition admit_state (id : PreresolveJobId) (q : list PreresolveJobId)
    (job : PreresolveJob.t) (s : State) : State :=
  set_info
    match PreresolveJob.info job with
    | Some h => alter (λ i, dec_queued_count (inc_inflight_count i)) h
    | None => λ m, m
    end
    (set_inflight size_t_inc
       (set_resolve_host_client id (GetNetworkContext s)
          (emit (Some id) (admit_acts job s)
             (set_callbacks
                (λ c, c ++ [(id, if GetNetworkContext s then None
                                 else Some false)])
                (set_queue (λ _, q) s))))).

(** [OnPreresolveFinished] up to its call of [TryToLaunchPreresolveJobs],
    for a job without a group; [rest] are the callbacks left. *)
Definition finish_adhoc_state (id : PreresolveJobId)
    (rest : list (PreresolveJobId * option bool)) (job : PreresolveJob.t)
    (success : bool) (s : State) : State :=
  emit (Some id)
    ((if observer_ s
      then [OnPreresolveFinished_ (PreresolveJob.url job) success] else []) ++
     (if success && PreresolveJob.need_preconnect job
      then PreconnectUrl s (PreresolveJob.url job) GURL_empty
             (PreresolveJob.num_sockets job)
             (PreresolveJob.allow_credentials job)
      else []) ++
     [JobsRemove])
    (set_inflight size_t_dec
       (set_jobs (IDMap.Remove id) (set_callbacks (λ _, rest) s))).

(** The same for a job of the group [h], whose record is [i]. *)
Definition finish_need (job : PreresolveJob.t) (i : PreresolveInfo.t)
    (success : bool) : bool :=
  success && PreresolveJob.need_preconnect job &&
  negb (PreresolveInfo.was_canceled i).

Definition finish_record (job : PreresolveJob.t) (i : PreresolveInfo.t)
    (success : bool) : PreconnectedRequestStats.t :=
  PreconnectedRequestStats.mk (PreresolveJob.url job) false
    (finish_need job i success).

Definition finish_info (job : PreresolveJob.t) (i : PreresolveInfo.t)
    (success : bool) : PreresolveInfo.t :=
  dec_inflight_count
    (if success then stats_emplace_back (finish_record job i success) i
     else i).

Definition finish_group_state (id : PreresolveJobId)
    (rest : list (PreresolveJobId * option bool)) (job : PreresolveJob.t)
    (h : string) (i : PreresolveInfo.t) (success : bool) (s : State) : State :=
  let i' := finish_info job i success in
  emit (Some id)
    ((if observer_ s
      then [OnPreresolveFinished_ (PreresolveJob.url job) success] else []) ++
     (if finish_need job i success
      then PreconnectUrl s (PreresolveJob.url job) (PreresolveInfo.url i)
             (PreresolveJob.num_sockets job)
             (PreresolveJob.allow_credentials job)
      else []) ++
     (if success then [StatsEmplaceBack h (finish_record job i success)]
      else []) ++
     [JobsRemove] ++
     (if PreresolveInfo.is_done i'
      then (if delegate_ s then [PreconnectFinished (PreresolveInfo.stats i')]
            else []) ++ [InfoErase h]
      else []))
    (set_info (if PreresolveInfo.is_done i' then delete h else <[h := i']>)
       (set_inflight size_t_dec
          (set_jobs (IDMap.Remove id) (set_callbacks (λ _, rest) s)))).

Inductive mstep : State → State → Prop :=
| ms_start s url requests :
    preresolve_info_ s !! host url = None →
    (Z.of_nat (length requests) < size_t_modulus)%Z →
    mstep s (start_state url requests s)
| ms_front s job :
    PreresolveJob.info job = None →
    mstep s (add_job true job s)
| ms_stop s h i :
    preresolve_info_ s !! h = Some i →
    mstep s (set_info (<[h := set_was_canceled i]>) s)
| ms_drop s id q job h i :
    queued_jobs_ s = id :: q →
    IDMap.data_ (preresolve_jobs_ s) !! id = Some job →
    PreresolveJob.info job = Some h →
    preresolve_info_ s !! h = Some i →
    PreresolveInfo.was_canceled i = true →
    mstep s (drop_state id q h i s)
| ms_admit s id q job :
    queued_jobs_ s = id :: q →
    IDMap.data_ (preresolve_jobs_ s) !! id = Some job →
    (inflight_preresolves_count_ s < kMaxInflightPreresolves)%Z →
    (∀ h, PreresolveJob.info job = Some h →
       ∃ i, preresolve_info_ s !! h = Some i ∧
            PreresolveInfo.was_canceled i = false) →
    mstep s (admit_state id q job s)
| ms_finish_adhoc s id b l1 l2 job success :
    callbacks s = l1 ++ (id, b) :: l2 →
    IDMap.data_ (preresolve_jobs_ s) !! id = Some job →
    PreresolveJob.info job = None →
    mstep s (finish_adhoc_state id (l1 ++ l2) job (default success b) s)
| ms_finish_group s id b l1 l2 job h i success :
    callbacks s = l1 ++ (id, b) :: l2 →
    IDMap.data_ (preresolve_jobs_ s) !! id = Some job →
    PreresolveJob.info job = Some h →
    preresolve_info_ s !! h = Some i →
    mstep s (finish_group_state id (l1 ++ l2) job h i (default success b) s).

(** The inputs a caller can pass: the size of a vector fits [size_t]. *)
Definition wf_op (op : Op) : Prop :=
  match op with
  | OpStart _ requests => (Z.of_nat (length requests) < size_t_modulus)%Z
  | _ => True
  end.

(** ** Reading the trace *)

(** The reports delivered to the delegate, in order. *)
Definition reports (t : list Event) : list PreconnectStats.t :=
  omap (λ e, match e.2 with PreconnectFinished st => Some st | _ => None end) t.

(** The hosts for which a resolve was submitted, in order of submission. *)
Definition submitted_hosts (t : list Event) : list string :=
  omap (λ e, match e.2 with ResolveHost u => Some (host u) | _ => None end) t.

(** What the trace says was done for one job: how often it was added to
    the job table, submitted to the network layer (a resolve client made or
    the failure posted), removed from the table, preconnected, and given a
    stats record. *)
Record Tally := mkTally {
  adds : nat;
  submits : nat;
  removes : nat;
  preconnects : nat;
  records : nat }.

Definition tally_act (a : Action) : Tally :=
  match a with
  | JobsAdd => mkTally 1 0 0 0 0
  | ResolveHost _ | PostTask _ => mkTally 0 1 0 0 0
  | JobsRemove => mkTally 0 0 1 0 0
  | PreconnectSockets _ _ _ _ => mkTally 0 0 0 1 0
  | StatsEmplaceBack _ _ => mkTally 0 0 0 0 1
  | _ => mkTally 0 0 0 0 0
  end.

Definition tally_add (x y : Tally) : Tally :=
  mkTally (adds x + adds y) (submits x + submits y) (removes x + removes y)
    (preconnects x + preconnects y) (records x + records y).

Definition tally_acts (acts : list Action) : Tally :=
  foldr (λ a, tally_add (tally_act a)) (mkTally 0 0 0 0 0) acts.

Fixpoint tally (id : PreresolveJobId) (t : list Event) : Tally :=
  match t with
  | [] => mkTally 0 0 0 0 0
  | (j, a) :: t =>
      tally_add (if decide (j = Some id) then tally_act a
                 else mkTally 0 0 0 0 0) (tally id t)
  end.

(** Where a job is in its life, and the tally that goes with it. *)
Inductive Disposition :=
| NotCreated
| InQueue
| InFlight
| Dropped
| Completed (preconnected recorded : bool).

Definition tally_of (d : Disposition) : Tally :=
  match d with
  | NotCreated => mkTally 0 0 0 0 0
  | InQueue => mkTally 1 0 0 0 0
  | InFlight => mkTally 1 1 0 0 0
  | Dropped => mkTally 1 0 1 0 0
  | Completed p r =>
      mkTally 1 1 1 (if p then 1 else 0) (if r then 1 else 0)
  end.

(** The disposition agrees with where the job is in the state. *)
Definition placed (s : State) (id : PreresolveJobId) (d : Disposition)
    : Prop :=
  match d with
  | InQueue => id ∈ queued_jobs_ s
  | InFlight => id ∈ inflight_jobs s
  | NotCreated | Dropped | Completed _ _ =>
      IDMap.data_ (preresolve_jobs_ s) !! id = None
  end.

Definition life (s : State) (id : PreresolveJobId) : Prop :=
  (∃ d, placed s id d ∧ tally id (trace s) = tally_of d) ∧
  (IDMap.next_id_ (preresolve_jobs_ s) ≤ id →
   tally id (trace s) = mkTally 0 0 0 0 0).

(** A preconnect made visible: the observer is told, or the network
    context is called. *)
Definition is_preconnect (a : Action) : bool :=
  match a with
  | OnPreconnectUrl _ _ _ | PreconnectSockets _ _ _ _ => true
  | _ => false
  end.

(** No preconnect is made for the job [id] in the events [evs]. *)
Definition quiet (id : PreresolveJobId) (evs : list Event) : Prop :=
  Forall (λ e, e.1 = Some id → is_preconnect e.2 = false) evs.

(** The jobs [W] of the cancelled group [h] are watched from the trace [t0]
    on: while one of them is in the table the group is there and still
    cancelled, and no preconnect was made for any of them since. *)
Definition Watch (W : PreresolveJobId → Prop) (h : string) (t0 : list Event)
    (s : State) : Prop :=
  (∀ id, W id → id < IDMap.next_id_ (preresolve_jobs_ s)) ∧
  (∀ id job, W id → IDMap.data_ (preresolve_jobs_ s) !! id = Some job →
     PreresolveJob.info job = Some h ∧
     ∃ i, preresolve_info_ s !! h = Some i ∧
          PreresolveInfo.was_canceled i = true) ∧
  (∃ evs, trace s = t0 ++ evs ∧ ∀ id, W id → quiet id evs).

(** The jobs submitted to the network layer, in order of submission. *)
Definition admissions (evs : list Event) : list PreresolveJobId :=
  omap (λ e, match e.2 with
             | ResolveHost _ | PostTask _ => e.1
             | _ => None
             end) evs.

(** [x] comes before [y] in [l]. *)
Definition before (x y : PreresolveJobId) (l : list PreresolveJobId) : Prop :=
  ∃ l1 l2 l3, l = l1 ++ x :: l2 ++ y :: l3.

(** A job of the table that has no group. *)
Definition adhoc (s : State) (id : PreresolveJobId) : Prop :=
  ∃ job, IDMap.data_ (preresolve_jobs_ s) !! id = Some job ∧
         PreresolveJob.info job = None.

(** The order of two queued jobs without a group is the order in which
    they are submitted; [t0] is the trace when both were queued. *)
Definition Ord (x y : PreresolveJobId) (t0 : list Event) (s : State) : Prop :=
  ∃ evs, trace s = t0 ++ evs ∧
    ((before x y (queued_jobs_ s) ∧ adhoc s x ∧ adhoc s y ∧
      (x ∉ admissions evs) ∧ (y ∉ admissions evs)) ∨
     ((x ∈ admissions evs) ∧ (y ∈ queued_jobs_ s) ∧ adhoc s y ∧
      (y ∉ admissions evs)) ∨
     before x y (admissions evs)).

(** The reports delivered for the group of the host [h]. *)
Definition reports_for (h : string) (t : list Event)
    : list PreconnectStats.t :=
  filter (λ st, host (PreconnectStats.url st) = h) (reports t).

(** The group [h] is done and in the map, no job of the table points to it,
    and no report was delivered for it. *)
Definition Leaked (h : string) (s : State) : Prop :=
  (∃ i, preresolve_info_ s !! h = Some i ∧ PreresolveInfo.is_done i = true) ∧
  (∀ id, job_group (IDMap.data_ (preresolve_jobs_ s)) id ≠ Some h) ∧
  reports_for h (trace s) = [].

(** ** The launch loop *)

(** Nothing is left to launch: the queue is empty or every slot is taken. *)
Definition Exhausted (s : State) : Prop :=
  queued_jobs_ s = [] ∨
  (kMaxInflightPreresolves ≤ inflight_preresolves_count_ s)%Z.

(** The job [id] of the table belongs to a cancelled group. *)
Definition cancelled (s : State) (id : PreresolveJobId) : bool :=
  match job_group (IDMap.data_ (preresolve_jobs_ s)) id with
  | Some h =>
      match preresolve_info_ s !! h with
      | Some i => PreresolveInfo.was_canceled i
      | None => false
      end
  | None => false
  end.

(** One iteration of the loop of [TryToLaunchPreresolveJobs]. *)
Inductive lstep : State → State → Prop :=
| ls_drop s id q job h i :
    queued_jobs_ s = id :: q →
    IDMap.data_ (preresolve_jobs_ s) !! id = Some job →
    PreresolveJob.info job = Some h →
    preresolve_info_ s !! h = Some i →
    PreresolveInfo.was_canceled i = true →
    lstep s (drop_state id q h i s)
| ls_admit s id q job :
    queued_jobs_ s = id :: q →
    IDMap.data_ (preresolve_jobs_ s) !! id = Some job →
    (inflight_preresolves_count_ s < kMaxInflightPreresolves)%Z →
    (∀ h, PreresolveJob.info job = Some h →
       ∃ i, preresolve_info_ s !! h = Some i ∧
            PreresolveInfo.was_canceled i = false) →
    lstep s (admit_state id q job s).

(** What the loop does: it tells the observer, submits a resolve, posts a
    failure or removes a job. *)
Definition launch_act (a : Action) : Prop :=
  match a with
  | OnPreresolveUrl _ | ResolveHost _ | PostTask _ | JobsRemove => True
  | _ => False
  end.

(** The callback the loop registers for a submitted job: held by the
    resolve client, or posted with [false] when there is no network
    context. *)
Definition submitted (s : State) (id : PreresolveJobId)
    : PreresolveJobId * option bool :=
  (id, if GetNetworkContext s then None else Some false).

(** The free slots. *)
Definition free_slots (s : State) : nat :=
  Z.to_nat (kMaxInflightPreresolves - inflight_preresolves_count_ s).

(** The job [j'] is the job [j], with or without a resolve client. *)
Definition same_job (j j' : PreresolveJob.t) : Prop :=
  PreresolveJob.url j' = PreresolveJob.url j ∧
  PreresolveJob.num_sockets j' = PreresolveJob.num_sockets j ∧
  PreresolveJob.allow_credentials j' = PreresolveJob.allow_credentials j ∧
  PreresolveJob.info j' = PreresolveJob.info j.

(** The group [i'] is the group [i] up to its counters. *)
Definition same_group (i i' : PreresolveInfo.t) : Prop :=
  PreresolveInfo.url i' = PreresolveInfo.url i ∧
  PreresolveInfo.was_canceled i' = PreresolveInfo.was_canceled i ∧
  PreresolveInfo.stats i' = PreresolveInfo.stats i.

(** The environment runs a completion callback. *)
Definition is_callback (op : Op) : Prop :=
  match op with OpCallback _ _ => True | _ => False end.

(** A job of the table holds a resolve client exactly when it is in flight
    and there is a network context. *)
Definition ClientHeld (s : State) : Prop :=
  ∀ id job, IDMap.data_ (preresolve_jobs_ s) !! id = Some job →
    PreresolveJob.resolve_host_client job =
    bool_decide (id ∈ inflight_jobs s) && GetNetworkContext s.

(** None of the jobs [W] is in flight, and none was submitted since the
    trace [t0]. *)
Definition Unsubmitted (W : PreresolveJobId → Prop) (t0 : list Event)
    (s : State) : Prop :=
  (∀ id, W id → id ∉ inflight_jobs s) ∧
  ∃ evs, trace s = t0 ++ evs ∧ ∀ id, W id → id ∉ admissions evs.

(** ** Reading the trace, continued *)

(** The calls of [PreconnectSockets], in order. *)
Definition is_socket_call (a : Action) : bool :=
  match a with PreconnectSockets _ _ _ _ => true | _ => false end.

Definition socket_calls (t : list Event) : list Event :=
  filter (λ e, is_socket_call e.2 = true) t.

(** The load flags and the privacy mode [PreconnectUrl] passes on. *)
Definition load_flags_of (allow_credentials : bool) : Z :=
  if allow_credentials then LOAD_NORMAL
  else Z.lor (Z.lor LOAD_DO_NOT_SEND_COOKIES LOAD_DO_NOT_SAVE_COOKIES)
         LOAD_DO_NOT_SEND_AUTH_DATA.

(** Sockets are asked for in positive numbers only. *)
Definition positive_act (a : Action) : Prop :=
  match a with
  | PreconnectSockets n _ _ _ | OnPreconnectUrl _ n _ => (0 < n)%Z
  | _ => True
  end.

(** How often the trace has an action that [p] accepts. *)
Definition count_act (p : Action → bool) (t : list Event) : nat :=
  length (filter (λ e, p e.2 = true) t).

Definition is_emplace (h : string) (a : Action) : bool :=
  match a with InfoEmplace g => bool_decide (g = h) | _ => false end.

Definition is_erase (h : string) (a : Action) : bool :=
  match a with InfoErase g => bool_decide (g = h) | _ => false end.

Definition is_report (h : string) (a : Action) : bool :=
  match a with
  | PreconnectFinished st => bool_decide (host (PreconnectStats.url st) = h)
  | _ => false
  end.

(** An action that neither makes, erases nor reports a group. *)
Definition group_silent (a : Action) : Prop :=
  match a with
  | InfoEmplace _ | InfoErase _ | PreconnectFinished _ => False
  | _ => True
  end.

(** The groups made for a host are the groups erased and the one in the
    map, if any; with a delegate every erased group was reported, once;
    without one nothing is reported. *)
Definition Accounted (s : State) : Prop :=
  ∀ h,
    count_act (is_emplace h) (trace s) =
      count_act (is_erase h) (trace s) +
      (if decide (is_Some (preresolve_info_ s !! h)) then 1 else 0) ∧
    count_act (is_report h) (trace s) =
      (if delegate_ s then count_act (is_erase h) (trace s) else 0).

(** No record of the stats says that the resolve was served from a
    cache. *)
Definition uncached (st : PreconnectStats.t) : Prop :=
  Forall (λ r, PreconnectedRequestStats.was_preresolve_cached r = false)
    (PreconnectStats.requests_stats st).

Definition uncached_act (a : Action) : Prop :=
  match a with
  | PreconnectFinished st => uncached st
  | StatsEmplaceBack _ r =>
      PreconnectedRequestStats.was_preresolve_cached r = false
  | _ => True
  end.

Definition Uncached (s : State) : Prop :=
  (∀ h i, preresolve_info_ s !! h = Some i →
     uncached (PreresolveInfo.stats i)) ∧
  Forall (λ e, uncached_act e.2) (trace s).

(** What a manager without a network context does: nothing reaches the
    network layer, every callback is posted with [false], and no stats
    record is made. *)
Definition offline_act (a : Action) : Prop :=
  match a with
  | ResolveHost _ | PreconnectSockets _ _ _ _ | OnPreconnectUrl _ _ _
  | StatsEmplaceBack _ _ => False
  | PreconnectFinished st => PreconnectStats.requests_stats st = []
  | _ => True
  end.

Definition Offline (s : State) : Prop :=
  GetNetworkContext s = false ∧
  Forall (λ cb, cb.2 = Some false) (callbacks s) ∧
  (∀ h i, preresolve_info_ s !! h = Some i →
     PreconnectStats.requests_stats (PreresolveInfo.stats i) = []) ∧
  Forall (λ e, offline_act e.2) (trace s).

(** The group [h] is done and in the map, no job of the table points to it,
    and since the trace [t0] it was neither reported nor erased. *)
Definition Stuck (h : string) (t0 : list Event) (s : State) : Prop :=
  (∃ i, preresolve_info_ s !! h = Some i ∧ PreresolveInfo.is_done i = true) ∧
  (∀ id, job_group (IDMap.data_ (preresolve_jobs_ s)) id ≠ Some h) ∧
  ∃ evs, trace s = t0 ++ evs ∧
         count_act (is_report h) evs = 0 ∧ count_act (is_erase h) evs = 0.

(** ** The end of a job *)

(** The dispositions in which a job has left the table. *)
Definition terminal (d : Disposition) : Prop :=
  match d with
  | Dropped | Completed _ _ => True
  | _ => False
  end.

(** A call other than [Stop]. *)
Definition not_stop (op : Op) : Prop :=
  match op with OpStop _ => False | _ => True end.

(** Since the trace [t0] the job [id] is still queued, its group (if it has
    one) not cancelled, or it was submitted. *)
Definition Live (id : PreresolveJobId) (t0 : list Event) (s : State) : Prop :=
  ∃ evs, trace s = t0 ++ evs ∧
    (((id ∈ queued_jobs_ s) ∧ cancelled s id = false) ∨
     (id ∈ admissions evs)).

(** ** What is added to the stats of a group *)

(** The records that [op], called in the state [s], adds to the stats of the
    group [h]: one record when [op] is the completion callback of a job of
    the group and the resolve succeeded, none in every other case.  The
    outcome of a posted callback is the value it was bound to. *)
Definition callback_record (s : State) (op : Op) (h : string)
    : list PreconnectedRequestStats.t :=
  match op with
  | OpCallback id success =>
      match take_callback id (callbacks s),
            IDMap.Lookup id (preresolve_jobs_ s),
            preresolve_info_ s !! h with
      | Some (bound, _), Some job, Some i =>
          if decide (PreresolveJob.info job = Some h) then
            if default success bound then
              [PreconnectedRequestStats.mk (PreresolveJob.url job) false
                 (PreresolveJob.need_preconnect job &&
                  negb (PreresolveInfo.was_canceled i))]
            else []
          else []
      | _, _, _ => []
      end
  | _ => []
  end.

(** Between [s] and [s'] the events [evs] were made, and the stats of the
    groups grew by the records [added]: a report is the grown stats of a
    group that was erased, a group that stays has the grown stats, and a
    new group has no record. *)
Definition stats_follow (s : State)
    (added : string → list PreconnectedRequestStats.t) (s' : State)
    (evs : list Event) : Prop :=
  (∀ st, st ∈ reports evs →
     ∃ h i, preresolve_info_ s !! h = Some i ∧
            preresolve_info_ s' !! h = None ∧
            st = PreconnectStats.mk (PreconnectStats.url (PreresolveInfo.stats i))
                   (PreconnectStats.requests_stats (PreresolveInfo.stats i) ++
                    added h)) ∧
  (∀ h i i', preresolve_info_ s !! h = Some i →
     preresolve_info_ s' !! h = Some i' →
     PreresolveInfo.stats i' =
       PreconnectStats.mk (PreconnectStats.url (PreresolveInfo.stats i))
         (PreconnectStats.requests_stats (PreresolveInfo.stats i) ++
          added h)) ∧
  (∀ h i', preresolve_info_ s !! h = None →
     preresolve_info_ s' !! h = Some i' →
     PreconnectStats.requests_stats (PreresolveInfo.stats i') = []).

(** The record [r] comes from a successful resolve of the run [ops] from
    [s0]: at some point of the run the completion callback of a job of a
    group ran with success, and [r] is the record of that job. *)
Definition recorded_by (s0 : State) (ops : list Op)
    (r : PreconnectedRequestStats.t) : Prop :=
  ∃ ops1 id success ops2 s1 bound rest job h i,
    ops = ops1 ++ OpCallback id success :: ops2 ∧
    run ops1 s0 = Some s1 ∧
    take_callback id (callbacks s1) = Some (bound, rest) ∧
    default success bound = true ∧
    IDMap.Lookup id (preresolve_jobs_ s1) = Some job ∧
    PreresolveJob.info job = Some h ∧
    preresolve_info_ s1 !! h = Some i ∧
    r = PreconnectedRequestStats.mk (PreresolveJob.url job) false
          (PreresolveJob.need_preconnect job &&
           negb (PreresolveInfo.was_canceled i)).

(** ** Sample inputs *)

Definition url_of (h : string) : GURL := mkGURL "https" h "" "/".

Definition request_of (h : string) (num_sockets : Z) : PreconnectRequest.t :=
  PreconnectRequest.mk (url_of h) num_sockets true.

(** A manager with a delegate and a network context, and one whose
    network context cannot be obtained. *)
Definition sample_manager : State :=
  PreconnectManager_new true false true (mkProfile false).

Definition offline_manager : State :=
  PreconnectManager_new true false false (mkProfile true).

(** One request whose resolve fails. *)
Definition failed_resolve_ops : list Op :=
  [OpStart (url_of "x") [request_of "a" 1]; OpCallback 1 false].

(** The batch a, b, c, then d, then every resolve succeeding. *)
Definition batch_then_single_ops : list Op :=
  [OpStartPreresolveHosts ["a"; "b"; "c"]; OpStartPreresolveHost (url_of "d");
   OpCallback 3 true; OpCallback 4 true; OpCallback 2 true; OpCallback 1 true].

(** Three ad-hoc resolves that take all of three slots. *)
Definition saturating_ops : list Op :=
  [OpStartPreresolveHosts ["p"; "q"; "r"]].

(** Two ad-hoc resolves take two of three slots; a group of two jobs gets
    one job in flight and one queued; the group is stopped; then every
    resolve succeeds, the group's in-flight job first. *)
Definition stop_then_drop_ops : list Op :=
  [OpStartPreresolveHosts ["p"; "q"];
   OpStart (url_of "x") [request_of "a" 1; request_of "b" 1];
   OpStop (url_of "x");
   OpCallback 3 true; OpCallback 1 true; OpCallback 2 true].

(** Three ad-hoc resolves take all of three slots; two more wait. *)
Definition two_queued_ops : list Op :=
  saturating_ops ++ [OpStartPreresolveHosts ["a"; "b"]].

(** One ad-hoc resolve takes one of three slots. *)
Definition one_inflight_ops : list Op :=
  [OpStartPreresolveHost (url_of "p")].

(** Three ad-hoc resolves take all of three slots; a group of one job and
    one more ad-hoc resolve wait; the group is stopped. *)
Definition mixed_queue_ops : list Op :=
  [OpStartPreresolveHosts ["p"; "q"; "r"];
   OpStart (url_of "x") [request_of "a" 1];
   OpStartPreresolveHost (url_of "d");
   OpStop (url_of "x")].

Lemma group_count_nil jobs h : group_count jobs h [] = 0.
Proof. reflexivity. Qed.

Lemma group_count_cons jobs h id l :
  group_count jobs h (id :: l) =
  (if decide (job_group jobs id = Some h) then 1 else 0) + group_count jobs h l.
Proof.
  unfold group_count. rewrite filter_cons.
  destruct (decide (job_group jobs id = Some h)); reflexivity.
Qed.

Lemma group_count_app jobs h l1 l2 :
  group_count jobs h (l1 ++ l2) = group_count jobs h l1 + group_count jobs h l2.
Proof. unfold group_count. by rewrite filter_app, length_app. Qed.

Lemma group_count_le jobs h l : group_count jobs h l ≤ length l.
Proof. apply length_filter. Qed.

Lemma group_count_ext jobs jobs' h l :
  (∀ id, id ∈ l → job_group jobs id = job_group jobs' id) →
  group_count jobs h l = group_count jobs' h l.
Proof.
  induction l as [|id l IH]; intros E; [done|].
  rewrite !group_count_cons, IH, (E id).
  - done.
  - left.
  - intros id' ?. apply E. by right.
Qed.

Lemma group_count_zero jobs h l :
  (∀ id, id ∈ l → job_group jobs id ≠ Some h) → group_count jobs h l = 0.
Proof.
  induction l as [|id l IH]; intros E; [done|].
  rewrite group_count_cons, IH.
  - destruct (decide _) as [e|]; [|done]. by apply E in e; [|left].
  - intros id' ?. apply E. by right.
Qed.

Lemma group_count_all jobs h l :
  (∀ id, id ∈ l → job_group jobs id = Some h) → group_count jobs h l = length l.
Proof.
  induction l as [|id l IH]; intros E; [done|].
  rewrite group_count_cons, IH, decide_True; simpl.
  - done.
  - apply E. left.
  - intros id' ?. apply E. by right.
Qed.

Lemma group_count_pos jobs h l id :
  id ∈ l → job_group jobs id = Some h → 0 < group_count jobs h l.
Proof.
  induction 1 as [|? ? ? ? IH]; intros E; rewrite group_count_cons.
  - rewrite decide_True by done. lia.
  - specialize (IH E). lia.
Qed.

(** Assigning [resolve_host_client] leaves every group pointer as it is. *)
Lemma job_group_client id client (m : gmap nat PreresolveJob.t) id' :
  job_group
    (alter (λ j, PreresolveJob.mk (PreresolveJob.url j)
                   (PreresolveJob.num_sockets j)
                   (PreresolveJob.allow_credentials j)
                   (PreresolveJob.info j) client) id m) id' =
  job_group m id'.
Proof.
  unfold job_group. rewrite lookup_alter.
  case_decide; [subst|done].
  by destruct (m !! id').
Qed.

Lemma job_group_delete_ne id (m : gmap nat PreresolveJob.t) id' :
  id ≠ id' → job_group (delete id m) id' = job_group m id'.
Proof. intros. unfold job_group. rewrite lookup_delete_ne; done. Qed.

Lemma job_group_delete id (m : gmap nat PreresolveJob.t) id' h :
  job_group (delete id m) id' = Some h → id ≠ id' ∧ job_group m id' = Some h.
Proof.
  unfold job_group. rewrite lookup_delete. case_decide; [done|]. done.
Qed.

Lemma job_group_insert_ne id j (m : gmap nat PreresolveJob.t) id' :
  id ≠ id' → job_group (<[id := j]> m) id' = job_group m id'.
Proof. intros. unfold job_group. rewrite lookup_insert_ne; done. Qed.

Lemma size_t_inc_small (n : nat) :
  (Z.of_nat n < kMaxInflightPreresolves)%Z →
  size_t_inc (Z.of_nat n) = Z.of_nat (S n).
Proof.
  intros. unfold size_t_inc. rewrite Z.mod_small; lia.
Qed.

Lemma size_t_dec_pos (x : Z) :
  (0 < x < size_t_modulus + 1)%Z → size_t_dec x = (x - 1)%Z.
Proof. intros. unfold size_t_dec. rewrite Z.mod_small; lia. Qed.

Lemma take_callback_Some id cbs b rest :
  take_callback id cbs = Some (b, rest) →
  ∃ l1 l2, cbs = l1 ++ (id, b) :: l2 ∧ rest = l1 ++ l2.
Proof.
  revert rest. induction cbs as [|[id' b'] cbs IH]; intros rest; simpl; [done|].
  destruct (decide (id' = id)) as [->|].
  - intros [= -> <-]. by exists [], cbs.
  - destruct (take_callback id cbs) as [[b0 r0]|]; simpl; [|done].
    intros [= -> <-]. destruct (IH _ eq_refl) as (l1 & l2 & -> & ->).
    by exists ((id', b') :: l1), l2.
Qed.

Lemma take_callback_None id cbs :
  take_callback id cbs = None → id ∉ cbs.*1.
Proof.
  induction cbs as [|[id' b'] cbs IH]; simpl; [intros _; apply not_elem_of_nil|].
  destruct (decide (id' = id)); [done|].
  destruct (take_callback id cbs) as [[? ?]|]; simpl; [done|].
  intros _. apply not_elem_of_cons. split; [done|by apply IH].
Qed.

(** [PreresolveUrl] in one piece: whether a client is returned, the calls
    made, and the callback that is now outstanding. *)
Lemma PreresolveUrl_eq url id s :
  PreresolveUrl url id s =
  (GetNetworkContext s,
   emit (Some id)
     ((if observer_ s then [OnPreresolveUrl url] else []) ++
      [if GetNetworkContext s then ResolveHost url else PostTask false])
     (set_callbacks
        (λ c, c ++ [(id, if GetNetworkContext s then None else Some false)])
        s)).
Proof.
  unfold PreresolveUrl, BrowserThread_PostTask, ResolveHostClientImpl_new.
  change (GetNetworkContext (emit _ _ s)) with (GetNetworkContext s).
  destruct (GetNetworkContext s); simpl; f_equal; unfold emit, set_callbacks;
    simpl; f_equal; by rewrite map_app, app_assoc.
Qed.

Lemma perm_admit {A} (x : A) (q l : list A) :
  q ++ l ++ [x] ≡ₚ (x :: q) ++ l.
Proof. simpl. rewrite (Permutation_cons_append (q ++ l) x). by rewrite app_assoc. Qed.

(** *** The invariant is kept by every transition *)

Lemma drop_Inv s id q job h i :
  Inv s →
  queued_jobs_ s = id :: q →
  IDMap.data_ (preresolve_jobs_ s) !! id = Some job →
  PreresolveJob.info job = Some h →
  preresolve_info_ s !! h = Some i →
  Inv (drop_state id q h i s).
Proof.
  intros I Hq Hjob Hinfo Hi.
  pose proof (inv_nodup _ I) as Hnd. rewrite Hq in Hnd. simpl in Hnd.
  apply NoDup_cons in Hnd as [Hid Hnd].
  pose proof (inv_dom _ I) as Hdom. rewrite Hq in Hdom.
  pose proof (inv_counts _ I) as Hcnt. rewrite Hq in Hcnt.
  assert (job_group (IDMap.data_ (preresolve_jobs_ s)) id = Some h) as Hg.
  { unfold job_group. rewrite Hjob. done. }
  split; simpl.
  - intros id' [_ ?]%lookup_delete_is_Some. by apply (inv_fresh _ I).
  - done.
  - intros id'. rewrite lookup_delete_is_Some, Hdom.
    split; [intros [? [->|?]%elem_of_cons]; done|].
    intros ?. split; [by intros ->|by right].
  - apply I.
  - apply I.
  - intros id' h' [? Hg']%job_group_delete.
    apply lookup_insert_is_Some'. right. by apply (inv_group _ I id').
  - intros h' i'. rewrite lookup_insert. case_decide as Hh.
    + intros [= <-]. subst h'. simpl. by apply (inv_key _ I).
    + by apply (inv_key _ I).
  - intros h' i'. rewrite lookup_insert.
    rewrite (group_count_ext (delete _ _) (IDMap.data_ (preresolve_jobs_ s)) h' q).
    2:{ intros id' ?. apply job_group_delete_ne. intros ->. apply Hid.
        apply elem_of_app. by left. }
    rewrite (group_count_ext (delete _ _) (IDMap.data_ (preresolve_jobs_ s)) h'
               (inflight_jobs s)).
    2:{ intros id' ?. apply job_group_delete_ne. intros ->. apply Hid.
        apply elem_of_app. by right. }
    case_decide as Hh.
    + intros [= <-]. subst h'. simpl.
      destruct (Hcnt _ _ Hi) as (Hqc & Hic & Hb).
      rewrite group_count_cons, decide_True in Hqc by done.
      rewrite size_t_dec_pos by lia. lia.
    + intros Hi'. destruct (Hcnt _ _ Hi') as (Hqc & Hic & Hb).
      rewrite group_count_cons, decide_False in Hqc by congruence.
      done.
Qed.

Lemma admit_Inv s id q job :
  Inv s →
  queued_jobs_ s = id :: q →
  IDMap.data_ (preresolve_jobs_ s) !! id = Some job →
  (inflight_preresolves_count_ s < kMaxInflightPreresolves)%Z →
  Inv (admit_state id q job s).
Proof.
  intros I Hq Hjob Hlt.
  pose proof (inv_nodup _ I) as Hnd. rewrite Hq in Hnd. simpl in Hnd.
  apply NoDup_cons in Hnd as [Hid Hnd].
  pose proof (inv_dom _ I) as Hdom. rewrite Hq in Hdom.
  pose proof (inv_counts _ I) as Hcnt. rewrite Hq in Hcnt.
  pose proof (inv_inflight _ I) as Hinf.
  assert (job_group (IDMap.data_ (preresolve_jobs_ s)) id =
          PreresolveJob.info job) as Hg.
  { unfold job_group. rewrite Hjob. done. }
  split; simpl.
  - intros id' ?%lookup_alter_is_Some. by apply (inv_fresh _ I).
  - rewrite fmap_app. simpl. by rewrite perm_admit; apply NoDup_cons.
  - intros id'. rewrite lookup_alter_is_Some, Hdom, fmap_app. simpl.
    by rewrite perm_admit.
  - rewrite length_app, Hinf, size_t_inc_small by lia. simpl. lia.
  - rewrite Hinf, size_t_inc_small by lia. lia.
  - intros id' h'. rewrite job_group_client. intros ?%(inv_group _ I).
    destruct (PreresolveJob.info job); [|done].
    by apply lookup_alter_is_Some.
  - intros h' i' Hi'.
    assert (∃ i, preresolve_info_ s !! h' = Some i ∧
                 PreresolveInfo.url i' = PreresolveInfo.url i ∧
                 PreresolveInfo.stats i' = PreresolveInfo.stats i)
      as (i & Hi & -> & ->).
    { destruct (PreresolveJob.info job) as [h|]; [|by exists i'].
      rewrite lookup_alter in Hi'. case_decide; [subst h'|by exists i'].
      destruct (preresolve_info_ s !! h) as [i|]; [|done].
      exists i. by injection Hi' as <-. }
    by apply (inv_key _ I).
  - intros h' i' Hi'. rewrite fmap_app. simpl.
    rewrite !(group_count_ext (alter _ _ _)
                (IDMap.data_ (preresolve_jobs_ s)) h')
      by (intros; apply job_group_client).
    rewrite group_count_app, group_count_cons, group_count_nil, Hg.
    pose proof (group_count_le (IDMap.data_ (preresolve_jobs_ s)) h'
                  (inflight_jobs s)) as Hle.
    rewrite length_fmap in Hle.
    destruct (PreresolveJob.info job) as [h|] eqn:Hinfo.
    + rewrite lookup_alter in Hi'. case_decide as Hh.
      * subst h'. destruct (preresolve_info_ s !! h) as [i|] eqn:Hi; [|done].
        injection Hi' as <-. simpl.
        destruct (Hcnt _ _ Hi) as (Hqc & Hic & Hb).
        rewrite group_count_cons, Hg, decide_True in Hqc by done.
        rewrite decide_True by done.
        rewrite size_t_dec_pos by lia. unfold size_t_inc.
        rewrite Z.mod_small by lia. lia.
      * destruct (Hcnt _ _ Hi') as (Hqc & Hic & Hb).
        rewrite group_count_cons, Hg, decide_False in Hqc by congruence.
        rewrite decide_False by congruence. split; [done|]. split; [lia|done].
    + destruct (Hcnt _ _ Hi') as (Hqc & Hic & Hb).
      rewrite group_count_cons, Hg, decide_False in Hqc by congruence.
      rewrite decide_False by congruence. split; [done|]. split; [lia|done].
Qed.

Lemma stop_Inv s h i :
  Inv s → preresolve_info_ s !! h = Some i →
  Inv (set_info (<[h := set_was_canceled i]>) s).
Proof.
  intros I Hi. split; simpl; try apply I.
  - intros id' h' ?%(inv_group _ I).
    apply lookup_insert_is_Some'. by right.
  - intros h' i'. rewrite lookup_insert. case_decide as Hh.
    + intros [= <-]. subst h'. simpl. by apply (inv_key _ I).
    + by apply (inv_key _ I).
  - intros h' i'. rewrite lookup_insert. case_decide as Hh.
    + intros [= <-]. subst h'. simpl. by apply (inv_counts _ I).
    + by apply (inv_counts _ I).
Qed.

Lemma Inv_next_fresh s :
  Inv s →
  IDMap.data_ (preresolve_jobs_ s) !! IDMap.next_id_ (preresolve_jobs_ s) = None ∧
  IDMap.next_id_ (preresolve_jobs_ s) ∉ queued_jobs_ s ++ inflight_jobs s.
Proof.
  intros I.
  assert (¬ is_Some (IDMap.data_ (preresolve_jobs_ s)
                       !! IDMap.next_id_ (preresolve_jobs_ s))) as Hn.
  { intros ?%(inv_fresh _ I). lia. }
  split.
  - by apply eq_None_not_Some.
  - by rewrite <- (inv_dom _ I).
Qed.

Lemma front_Inv s job :
  Inv s → PreresolveJob.info job = None → Inv (add_job true job s).
Proof.
  intros I Hinfo. destruct (Inv_next_fresh _ I) as [Hnone Hnotin].
  set (n := IDMap.next_id_ (preresolve_jobs_ s)) in *.
  assert (∀ h l, n ∉ l →
    group_count (<[n := job]> (IDMap.data_ (preresolve_jobs_ s))) h l =
    group_count (IDMap.data_ (preresolve_jobs_ s)) h l) as Hgc.
  { intros h l Hl. apply group_count_ext. intros id' ?.
    apply job_group_insert_ne. by intros <-. }
  split; simpl; fold n.
  - intros id' [<-|[_ ?%(inv_fresh _ I)]]%lookup_insert_is_Some; lia.
  - apply NoDup_cons. split; [done|apply I].
  - intros id'. rewrite lookup_insert_is_Some', elem_of_cons, (inv_dom _ I).
    split; (intros [?|?]; [by left|by right]).
  - apply I.
  - apply I.
  - intros id' h'. unfold job_group. rewrite lookup_insert.
    case_decide; simpl; [congruence|]. by apply (inv_group _ I).
  - apply I.
  - intros h' i' Hi'. rewrite group_count_cons.
    rewrite decide_False.
    2:{ unfold job_group. rewrite lookup_insert_eq. simpl. congruence. }
    rewrite !Hgc.
    + by apply (inv_counts _ I).
    + intros ?. apply Hnotin, elem_of_app. by right.
    + intros ?. apply Hnotin, elem_of_app. by left.
Qed.

(** The loop of [Start]: [length requests] jobs of the group, with
    consecutive fresh ids, at the back of the queue. *)
Lemma start_state_spec url requests s :
  let s0 := emit None [InfoEmplace (host url)]
              (set_info (<[host url := PreresolveInfo.new url
                                         (Z.of_nat (length requests))]>) s) in
  let s' := start_state url requests s in
  let n := IDMap.next_id_ (preresolve_jobs_ s) in
  let len := length requests in
  delegate_ s' = delegate_ s ∧ observer_ s' = observer_ s ∧
  network_context_ s' = network_context_ s ∧ profile_ s' = profile_ s ∧
  preresolve_info_ s' = preresolve_info_ s0 ∧
  inflight_preresolves_count_ s' = inflight_preresolves_count_ s ∧
  callbacks s' = callbacks s ∧
  IDMap.next_id_ (preresolve_jobs_ s') = n + len ∧
  queued_jobs_ s' = queued_jobs_ s ++ seq n len ∧
  trace s' = trace s0 ++ map (λ id, (Some id, JobsAdd)) (seq n len) ∧
  (∀ id, ¬ (n ≤ id < n + len) →
     IDMap.data_ (preresolve_jobs_ s') !! id =
     IDMap.data_ (preresolve_jobs_ s) !! id) ∧
  (∀ id, n ≤ id < n + len →
     ∃ job, IDMap.data_ (preresolve_jobs_ s') !! id = Some job ∧
            PreresolveJob.info job = Some (host url)).
Proof.
  unfold start_state.
  generalize (Z.of_nat (length requests)). intros c.
  induction requests as [|r requests IH] using rev_ind; simpl.
  - repeat split; try done; try by rewrite ?Nat.add_0_r, ?app_nil_r.
    intros; lia.
  - rewrite foldl_app. simpl. rewrite length_app. simpl.
    destruct IH as (? & ? & ? & ? & ? & ? & ? & Hn & Hq & Ht & Hold & Hnew).
    repeat split; simpl; try done.
    + rewrite Hn. lia.
    + rewrite Hq, Hn, seq_app, app_assoc. done.
    + rewrite Ht, Hn, seq_app, map_app, app_assoc. done.
    + intros id Hid. rewrite Hn, lookup_insert_ne by lia. apply Hold. lia.
    + intros id Hid. rewrite Hn.
      destruct (decide (id = IDMap.next_id_ (preresolve_jobs_ s) +
                             length requests)) as [->|].
      * rewrite lookup_insert_eq. by eexists.
      * rewrite lookup_insert_ne by lia. apply Hnew. lia.
Qed.

Lemma start_Inv s url requests :
  Inv s →
  preresolve_info_ s !! host url = None →
  (Z.of_nat (length requests) < size_t_modulus)%Z →
  Inv (start_state url requests s).
Proof.
  intros I Hnone Hfit.
  destruct (start_state_spec url requests s)
    as (_ & _ & _ & _ & Hi & Hc & Hcb & Hn & Hq & _ & Hold & Hnew).
  simpl in Hi.
  set (s' := start_state url requests s) in *.
  set (n := IDMap.next_id_ (preresolve_jobs_ s)) in *.
  set (len := length requests) in *.
  set (h := host url) in *.
  assert (∀ id, id ∈ queued_jobs_ s ++ inflight_jobs s → id < n) as Hlt.
  { intros id ?%(inv_dom _ I). by apply (inv_fresh _ I). }
  assert (∀ id, id < n →
    job_group (IDMap.data_ (preresolve_jobs_ s')) id =
    job_group (IDMap.data_ (preresolve_jobs_ s)) id) as Hgold.
  { intros id ?. unfold job_group. rewrite Hold by lia. done. }
  assert (∀ id, n ≤ id < n + len →
    job_group (IDMap.data_ (preresolve_jobs_ s')) id = Some h) as Hgnew.
  { intros id (job & Hj & Hinfo)%Hnew. unfold job_group. by rewrite Hj. }
  assert (∀ id, job_group (IDMap.data_ (preresolve_jobs_ s)) id ≠ Some h)
    as Hnoh.
  { intros id [i Hi']%(inv_group _ I). congruence. }
  assert (∀ h' l, (∀ id, id ∈ l → id < n) →
    group_count (IDMap.data_ (preresolve_jobs_ s')) h' l =
    group_count (IDMap.data_ (preresolve_jobs_ s)) h' l) as Hgc.
  { intros h' l Hl. apply group_count_ext. intros id ?%Hl. by apply Hgold. }
  split.
  - intros id Hs. destruct (decide (n ≤ id < n + len)); [lia|].
    rewrite Hold in Hs by done. apply (inv_fresh _ I) in Hs. fold n in Hs. lia.
  - rewrite Hq, Hcb, <- app_assoc, (Permutation_app_comm (seq n len)),
      app_assoc.
    apply NoDup_app. split; [apply I|]. split; [|apply NoDup_seq].
    intros id ?%Hlt ?%elem_of_seq. lia.
  - intros id. rewrite Hq, Hcb, <- app_assoc,
      (Permutation_app_comm (seq n len)), app_assoc, elem_of_app, elem_of_seq.
    destruct (decide (n ≤ id < n + len)) as [Hid|Hid].
    + split; [by right|]. intros _. destruct (Hnew id Hid) as (? & -> & _).
      by eexists.
    + rewrite Hold, (inv_dom _ I) by done. split; [by left|].
      by intros [?|?].
  - rewrite Hc, Hcb. apply I.
  - rewrite Hc. apply I.
  - intros id h' Hg. rewrite Hi. apply lookup_insert_is_Some'.
    destruct (decide (n ≤ id < n + len)) as [Hid|Hid].
    + left. rewrite Hgnew in Hg by done. congruence.
    + right. apply (inv_group _ I id). unfold job_group in *.
      by rewrite <- Hold.
  - intros h' i'. rewrite Hi, lookup_insert. case_decide as Hh.
    + intros [= <-]. done.
    + by apply (inv_key _ I).
  - intros h' i'. rewrite Hi, Hq, Hcb, lookup_insert, group_count_app.
    rewrite (Hgc h' (queued_jobs_ s)), (Hgc h' (inflight_jobs s)).
    2,3: intros id ?; apply Hlt, elem_of_app; auto.
    case_decide as Hh.
    + intros [= <-]. subst h'. simpl.
      rewrite (group_count_zero _ _ (queued_jobs_ s)),
        (group_count_zero _ _ (inflight_jobs s)) by (intros; apply Hnoh).
      rewrite group_count_all, length_seq.
      * done.
      * intros id ?%elem_of_seq. by apply Hgnew.
    + intros Hi'. rewrite (group_count_zero _ _ (seq n len)).
      * rewrite Nat.add_0_r. by apply (inv_counts _ I).
      * intros id ?%elem_of_seq. rewrite Hgnew by done. congruence.
Qed.

Lemma perm_finish (id : nat) b (q : list nat) (l1 l2 : list (nat * option bool)) :
  q ++ (l1 ++ (id, b) :: l2).*1 ≡ₚ id :: q ++ (l1 ++ l2).*1.
Proof.
  rewrite !fmap_app. simpl.
  by rewrite <- Permutation_middle, (app_assoc q), <- Permutation_middle,
    <- app_assoc.
Qed.

Lemma group_count_finish jobs h id b (l1 l2 : list (nat * option bool)) :
  group_count jobs h (l1 ++ (id, b) :: l2).*1 =
  (if decide (job_group jobs id = Some h) then 1 else 0) +
  group_count jobs h (l1 ++ l2).*1.
Proof.
  rewrite !fmap_app, fmap_cons. cbn [fst].
  rewrite !group_count_app, group_count_cons. lia.
Qed.

Lemma finish_adhoc_Inv s id b l1 l2 job success :
  Inv s →
  callbacks s = l1 ++ (id, b) :: l2 →
  IDMap.data_ (preresolve_jobs_ s) !! id = Some job →
  PreresolveJob.info job = None →
  Inv (finish_adhoc_state id (l1 ++ l2) job success s).
Proof.
  intros I Hcb Hjob Hinfo.
  pose proof (inv_nodup _ I) as Hnd. rewrite Hcb, perm_finish in Hnd.
  apply NoDup_cons in Hnd as [Hid Hnd].
  pose proof (inv_dom _ I) as Hdom.
  pose proof (inv_counts _ I) as Hcnt.
  pose proof (inv_inflight _ I) as Hinf.
  pose proof (inv_cap _ I) as Hcap.
  rewrite Hcb in Hdom, Hcnt, Hinf.
  rewrite length_app in Hinf. simpl in Hinf.
  assert (job_group (IDMap.data_ (preresolve_jobs_ s)) id = None) as Hg.
  { unfold job_group. rewrite Hjob. done. }
  assert (∀ h l, id ∉ l →
    group_count (delete id (IDMap.data_ (preresolve_jobs_ s))) h l =
    group_count (IDMap.data_ (preresolve_jobs_ s)) h l) as Hgc.
  { intros h l Hl. apply group_count_ext. intros id' ?.
    apply job_group_delete_ne. by intros <-. }
  split; simpl.
  - intros id' [_ ?]%lookup_delete_is_Some. by apply (inv_fresh _ I).
  - done.
  - intros id'. rewrite lookup_delete_is_Some, Hdom, perm_finish, elem_of_cons.
    split; [intros [? [->|?]]; done|].
    intros ?. split; [by intros ->|by right].
  - rewrite Hinf, size_t_dec_pos, length_app by lia. lia.
  - rewrite Hinf, size_t_dec_pos by lia. lia.
  - intros id' h' [? Hg']%job_group_delete. by apply (inv_group _ I id').
  - apply I.
  - intros h' i' Hi'. destruct (Hcnt _ _ Hi') as (Hqc & Hic & Hb).
    rewrite group_count_finish, Hg, decide_False in Hic by done.
    rewrite !Hgc; [done| |].
    + intros ?. apply Hid, elem_of_app. by right.
    + intros ?. apply Hid, elem_of_app. by left.
Qed.

Lemma finish_group_Inv s id b l1 l2 job h i success :
  Inv s →
  callbacks s = l1 ++ (id, b) :: l2 →
  IDMap.data_ (preresolve_jobs_ s) !! id = Some job →
  PreresolveJob.info job = Some h →
  preresolve_info_ s !! h = Some i →
  Inv (finish_group_state id (l1 ++ l2) job h i success s).
Proof.
  intros I Hcb Hjob Hinfo Hi.
  pose proof (inv_nodup _ I) as Hnd. rewrite Hcb, perm_finish in Hnd.
  apply NoDup_cons in Hnd as [Hid Hnd].
  pose proof (inv_dom _ I) as Hdom.
  pose proof (inv_counts _ I) as Hcnt.
  pose proof (inv_inflight _ I) as Hinf.
  pose proof (inv_cap _ I) as Hcap.
  rewrite Hcb in Hdom, Hcnt, Hinf.
  rewrite length_app in Hinf. simpl in Hinf.
  assert (job_group (IDMap.data_ (preresolve_jobs_ s)) id = Some h) as Hg.
  { unfold job_group. rewrite Hjob. done. }
  assert (∀ h l, id ∉ l →
    group_count (delete id (IDMap.data_ (preresolve_jobs_ s))) h l =
    group_count (IDMap.data_ (preresolve_jobs_ s)) h l) as Hgc.
  { intros h0 l Hl. apply group_count_ext. intros id' ?.
    apply job_group_delete_ne. by intros <-. }
  assert (id ∉ queued_jobs_ s) as Hidq.
  { intros ?. apply Hid, elem_of_app. by left. }
  assert (id ∉ (l1 ++ l2).*1) as Hidr.
  { intros ?. apply Hid, elem_of_app. by right. }
  destruct (Hcnt _ _ Hi) as (Hqc & Hic & Hb).
  rewrite group_count_finish, Hg, decide_True in Hic by done.
  pose proof (group_count_le (IDMap.data_ (preresolve_jobs_ s)) h
                (l1 ++ l2).*1) as Hle.
  rewrite length_fmap, length_app in Hle.
  set (i' := finish_info job i success).
  assert (PreresolveInfo.url i' = PreresolveInfo.url i ∧
          PreconnectStats.url (PreresolveInfo.stats i') =
            PreconnectStats.url (PreresolveInfo.stats i) ∧
          PreresolveInfo.queued_count i' = PreresolveInfo.queued_count i ∧
          PreresolveInfo.inflight_count i' =
            (PreresolveInfo.inflight_count i - 1)%Z) as (Hu & Hsu & Hq' & Hi').
  { unfold i', finish_info. destruct success; simpl;
      rewrite size_t_dec_pos by lia; done. }
  unfold finish_group_state. fold i'.
  split; simpl.
  - intros id' [_ ?]%lookup_delete_is_Some. by apply (inv_fresh _ I).
  - done.
  - intros id'. rewrite lookup_delete_is_Some, Hdom, perm_finish, elem_of_cons.
    split; [intros [? [->|?]]; done|].
    intros ?. split; [by intros ->|by right].
  - rewrite Hinf, size_t_dec_pos, length_app by lia. lia.
  - rewrite Hinf, size_t_dec_pos by lia. lia.
  - intros id' h' [Hne Hg']%job_group_delete.
    pose proof (inv_group _ I _ _ Hg') as Hs.
    destruct (PreresolveInfo.is_done i') eqn:Hdone.
    + apply lookup_delete_is_Some. split; [|done]. intros <-.
      apply andb_prop in Hdone as [Hd1%bool_decide_eq_true Hd2%bool_decide_eq_true].
      assert (id' ∈ queued_jobs_ s ++ (l1 ++ l2).*1) as Hin.
      { assert (is_Some (IDMap.data_ (preresolve_jobs_ s) !! id')) as Hs'.
        { unfold job_group in Hg'.
          destruct (IDMap.data_ (preresolve_jobs_ s) !! id'); [by eexists|done]. }
        apply Hdom in Hs'. rewrite perm_finish in Hs'.
        apply elem_of_cons in Hs' as [?|?]; [congruence|done]. }
      apply elem_of_app in Hin as [Hin|Hin].
      * pose proof (group_count_pos _ _ _ _ Hin Hg'). lia.
      * pose proof (group_count_pos _ _ _ _ Hin Hg'). lia.
    + apply lookup_insert_is_Some'. by right.
  - intros h' i0.
    destruct (PreresolveInfo.is_done i').
    + rewrite lookup_delete. case_decide; [done|]. by apply (inv_key _ I).
    + rewrite lookup_insert. case_decide as Hh.
      * intros [= <-]. subst h'. rewrite Hu, Hsu. by apply (inv_key _ I).
      * by apply (inv_key _ I).
  - intros h' i0 Hi0. rewrite !Hgc by done.
    assert (h ≠ h' → preresolve_info_ s !! h' = Some i0 →
      PreresolveInfo.queued_count i0 =
        Z.of_nat (group_count (IDMap.data_ (preresolve_jobs_ s)) h'
                    (queued_jobs_ s)) ∧
      PreresolveInfo.inflight_count i0 =
        Z.of_nat (group_count (IDMap.data_ (preresolve_jobs_ s)) h'
                    (l1 ++ l2).*1) ∧
      (PreresolveInfo.queued_count i0 < size_t_modulus)%Z) as Hother.
    { intros Hh Hi0'. destruct (Hcnt _ _ Hi0') as (Hqc0 & Hic0 & Hb0).
      rewrite group_count_finish, Hg, decide_False in Hic0 by congruence.
      done. }
    destruct (PreresolveInfo.is_done i').
    + rewrite lookup_delete in Hi0. case_decide; [done|]. by apply Hother.
    + rewrite lookup_insert in Hi0. case_decide as Hh; [|by apply Hother].
      injection Hi0 as <-. subst h'. rewrite Hq', Hi'. lia.
Qed.

Lemma mstep_Inv s s' : Inv s → mstep s s' → Inv s'.
Proof.
  intros I Hm. revert I. destruct Hm; intros I.
  - by apply start_Inv.
  - by apply front_Inv.
  - by apply stop_Inv.
  - eapply drop_Inv; eassumption.
  - by apply admit_Inv.
  - eapply finish_adhoc_Inv; eassumption.
  - eapply finish_group_Inv; eassumption.
Qed.

Lemma rtc_mstep_Inv s s' : Inv s → rtc mstep s s' → Inv s'.
Proof. induction 2; eauto using mstep_Inv. Qed.

(** *** The methods are sequences of transitions *)

Lemma state_ext (s1 s2 : State) :
  delegate_ s1 = delegate_ s2 → observer_ s1 = observer_ s2 →
  network_context_ s1 = network_context_ s2 → profile_ s1 = profile_ s2 →
  preresolve_info_ s1 = preresolve_info_ s2 →
  preresolve_jobs_ s1 = preresolve_jobs_ s2 →
  queued_jobs_ s1 = queued_jobs_ s2 →
  inflight_preresolves_count_ s1 = inflight_preresolves_count_ s2 →
  callbacks s1 = callbacks s2 → trace s1 = trace s2 → s1 = s2.
Proof. destruct s1, s2; simpl; congruence. Qed.

Ltac state_simpl :=
  cbn [delegate_ observer_ network_context_ profile_ preresolve_info_
       preresolve_jobs_ queued_jobs_ inflight_preresolves_count_ callbacks
       trace emit set_info set_jobs set_queue set_inflight set_callbacks].

Ltac state_fields :=
  apply state_ext; state_simpl;
  unfold PreconnectUrl, GetNetworkContext; state_simpl;
  rewrite ?insert_insert_eq, ?delete_insert_eq, ?map_app, <- ?app_assoc,
    ?app_nil_r;
  reflexivity.

Ltac state_eq := f_equal; state_fields.

Lemma insert_insert_alter {A} (f g : A → A) (m : gmap string A) h i :
  m !! h = Some i → <[h := g (f i)]> (<[h := f i]> m) = alter (λ x, g (f x)) h m.
Proof.
  intros Hi. rewrite insert_insert_eq. apply map_eq. intros h'.
  rewrite lookup_insert, lookup_alter. case_decide; [|done]. by rewrite Hi.
Qed.

Lemma TryToLaunch_iteration_mstep s id q :
  Inv s → queued_jobs_ s = id :: q →
  (inflight_preresolves_count_ s < kMaxInflightPreresolves)%Z →
  ∃ s', TryToLaunch_iteration id (set_queue (λ _, q) s) = Some s' ∧
        mstep s s' ∧ queued_jobs_ s' = q.
Proof.
  intros I Hq Hlt.
  assert (is_Some (IDMap.data_ (preresolve_jobs_ s) !! id)) as [job Hjob].
  { apply (inv_dom _ I). rewrite Hq. left. }
  unfold TryToLaunch_iteration, IDMap.Lookup. simpl. rewrite Hjob. simpl.
  destruct (PreresolveJob.info job) as [h|] eqn:Hinfo.
  - assert (job_group (IDMap.data_ (preresolve_jobs_ s)) id = Some h) as Hg.
    { unfold job_group. rewrite Hjob. done. }
    destruct (inv_group _ I _ _ Hg) as [i Hi]. rewrite Hi. simpl.
    destruct (PreresolveInfo.was_canceled i) eqn:Hc; simpl.
    + unfold if_info, info_update. simpl. rewrite Hi. simpl.
      eexists; split; [reflexivity|]. split; [|reflexivity].
      by apply (ms_drop s id q job h i).
    + rewrite PreresolveUrl_eq. simpl.
      unfold if_info, info_update. simpl. rewrite Hi. simpl.
      rewrite lookup_insert_eq. simpl.
      eexists; split; [reflexivity|]. split; [|reflexivity].
      unfold set_info at 1 2. simpl.
      rewrite (insert_insert_alter inc_inflight_count dec_queued_count) by done.
      pose proof (ms_admit s id q job Hq Hjob Hlt) as Hm.
      unfold admit_state in Hm. rewrite Hinfo in Hm. apply Hm.
      intros h' [= <-]. by exists i.
  - simpl. rewrite PreresolveUrl_eq. simpl.
    eexists; split; [reflexivity|]. split; [|reflexivity].
    pose proof (ms_admit s id q job Hq Hjob Hlt) as Hm.
    unfold admit_state in Hm. rewrite Hinfo in Hm. apply Hm.
    intros h' [=].
Qed.

Lemma TryToLaunch_loop_msteps q s :
  Inv s → queued_jobs_ s = q →
  ∃ s', TryToLaunch_loop q s = Some s' ∧ rtc mstep s s'.
Proof.
  revert s. induction q as [|id q IH]; intros s I Hq; simpl.
  - by exists s.
  - destruct (inflight_preresolves_count_ s <? kMaxInflightPreresolves)%Z
      eqn:Hlt; [|by exists s].
    apply Z.ltb_lt in Hlt.
    destruct (TryToLaunch_iteration_mstep s id q I Hq Hlt)
      as (s1 & -> & Hm & Hq1).
    simpl. destruct (IH s1 (mstep_Inv _ _ I Hm) Hq1) as (s' & -> & Hr).
    exists s'. split; [done|]. by eapply rtc_l.
Qed.

Lemma TryToLaunchPreresolveJobs_msteps s :
  Inv s → ∃ s', TryToLaunchPreresolveJobs s = Some s' ∧ rtc mstep s s'.
Proof. intros I. by apply TryToLaunch_loop_msteps. Qed.

(** [Some x ≫= f] is [f x]. *)
Ltac obind :=
  cbv beta iota;
  repeat match goal with
  | |- context [mbind ?f (Some ?x)] =>
      change (mbind f (Some x)) with (f x); cbv beta iota
  | |- context [fmap ?f (Some ?x)] =>
      change (fmap f (Some x)) with (Some (f x)); cbv beta iota
  end.

Lemma FinishPreresolve_adhoc s id job found cached :
  IDMap.data_ (preresolve_jobs_ s) !! id = Some job →
  PreresolveJob.info job = None →
  FinishPreresolve id found cached s =
  Some (emit (Some id) [JobsRemove]
          (set_jobs (IDMap.Remove id)
             (emit (Some id)
                (if found && PreresolveJob.need_preconnect job
                 then PreconnectUrl s (PreresolveJob.url job) GURL_empty
                        (PreresolveJob.num_sockets job)
                        (PreresolveJob.allow_credentials job)
                 else []) s))).
Proof.
  intros Hjob Hinfo. unfold FinishPreresolve, IDMap.Lookup.
  rewrite Hjob. obind. rewrite Hinfo.
  destruct (found && PreresolveJob.need_preconnect job); obind; state_eq.
Qed.

Lemma FinishPreresolve_group s id job h i found cached :
  IDMap.data_ (preresolve_jobs_ s) !! id = Some job →
  PreresolveJob.info job = Some h →
  preresolve_info_ s !! h = Some i →
  let need := found && PreresolveJob.need_preconnect job &&
              negb (PreresolveInfo.was_canceled i) in
  let r := PreconnectedRequestStats.mk (PreresolveJob.url job) cached need in
  FinishPreresolve id found cached s =
  Some (emit (Some id)
          ((if need
            then PreconnectUrl s (PreresolveJob.url job) (PreresolveInfo.url i)
                   (PreresolveJob.num_sockets job)
                   (PreresolveJob.allow_credentials job)
            else []) ++
           (if found then [StatsEmplaceBack h r] else []) ++ [JobsRemove])
          (set_info (if found then <[h := stats_emplace_back r i]> else λ m, m)
             (set_jobs (IDMap.Remove id) s))).
Proof.
  intros Hjob Hinfo Hi. unfold FinishPreresolve, IDMap.Lookup.
  rewrite Hjob. obind. rewrite Hinfo.
  destruct found, (PreresolveJob.need_preconnect job); cbn [andb];
    rewrite ?Hi; obind.
  - destruct (PreresolveInfo.was_canceled i); cbn [negb]; rewrite ?Hi; obind;
      unfold info_update; state_simpl; rewrite Hi; obind; state_eq.
  - unfold info_update; state_simpl; rewrite Hi; obind. state_eq.
  - state_eq.
  - state_eq.
Qed.

Lemma OnPreresolveFinished_adhoc s id rest job success :
  IDMap.data_ (preresolve_jobs_ s) !! id = Some job →
  PreresolveJob.info job = None →
  OnPreresolveFinished id success (set_callbacks (λ _, rest) s) =
  TryToLaunchPreresolveJobs (finish_adhoc_state id rest job success s).
Proof.
  intros Hjob Hinfo.
  unfold OnPreresolveFinished, IDMap.Lookup. state_simpl.
  rewrite Hjob. obind. rewrite Hinfo.
  rewrite (FinishPreresolve_adhoc _ id job) by (state_simpl; done).
  obind. unfold if_info. obind.
  unfold finish_adhoc_state. state_eq.
Qed.

Lemma OnPreresolveFinished_group s id rest job h i success :
  IDMap.data_ (preresolve_jobs_ s) !! id = Some job →
  PreresolveJob.info job = Some h →
  preresolve_info_ s !! h = Some i →
  host (PreresolveInfo.url i) = h →
  OnPreresolveFinished id success (set_callbacks (λ _, rest) s) =
  TryToLaunchPreresolveJobs (finish_group_state id rest job h i success s).
Proof.
  intros Hjob Hinfo Hi Hkey.
  unfold OnPreresolveFinished, IDMap.Lookup. state_simpl.
  rewrite Hjob. obind. rewrite Hinfo.
  rewrite (FinishPreresolve_group _ id job h i) by (state_simpl; done).
  obind. unfold if_info, info_update. state_simpl.
  fold (finish_need job i success). fold (finish_record job i success).
  assert ((if success
           then <[h := stats_emplace_back (finish_record job i success) i]>
           else λ m, m) (preresolve_info_ s) !! h =
          Some (if success
                then stats_emplace_back (finish_record job i success) i
                else i)) as ->.
  { destruct success; [apply lookup_insert_eq|done]. }
  obind. state_simpl. rewrite lookup_insert_eq. obind.
  fold (finish_info job i success).
  unfold finish_group_state.
  assert (host (PreresolveInfo.url (finish_info job i success)) = h) as Hkey'.
  { unfold finish_info. by destruct success. }
  destruct (PreresolveInfo.is_done (finish_info job i success)).
  - unfold AllPreresolvesForUrlFinished. state_simpl.
    rewrite lookup_insert_eq. obind. rewrite Hkey', lookup_insert_eq. obind.
    destruct (delegate_ s), success; obind; state_eq.
  - obind. destruct success; state_eq.
Qed.

Lemma Start_msteps s url requests :
  Inv s → (Z.of_nat (length requests) < size_t_modulus)%Z →
  ∃ s', Start url requests s = Some s' ∧ rtc mstep s s'.
Proof.
  intros I Hfit. unfold Start.
  destruct (decide (is_Some (preresolve_info_ s !! host url))) as [|Hn].
  - by exists s.
  - apply eq_None_not_Some in Hn.
    pose proof (ms_start s url requests Hn Hfit) as Hm.
    destruct (TryToLaunchPreresolveJobs_msteps _ (mstep_Inv _ _ I Hm))
      as (s' & Hs' & Hr).
    exists s'. split; [exact Hs'|]. by eapply rtc_l.
Qed.

Lemma add_front_msteps s job :
  Inv s → PreresolveJob.info job = None →
  ∃ s', TryToLaunchPreresolveJobs (add_job true job s) = Some s' ∧
        rtc mstep s s'.
Proof.
  intros I Hinfo. pose proof (ms_front s job Hinfo) as Hm.
  destruct (TryToLaunchPreresolveJobs_msteps _ (mstep_Inv _ _ I Hm))
    as (s' & Hs' & Hr).
  exists s'. split; [exact Hs'|]. by eapply rtc_l.
Qed.

Lemma StartPreresolveHost_msteps s url :
  Inv s → ∃ s', StartPreresolveHost url s = Some s' ∧ rtc mstep s s'.
Proof.
  intros I. unfold StartPreresolveHost.
  destruct (negb (SchemeIsHTTPOrHTTPS url)); [by exists s|].
  by apply add_front_msteps.
Qed.

Lemma StartPreconnectUrl_msteps s url allow_credentials :
  Inv s →
  ∃ s', StartPreconnectUrl url allow_credentials s = Some s' ∧ rtc mstep s s'.
Proof.
  intros I. unfold StartPreconnectUrl.
  destruct (negb (SchemeIsHTTPOrHTTPS url)); [by exists s|].
  by apply add_front_msteps.
Qed.

Lemma add_fronts_msteps (l : list string) s :
  rtc mstep s
    (foldl (λ s it,
        add_job true
          (PreresolveJob.new (GURL_http it) 0
             kAllowCredentialsOnPreconnectByDefault None) s) s l).
Proof.
  revert s. induction l as [|it l IH]; intros s; simpl; [done|].
  eapply rtc_l; [|apply IH]. by apply ms_front.
Qed.

Lemma StartPreresolveHosts_msteps s hostnames :
  Inv s → ∃ s', StartPreresolveHosts hostnames s = Some s' ∧ rtc mstep s s'.
Proof.
  intros I. unfold StartPreresolveHosts.
  pose proof (add_fronts_msteps (rev hostnames) s) as Hr.
  destruct (TryToLaunchPreresolveJobs_msteps _ (rtc_mstep_Inv _ _ I Hr))
    as (s' & Hs' & Hr').
  exists s'. split; [exact Hs'|]. by etrans.
Qed.

Lemma Stop_msteps s url :
  ∃ s', Stop url s = Some s' ∧ rtc mstep s s'.
Proof.
  unfold Stop. destruct (preresolve_info_ s !! host url) as [i|] eqn:Hi.
  - eexists; split; [done|]. by apply rtc_once, ms_stop.
  - by exists s.
Qed.

Lemma callback_msteps s id success :
  Inv s → ∃ s', step (OpCallback id success) s = Some s' ∧ rtc mstep s s'.
Proof.
  intros I. simpl.
  destruct (take_callback id (callbacks s)) as [[b rest]|] eqn:Ht;
    [|by exists s].
  apply take_callback_Some in Ht as (l1 & l2 & Hcb & ->).
  assert (is_Some (IDMap.data_ (preresolve_jobs_ s) !! id)) as [job Hjob].
  { apply (inv_dom _ I). rewrite Hcb, perm_finish. left. }
  destruct (PreresolveJob.info job) as [h|] eqn:Hinfo.
  - assert (job_group (IDMap.data_ (preresolve_jobs_ s)) id = Some h) as Hg.
    { unfold job_group. rewrite Hjob. done. }
    destruct (inv_group _ I _ _ Hg) as [i Hi].
    destruct (inv_key _ I _ _ Hi) as [Hkey _].
    rewrite (OnPreresolveFinished_group s id _ job h i) by done.
    pose proof (ms_finish_group s id b l1 l2 job h i success
                  Hcb Hjob Hinfo Hi) as Hm.
    destruct (TryToLaunchPreresolveJobs_msteps _ (mstep_Inv _ _ I Hm))
      as (s' & Hs' & Hr).
    exists s'. split; [exact Hs'|]. by eapply rtc_l.
  - rewrite (OnPreresolveFinished_adhoc s id _ job) by done.
    pose proof (ms_finish_adhoc s id b l1 l2 job success Hcb Hjob Hinfo) as Hm.
    destruct (TryToLaunchPreresolveJobs_msteps _ (mstep_Inv _ _ I Hm))
      as (s' & Hs' & Hr).
    exists s'. split; [exact Hs'|]. by eapply rtc_l.
Qed.

Lemma step_msteps op s :
  Inv s → wf_op op → ∃ s', step op s = Some s' ∧ rtc mstep s s'.
Proof.
  intros I Hwf. destruct op.
  - by apply Start_msteps.
  - by apply StartPreresolveHost_msteps.
  - by apply StartPreresolveHosts_msteps.
  - by apply StartPreconnectUrl_msteps.
  - apply Stop_msteps.
  - by apply callback_msteps.
Qed.

Lemma run_msteps ops s :
  Inv s → Forall wf_op ops → ∃ s', run ops s = Some s' ∧ rtc mstep s s'.
Proof.
  revert s. induction ops as [|op ops IH]; intros s I Hwf; simpl.
  - by exists s.
  - apply Forall_cons in Hwf as [Hop Hops].
    destruct (step_msteps op s I Hop) as (s1 & -> & Hr1). simpl.
    destruct (IH s1 (rtc_mstep_Inv _ _ I Hr1) Hops) as (s' & Hs' & Hr).
    exists s'. split; [done|]. by etrans.
Qed.

Lemma Inv_new delegate observer network_context profile :
  Inv (PreconnectManager_new delegate observer network_context profile).
Proof.
  split; simpl; try done.
  - by intros id [? ?].
  - apply NoDup_nil_2.
  - intros id. split; [by intros [? ?]|by intros ?%elem_of_nil].
  - lia.
Qed.

(** *** Every job has one life *)

Lemma tally_add_0_r x : tally_add x (mkTally 0 0 0 0 0) = x.
Proof. destruct x. unfold tally_add. simpl. f_equal; lia. Qed.

Lemma tally_add_0_l x : tally_add (mkTally 0 0 0 0 0) x = x.
Proof. by destruct x. Qed.

Lemma tally_add_assoc x y z :
  tally_add (tally_add x y) z = tally_add x (tally_add y z).
Proof. unfold tally_add. simpl. f_equal; lia. Qed.

Lemma tally_app id t1 t2 :
  tally id (t1 ++ t2) = tally_add (tally id t1) (tally id t2).
Proof.
  induction t1 as [|[j a] t1 IH]; simpl.
  - by rewrite tally_add_0_l.
  - by rewrite IH, tally_add_assoc.
Qed.

Lemma tally_tagged id j acts :
  tally id (map (pair (Some j)) acts) =
  if decide (j = id) then tally_acts acts else mkTally 0 0 0 0 0.
Proof.
  induction acts as [|a acts IH]; simpl.
  - by case_decide.
  - rewrite IH. destruct (decide (j = id)) as [->|].
    + by rewrite decide_True.
    + by rewrite decide_False by congruence.
Qed.

Lemma tally_seq id n len :
  tally id (map (λ id', (Some id', JobsAdd)) (seq n len)) =
  if decide (n ≤ id < n + len) then mkTally 1 0 0 0 0 else mkTally 0 0 0 0 0.
Proof.
  revert n. induction len as [|len IH]; intros n; simpl.
  - rewrite decide_False by lia. done.
  - rewrite IH. destruct (decide (n = id)) as [->|].
    + rewrite decide_True by done. rewrite decide_False by lia.
      rewrite decide_True by lia. done.
    + rewrite decide_False by congruence. rewrite tally_add_0_l.
      destruct (decide (S n ≤ id < S n + len)).
      * rewrite decide_True by lia. done.
      * rewrite decide_False by lia. done.
Qed.

Lemma tally_acts_app l1 l2 :
  tally_acts (l1 ++ l2) = tally_add (tally_acts l1) (tally_acts l2).
Proof.
  induction l1 as [|a l1 IH]; simpl.
  - by rewrite tally_add_0_l.
  - unfold tally_acts in *. simpl. by rewrite IH, tally_add_assoc.
Qed.

(** A job the transition does not act on stays where it is. *)
Lemma life_other s s' id :
  life s id →
  tally id (trace s') = tally id (trace s) →
  (id ∈ queued_jobs_ s → id ∈ queued_jobs_ s') →
  (id ∈ inflight_jobs s → id ∈ inflight_jobs s') →
  (IDMap.data_ (preresolve_jobs_ s) !! id = None →
   IDMap.data_ (preresolve_jobs_ s') !! id = None) →
  (IDMap.next_id_ (preresolve_jobs_ s') ≤ id →
   IDMap.next_id_ (preresolve_jobs_ s) ≤ id) →
  life s' id.
Proof.
  intros [(d & Hp & Ht) Hf] Htr Hq Hi Hd Hn. split.
  - exists d. rewrite Htr. split; [|done]. destruct d; simpl in *; auto.
  - intros ?. rewrite Htr. auto.
Qed.

Lemma life_queued s id :
  Inv s → id ∈ queued_jobs_ s → life s id →
  tally id (trace s) = tally_of InQueue.
Proof.
  intros I Hq [(d & Hp & Ht) _]. rewrite Ht.
  assert (is_Some (IDMap.data_ (preresolve_jobs_ s) !! id)) as [j Hj].
  { apply (inv_dom _ I), elem_of_app. by left. }
  destruct d; simpl in Hp; try congruence; try done.
  pose proof (inv_nodup _ I) as Hnd.
  apply NoDup_app in Hnd as (_ & Hnd & _). by apply Hnd in Hq.
Qed.

Lemma life_inflight s id :
  Inv s → id ∈ inflight_jobs s → life s id →
  tally id (trace s) = tally_of InFlight.
Proof.
  intros I Hi [(d & Hp & Ht) _]. rewrite Ht.
  assert (is_Some (IDMap.data_ (preresolve_jobs_ s) !! id)) as [j Hj].
  { apply (inv_dom _ I), elem_of_app. by right. }
  destruct d; simpl in Hp; try congruence; try done.
  pose proof (inv_nodup _ I) as Hnd.
  apply NoDup_app in Hnd as (_ & Hnd & _). by apply Hnd in Hp.
Qed.

(** A transition that acts on the single job [id]. *)
Lemma life_step s s' id acts d' :
  (∀ id', life s id') →
  trace s' = trace s ++ map (pair (Some id)) acts →
  (∀ id', id' ≠ id → id' ∈ queued_jobs_ s → id' ∈ queued_jobs_ s') →
  (∀ id', id' ≠ id → id' ∈ inflight_jobs s → id' ∈ inflight_jobs s') →
  (∀ id', id' ≠ id → IDMap.data_ (preresolve_jobs_ s) !! id' = None →
     IDMap.data_ (preresolve_jobs_ s') !! id' = None) →
  IDMap.next_id_ (preresolve_jobs_ s) ≤ IDMap.next_id_ (preresolve_jobs_ s') →
  id < IDMap.next_id_ (preresolve_jobs_ s') →
  placed s' id d' →
  tally_add (tally id (trace s)) (tally_acts acts) = tally_of d' →
  ∀ id', life s' id'.
Proof.
  intros L Ht Hq Hi Hd Hn Hlt Hp Hty id'.
  destruct (decide (id' = id)) as [->|Hne].
  - split.
    + exists d'. split; [done|].
      by rewrite Ht, tally_app, tally_tagged, decide_True.
    + lia.
  - apply (life_other s); auto.
    + by rewrite Ht, tally_app, tally_tagged, decide_False, tally_add_0_r.
    + lia.
Qed.

Lemma tally_PreconnectUrl s url site num_sockets allow_credentials :
  tally_acts (PreconnectUrl s url site num_sockets allow_credentials) =
  mkTally 0 0 0 (if GetNetworkContext s then 1 else 0) 0.
Proof.
  unfold PreconnectUrl.
  by destruct (observer_ s), (GetNetworkContext s), allow_credentials.
Qed.

Lemma tally_admit_acts job s : tally_acts (admit_acts job s) = mkTally 0 1 0 0 0.
Proof.
  unfold admit_acts. by destruct (observer_ s), (GetNetworkContext s).
Qed.

Lemma drop_life s id q job h i :
  Inv s → (∀ id', life s id') →
  queued_jobs_ s = id :: q →
  IDMap.data_ (preresolve_jobs_ s) !! id = Some job →
  ∀ id', life (drop_state id q h i s) id'.
Proof.
  intros I L Hq Hjob.
  apply (life_step s _ id [JobsRemove] Dropped); try done.
  - intros id' Hne. rewrite Hq. by intros [?|?]%elem_of_cons.
  - intros id' Hne. simpl. by rewrite lookup_delete_ne.
  - apply (inv_fresh _ I). by eexists.
  - simpl. apply lookup_delete_eq.
  - rewrite (life_queued s id I); [done| |done]. rewrite Hq. left.
Qed.

Lemma admit_life s id q job :
  Inv s → (∀ id', life s id') →
  queued_jobs_ s = id :: q →
  IDMap.data_ (preresolve_jobs_ s) !! id = Some job →
  ∀ id', life (admit_state id q job s) id'.
Proof.
  intros I L Hq Hjob.
  apply (life_step s _ id (admit_acts job s) InFlight); try done.
  - intros id' Hne. rewrite Hq. by intros [?|?]%elem_of_cons.
  - intros id' Hne. simpl. rewrite fmap_app, elem_of_app. by left.
  - intros id' Hne. simpl. by rewrite lookup_alter_ne.
  - apply (inv_fresh _ I). by eexists.
  - simpl. rewrite fmap_app, elem_of_app. right. simpl. left.
  - rewrite (life_queued s id I), tally_admit_acts; [done| |done].
    rewrite Hq. left.
Qed.

Lemma front_life s job :
  Inv s → (∀ id', life s id') →
  ∀ id', life (add_job true job s) id'.
Proof.
  intros I L. destruct (Inv_next_fresh _ I) as [Hnone Hnotin].
  apply (life_step s _ (IDMap.next_id_ (preresolve_jobs_ s)) [JobsAdd]
           InQueue); try done.
  - intros id' Hne ?. simpl. by right.
  - intros id' Hne. simpl. by rewrite lookup_insert_ne.
  - simpl. lia.
  - simpl. lia.
  - simpl. left.
  - destruct (L (IDMap.next_id_ (preresolve_jobs_ s))) as [_ ->]; done.
Qed.

Lemma elem_of_rest (id id' : nat) b (l1 l2 : list (nat * option bool)) :
  id' ≠ id → id' ∈ (l1 ++ (id, b) :: l2).*1 → id' ∈ (l1 ++ l2).*1.
Proof.
  intros Hne. rewrite !fmap_app, fmap_cons, !elem_of_app, elem_of_cons.
  cbn [fst]. intros [?|[?|?]]; auto. done.
Qed.

Lemma finish_adhoc_life s id b l1 l2 job success :
  Inv s → (∀ id', life s id') →
  callbacks s = l1 ++ (id, b) :: l2 →
  IDMap.data_ (preresolve_jobs_ s) !! id = Some job →
  ∀ id', life (finish_adhoc_state id (l1 ++ l2) job success s) id'.
Proof.
  intros I L Hcb Hjob.
  assert (id ∈ inflight_jobs s) as Hin.
  { rewrite Hcb, fmap_app, fmap_cons, elem_of_app, elem_of_cons. auto. }
  eapply (life_step s _ id _
            (Completed (success && PreresolveJob.need_preconnect job &&
                        GetNetworkContext s) false)); try done.
  - intros id' Hne. rewrite Hcb. by apply elem_of_rest.
  - intros id' Hne. simpl. by rewrite lookup_delete_ne.
  - apply (inv_fresh _ I). by eexists.
  - simpl. apply lookup_delete_eq.
  - rewrite (life_inflight s id I), !tally_acts_app by done.
    destruct (success && PreresolveJob.need_preconnect job);
      rewrite ?tally_PreconnectUrl;
      by destruct (observer_ s), (GetNetworkContext s).
Qed.

Lemma finish_group_life s id b l1 l2 job h i success :
  Inv s → (∀ id', life s id') →
  callbacks s = l1 ++ (id, b) :: l2 →
  IDMap.data_ (preresolve_jobs_ s) !! id = Some job →
  ∀ id', life (finish_group_state id (l1 ++ l2) job h i success s) id'.
Proof.
  intros I L Hcb Hjob.
  assert (id ∈ inflight_jobs s) as Hin.
  { rewrite Hcb, fmap_app, fmap_cons, elem_of_app, elem_of_cons. auto. }
  eapply (life_step s _ id _
            (Completed (finish_need job i success && GetNetworkContext s)
               success)); try done.
  - intros id' Hne. rewrite Hcb. by apply elem_of_rest.
  - intros id' Hne. simpl. by rewrite lookup_delete_ne.
  - apply (inv_fresh _ I). by eexists.
  - simpl. apply lookup_delete_eq.
  - rewrite (life_inflight s id I), !tally_acts_app by done.
    destruct (finish_need job i success); rewrite ?tally_PreconnectUrl;
      by destruct (observer_ s), (GetNetworkContext s), success,
        (PreresolveInfo.is_done _), (delegate_ s).
Qed.

Lemma start_life s url requests :
  Inv s → (∀ id', life s id') →
  ∀ id', life (start_state url requests s) id'.
Proof.
  intros I L id.
  destruct (start_state_spec url requests s)
    as (_ & _ & _ & _ & _ & _ & Hcb & Hn & Hq & Ht & Hold & Hnew).
  simpl in Ht.
  set (s' := start_state url requests s) in *.
  set (n := IDMap.next_id_ (preresolve_jobs_ s)) in *.
  set (len := length requests) in *.
  assert (tally id (trace s') =
          tally_add (tally id (trace s))
            (if decide (n ≤ id < n + len) then mkTally 1 0 0 0 0
             else mkTally 0 0 0 0 0)) as Hty.
  { rewrite Ht, !tally_app, tally_seq. simpl. by rewrite tally_add_0_r. }
  destruct (decide (n ≤ id < n + len)) as [Hid|Hid].
  - split.
    + exists InQueue. split.
      * simpl. rewrite Hq, elem_of_app, elem_of_seq. by right.
      * rewrite Hty. destruct (L id) as [_ ->]; [done|]. lia.
    + rewrite Hn. lia.
  - apply (life_other s); auto.
    + by rewrite Hty, tally_add_0_r.
    + rewrite Hq, elem_of_app. by left.
    + by rewrite Hcb.
    + by rewrite Hold.
    + rewrite Hn. lia.
Qed.

Lemma mstep_life s s' :
  Inv s → (∀ id, life s id) → mstep s s' → ∀ id, life s' id.
Proof.
  intros I L Hm. revert I L. destruct Hm; intros I L.
  - by apply start_life.
  - by apply front_life.
  - intros id. by apply (life_other s).
  - eapply drop_life; eassumption.
  - eapply admit_life; eassumption.
  - eapply finish_adhoc_life; eassumption.
  - eapply finish_group_life; eassumption.
Qed.

Lemma rtc_mstep_life s s' :
  Inv s → (∀ id, life s id) → rtc mstep s s' → ∀ id, life s' id.
Proof.
  intros I L Hr. revert I L.
  induction Hr as [|s s1 s' Hm Hr IH]; intros I L; [done|].
  apply IH; [by eapply mstep_Inv|by eapply mstep_life].
Qed.

Lemma life_new delegate observer network_context profile id :
  life (PreconnectManager_new delegate observer network_context profile) id.
Proof. split; [|done]. by exists NotCreated. Qed.

(** *** A cancelled group stays cancelled *)

Lemma quiet_app id l1 l2 : quiet id l1 → quiet id l2 → quiet id (l1 ++ l2).
Proof. intros. by apply Forall_app. Qed.

Lemma quiet_tagged id j acts :
  (j = Some id → Forall (λ a, is_preconnect a = false) acts) →
  quiet id (map (pair j) acts).
Proof.
  intros H. unfold quiet. apply Forall_forall.
  intros [j' a] [a' [[= -> ->] Hin]]%list_elem_of_fmap. simpl. intros Hj.
  specialize (H Hj). by eapply Forall_forall in H.
Qed.

Lemma quiet_adds id n len :
  quiet id (map (λ id', (Some id', JobsAdd)) (seq n len)).
Proof.
  unfold quiet. apply Forall_forall.
  by intros [j' a] [a' [[= -> ->] Hin]]%list_elem_of_fmap.
Qed.

(** What a transition has to do to keep the watch. *)
Lemma Watch_step W h t0 s s' evs :
  Watch W h t0 s →
  trace s' = trace s ++ evs →
  (∀ id, W id → quiet id evs) →
  IDMap.next_id_ (preresolve_jobs_ s) ≤ IDMap.next_id_ (preresolve_jobs_ s') →
  (∀ id job', id < IDMap.next_id_ (preresolve_jobs_ s) →
     IDMap.data_ (preresolve_jobs_ s') !! id = Some job' →
     ∃ job, IDMap.data_ (preresolve_jobs_ s) !! id = Some job ∧
            PreresolveJob.info job' = PreresolveJob.info job) →
  (∀ i, preresolve_info_ s !! h = Some i →
     PreresolveInfo.was_canceled i = true →
     (∃ i', preresolve_info_ s' !! h = Some i' ∧
            PreresolveInfo.was_canceled i' = true) ∨
     (∀ id, job_group (IDMap.data_ (preresolve_jobs_ s')) id ≠ Some h)) →
  Watch W h t0 s'.
Proof.
  intros (Hlt & Hc & evs0 & Ht0 & Hq) Ht Hev Hn Hjobs Hinfo.
  split; [|split].
  - intros id ?%Hlt. lia.
  - intros id job' Hw Hj'.
    destruct (Hjobs id job' (Hlt _ Hw) Hj') as (job & Hj & Hi).
    destruct (Hc id job Hw Hj) as (Hg & i & Hi' & Hcan).
    rewrite Hi. split; [done|].
    destruct (Hinfo i Hi' Hcan) as [?|Hno]; [done|].
    exfalso. apply (Hno id). unfold job_group. rewrite Hj'. simpl. congruence.
  - exists (evs0 ++ evs). split.
    + by rewrite Ht, Ht0, app_assoc.
    + intros id Hw. apply quiet_app; auto.
Qed.

Ltac step_simpl :=
  cbn [delegate_ observer_ network_context_ profile_ preresolve_info_
       preresolve_jobs_ queued_jobs_ inflight_preresolves_count_ callbacks
       trace emit set_info set_jobs set_queue set_inflight set_callbacks
       drop_state admit_state finish_adhoc_state finish_group_state add_job
       set_resolve_host_client IDMap.Add IDMap.Remove IDMap.data_
       IDMap.next_id_].

Lemma mstep_Watch W h t0 s s' :
  Inv s → Watch W h t0 s → mstep s s' → Watch W h t0 s'.
Proof.
  intros I Hw Hm. revert I Hw.
  destruct Hm as [s url requests Hnone Hfit|s job Hinfo|s h' i' Hi'
    |s id q job h' i' Hq Hjob Hinfo Hi' Hcan
    |s id q job Hq Hjob Hlt Hnc
    |s id b l1 l2 job success Hcb Hjob Hinfo
    |s id b l1 l2 job h' i' success Hcb Hjob Hinfo Hi']; intros I Hw.
  - destruct (start_state_spec url requests s)
      as (_ & _ & _ & _ & Hi & _ & _ & Hn & _ & Ht & Hold & _).
    simpl in Hi, Ht.
    eapply (Watch_step W h t0 s); [done| | | | |].
    + rewrite Ht, <- app_assoc. reflexivity.
    + intros id _. apply quiet_app; [|apply quiet_adds].
      by apply (quiet_tagged id None [InfoEmplace (host url)]).
    + rewrite Hn. lia.
    + intros id job' Hlt. rewrite Hold by lia. by exists job'.
    + intros i Hi0 Hc. left. exists i. split; [|done].
      rewrite Hi, lookup_insert_ne; [done|]. congruence.
  - eapply (Watch_step W h t0 s _ (map (pair (Some _)) [JobsAdd]));
      [done|reflexivity| | | |].
    + intros id _. apply quiet_tagged. by repeat constructor.
    + step_simpl. lia.
    + intros id job' Hlt. step_simpl. rewrite lookup_insert_ne by lia.
      by exists job'.
    + intros i Hi0 Hc. left. by exists i.
  - eapply (Watch_step W h t0 s _ []); [done| | | | |].
    + step_simpl. by rewrite app_nil_r.
    + intros id _. constructor.
    + done.
    + intros id job' _ ?. by exists job'.
    + intros i Hi0 Hc. left. step_simpl. rewrite lookup_insert.
      case_decide; [|by exists i]. subst h'. eexists. split; [done|]. done.
  - eapply (Watch_step W h t0 s _ (map (pair (Some id)) [JobsRemove]));
      [done|reflexivity| | | |].
    + intros id0 _. apply quiet_tagged. by repeat constructor.
    + done.
    + intros id0 job' _. step_simpl.
      intros [_ ?]%lookup_delete_Some. by exists job'.
    + intros i Hi0 Hc. left. step_simpl. rewrite lookup_insert.
      case_decide; [|by exists i]. subst h'. eexists. split; [done|].
      simpl. congruence.
  - eapply (Watch_step W h t0 s _ (map (pair (Some id)) (admit_acts job s)));
      [done|reflexivity| | | |].
    + intros id0 _. apply quiet_tagged. intros _. unfold admit_acts.
      destruct (observer_ s), (GetNetworkContext s); by repeat constructor.
    + done.
    + intros id0 job' _. step_simpl.
      intros [[-> (j & -> & Hj)]|[? ?]]%lookup_alter_Some.
      * exists j. by subst.
      * by exists job'.
    + intros i Hi0 Hc. left. step_simpl.
      destruct (PreresolveJob.info job) as [h'|]; [|by exists i].
      rewrite lookup_alter. case_decide; [|by exists i]. subst h'.
      rewrite Hi0. eexists. split; [done|]. done.
  - eapply (Watch_step W h t0 s); [done|reflexivity| | | |].
    + intros id0 Hw0. apply quiet_tagged. intros [= <-].
      destruct Hw as (_ & Hc & _).
      destruct (Hc id job Hw0 Hjob) as [? _]. congruence.
    + done.
    + intros id0 job' _. step_simpl.
      intros [_ ?]%lookup_delete_Some. by exists job'.
    + intros i Hi0 Hc. left. by exists i.
  - pose proof (finish_group_Inv s id b l1 l2 job h' i' (default success b)
                  I Hcb Hjob Hinfo Hi') as I'.
    eapply (Watch_step W h t0 s); [done|reflexivity| | | |].
    + intros id0 Hw0. apply quiet_tagged. intros [= <-].
      destruct Hw as (_ & Hc & _).
      destruct (Hc id job Hw0 Hjob) as (Hg & i & Hi0 & Hcan).
      assert (h' = h) as -> by congruence.
      assert (i' = i) as -> by congruence.
      unfold finish_need. rewrite Hcan, andb_false_r.
      destruct (observer_ s), (default success b),
        (PreresolveInfo.is_done _), (delegate_ s); by repeat constructor.
    + done.
    + intros id0 job' _. step_simpl.
      intros [_ ?]%lookup_delete_Some. by exists job'.
    + intros i Hi0 Hc.
      destruct (decide (h' = h)) as [->|Hne].
      * assert (i' = i) as -> by congruence.
        destruct (PreresolveInfo.is_done
                    (finish_info job i (default success b))) eqn:Hdone.
        -- right. intros id0 [? Hs]%(inv_group _ I').
           revert Hs. unfold finish_group_state. step_simpl.
           by rewrite Hdone, lookup_delete_eq.
        -- left. unfold finish_group_state. step_simpl. rewrite Hdone.
           rewrite lookup_insert_eq. eexists. split; [done|].
           unfold finish_info. by destruct (default success b).
      * left. exists i. split; [|done].
        unfold finish_group_state. step_simpl.
        destruct (PreresolveInfo.is_done _).
        -- by rewrite lookup_delete_ne.
        -- by rewrite lookup_insert_ne.
Qed.

Lemma rtc_mstep_Watch W h t0 s s' :
  Inv s → Watch W h t0 s → rtc mstep s s' → Watch W h t0 s'.
Proof.
  intros I Hw Hr. revert I Hw.
  induction Hr as [|s s1 s' Hm Hr IH]; intros I Hw; [done|].
  apply IH; [by eapply mstep_Inv|by eapply mstep_Watch].
Qed.

(** *** Jobs are submitted in the order of the queue *)

Lemma before_cons x y z l : before x y l → before x y (z :: l).
Proof. intros (l1 & l2 & l3 & ->). by exists (z :: l1), l2, l3. Qed.

Lemma before_app_r x y l l' : before x y l → before x y (l ++ l').
Proof.
  intros (l1 & l2 & l3 & ->). exists l1, l2, (l3 ++ l').
  by rewrite <- !app_assoc, <- !app_comm_cons, <- !app_assoc.
Qed.

Lemma before_snoc x y l : x ∈ l → before x y (l ++ [y]).
Proof.
  intros (l1 & l2 & ->)%list_elem_of_split. exists l1, l2, [].
  by rewrite <- !app_assoc, <- !app_comm_cons.
Qed.

Lemma before_elem_of x y l : before x y l → x ∈ l ∧ y ∈ l.
Proof.
  intros (l1 & l2 & l3 & ->). split.
  - apply elem_of_app. right. left.
  - apply elem_of_app. right. right. apply elem_of_app. right. left.
Qed.

(** The head of a duplicate-free list is the first of two only if it is
    the earlier one. *)
Lemma before_head x y id q :
  NoDup (id :: q) → before x y (id :: q) →
  (id = x ∧ y ∈ q ∧ x ≠ y) ∨ (id ≠ x ∧ id ≠ y ∧ before x y q).
Proof.
  intros [Hid Hnd]%NoDup_cons (l1 & l2 & l3 & Heq).
  destruct l1 as [|z l1]; simpl in Heq; injection Heq as -> ->.
  - left. split; [done|].
    assert (y ∈ l2 ++ y :: l3) as Hy.
    { rewrite elem_of_app, elem_of_cons. auto. }
    split; [done|]. by intros ->.
  - right. rewrite !elem_of_app, !elem_of_cons, !elem_of_app, !elem_of_cons
      in Hid.
    split; [|split].
    + intros ->. apply Hid. auto.
    + intros ->. apply Hid. auto.
    + by exists l1, l2, l3.
Qed.

Lemma admissions_app l1 l2 :
  admissions (l1 ++ l2) = admissions l1 ++ admissions l2.
Proof. apply omap_app. Qed.

Lemma admissions_none j acts :
  Forall (λ a, match a with ResolveHost _ | PostTask _ => False | _ => True end)
    acts →
  admissions (map (pair j) acts) = [].
Proof.
  induction 1 as [|a acts Ha _ IH]; [done|].
  simpl. unfold admissions in *. simpl. rewrite IH. by destruct a.
Qed.

Lemma admissions_admit id job s :
  admissions (map (pair (Some id)) (admit_acts job s)) = [id].
Proof.
  unfold admit_acts. by destruct (observer_ s), (GetNetworkContext s).
Qed.

Lemma admissions_adds n len :
  admissions (map (λ id', (Some id', JobsAdd)) (seq n len)) = [].
Proof.
  revert n. induction len as [|len IH]; intros n; [done|].
  simpl. unfold admissions in *. simpl. apply IH.
Qed.

(** A transition that submits nothing. *)
Lemma Ord_silent x y t0 s s' E :
  Ord x y t0 s →
  trace s' = trace s ++ E →
  admissions E = [] →
  (before x y (queued_jobs_ s) → adhoc s x → adhoc s y →
   before x y (queued_jobs_ s') ∧ adhoc s' x ∧ adhoc s' y) →
  (y ∈ queued_jobs_ s → adhoc s y → y ∈ queued_jobs_ s' ∧ adhoc s' y) →
  Ord x y t0 s'.
Proof.
  intros (evs & Ht & H) Ht' HE H1 H2. exists (evs ++ E). split.
  { by rewrite Ht', Ht, app_assoc. }
  rewrite admissions_app, HE, app_nil_r.
  destruct H as [(Hb & Hx & Hy & Hnx & Hny)|[(Hx & Hq & Hy & Hny)|Hb]].
  - left. destruct (H1 Hb Hx Hy) as (? & ? & ?). done.
  - right. left. destruct (H2 Hq Hy) as (? & ?). done.
  - right. by right.
Qed.

Lemma adhoc_other s s' z :
  adhoc s z →
  IDMap.data_ (preresolve_jobs_ s') !! z =
    IDMap.data_ (preresolve_jobs_ s) !! z →
  adhoc s' z.
Proof. intros (job & Hj & Hi) Heq. exists job. by rewrite Heq. Qed.

Lemma adhoc_in_table s z :
  Inv s → adhoc s z → z < IDMap.next_id_ (preresolve_jobs_ s).
Proof. intros I (job & Hj & _). apply (inv_fresh _ I). by eexists. Qed.

Lemma not_submit_PreconnectUrl s url site num_sockets allow_credentials :
  Forall (λ a, match a with ResolveHost _ | PostTask _ => False | _ => True end)
    (PreconnectUrl s url site num_sockets allow_credentials).
Proof.
  unfold PreconnectUrl.
  destruct (observer_ s), (GetNetworkContext s), allow_credentials;
    by repeat constructor.
Qed.

Lemma mstep_Ord x y t0 s s' :
  Inv s → Ord x y t0 s → mstep s s' → Ord x y t0 s'.
Proof.
  intros I Ho Hm. revert I Ho.
  destruct Hm as [s url requests Hnone Hfit|s job Hinfo|s h' i' Hi'
    |s id q job h' i' Hq Hjob Hinfo Hi' Hcan
    |s id q job Hq Hjob Hlt Hnc
    |s id b l1 l2 job success Hcb Hjob Hinfo
    |s id b l1 l2 job h' i' success Hcb Hjob Hinfo Hi']; intros I Ho.
  - destruct (start_state_spec url requests s)
      as (_ & _ & _ & _ & _ & _ & _ & _ & Hq & Ht & Hold & _).
    simpl in Ht.
    assert (∀ z, adhoc s z → adhoc (start_state url requests s) z) as Ha.
    { intros z Hz. apply (adhoc_other s); [done|].
      apply Hold. pose proof (adhoc_in_table s z I Hz). lia. }
    eapply (Ord_silent x y t0 s); [done| | | |].
    + rewrite Ht, <- app_assoc. reflexivity.
    + rewrite admissions_app, admissions_adds. done.
    + intros Hb Hx Hy. rewrite Hq. split; [by apply before_app_r|]. auto.
    + intros Hy Hay. rewrite Hq, elem_of_app. auto.
  - assert (∀ z, adhoc s z → adhoc (add_job true job s) z) as Ha.
    { intros z Hz. apply (adhoc_other s); [done|]. step_simpl.
      pose proof (adhoc_in_table s z I Hz). rewrite lookup_insert_ne; [done|lia]. }
    eapply (Ord_silent x y t0 s _ (map (pair (Some _)) [JobsAdd]));
      [done|reflexivity|done| |].
    + intros Hb Hx Hy. step_simpl. split; [by apply before_cons|]. auto.
    + intros Hy Hay. step_simpl. split; [by right|]. auto.
  - eapply (Ord_silent x y t0 s _ []); [done| |done| |].
    + step_simpl. by rewrite app_nil_r.
    + intros Hb Hx Hy. done.
    + intros Hy Hay. done.
  - pose proof (inv_nodup _ I) as Hnd. rewrite Hq in Hnd.
    apply NoDup_app in Hnd as (Hnd & _ & _).
    assert (∀ z, adhoc s z → z ≠ id) as Hne.
    { intros z (jz & Hjz & Hiz) ->. congruence. }
    assert (∀ z, adhoc s z → adhoc (drop_state id q h' i' s) z) as Ha.
    { intros z Hz. apply (adhoc_other s); [done|]. step_simpl.
      apply lookup_delete_ne. intros ->. by apply (Hne _ Hz). }
    eapply (Ord_silent x y t0 s _ (map (pair (Some id)) [JobsRemove]));
      [done|reflexivity|done| |].
    + intros Hb Hx Hy. rewrite Hq in Hb.
      destruct (before_head _ _ _ _ Hnd Hb) as [(-> & _)|(_ & _ & Hb')].
      * by destruct (Hne _ Hx).
      * step_simpl. auto.
    + intros Hy Hay. rewrite Hq in Hy. apply elem_of_cons in Hy as [->|Hy].
      * by destruct (Hne _ Hay).
      * step_simpl. auto.
  - pose proof (inv_nodup _ I) as Hnd. rewrite Hq in Hnd.
    apply NoDup_app in Hnd as (Hnd & _ & _).
    assert (∀ z, adhoc s z → adhoc (admit_state id q job s) z) as Ha.
    { intros z (jz & Hjz & Hiz). unfold adhoc. step_simpl.
      rewrite lookup_alter. case_decide; [subst z|by exists jz].
      rewrite Hjz. by eexists. }
    destruct Ho as (evs & Ht & H).
    exists (evs ++ map (pair (Some id)) (admit_acts job s)). split.
    { step_simpl. by rewrite Ht, app_assoc. }
    rewrite admissions_app, admissions_admit.
    destruct H as [(Hb & Hx & Hy & Hnx & Hny)|[(Hx & Hyq & Hy & Hny)|Hb]].
    + rewrite Hq in Hb.
      destruct (before_head _ _ _ _ Hnd Hb)
        as [(-> & Hyq & Hxy)|(Hix & Hiy & Hb')].
      * right. left. step_simpl. split; [|split; [done|split; [auto|]]].
        -- apply elem_of_app. right. left.
        -- rewrite elem_of_app, elem_of_cons, elem_of_nil.
           intros [?|[?|[]]]; [done|congruence].
      * left. step_simpl. split; [done|]. split; [auto|]. split; [auto|].
        split; rewrite elem_of_app, elem_of_cons, elem_of_nil;
          intros [?|[?|[]]]; done.
    + rewrite Hq in Hyq. apply elem_of_cons in Hyq as [->|Hyq].
      * right. right. by apply before_snoc.
      * right. left. step_simpl. split; [|split; [done|split; [auto|]]].
        -- apply elem_of_app. by left.
        -- rewrite elem_of_app, elem_of_cons, elem_of_nil.
           intros [?|[->|[]]]; [done|].
           apply NoDup_cons in Hnd as [? _]. done.
    + right. right. by apply before_app_r.
  - pose proof (inv_nodup _ I) as Hnd.
    apply NoDup_app in Hnd as (_ & Hnd & _).
    assert (id ∈ inflight_jobs s) as Hin.
    { rewrite Hcb, fmap_app, fmap_cons, elem_of_app, elem_of_cons. auto. }
    assert (∀ z, z ∈ queued_jobs_ s → adhoc s z →
      adhoc (finish_adhoc_state id (l1 ++ l2) job (default success b) s) z)
      as Ha.
    { intros z Hz Haz. apply (adhoc_other s); [done|]. step_simpl.
      apply lookup_delete_ne. intros ->. by apply (Hnd _ Hz). }
    eapply (Ord_silent x y t0 s); [done|reflexivity| | |].
    + apply admissions_none.
      destruct (observer_ s), (default success b && _);
        repeat first [apply not_submit_PreconnectUrl | apply Forall_nil_2
                     | apply Forall_cons; split; [done|]
                     | apply Forall_app; split].
    + intros Hb Hx Hy. destruct (before_elem_of _ _ _ Hb). step_simpl. auto.
    + intros Hy Hay. step_simpl. auto.
  - pose proof (inv_nodup _ I) as Hnd.
    apply NoDup_app in Hnd as (_ & Hnd & _).
    assert (id ∈ inflight_jobs s) as Hin.
    { rewrite Hcb, fmap_app, fmap_cons, elem_of_app, elem_of_cons. auto. }
    assert (∀ z, z ∈ queued_jobs_ s → adhoc s z →
      adhoc (finish_group_state id (l1 ++ l2) job h' i' (default success b) s)
        z) as Ha.
    { intros z Hz Haz. apply (adhoc_other s); [done|]. step_simpl.
      apply lookup_delete_ne. intros ->. by apply (Hnd _ Hz). }
    eapply (Ord_silent x y t0 s); [done|reflexivity| | |].
    + apply admissions_none.
      destruct (observer_ s), (finish_need _ _ _), (default success b),
        (PreresolveInfo.is_done _), (delegate_ s);
        repeat first [apply not_submit_PreconnectUrl | apply Forall_nil_2
                     | apply Forall_cons; split; [done|]
                     | apply Forall_app; split].
    + intros Hb Hx Hy. destruct (before_elem_of _ _ _ Hb). step_simpl. auto.
    + intros Hy Hay. step_simpl. auto.
Qed.

Lemma rtc_mstep_Ord x y t0 s s' :
  Inv s → Ord x y t0 s → rtc mstep s s' → Ord x y t0 s'.
Proof.
  intros I Ho Hr. revert I Ho.
  induction Hr as [|s s1 s' Hm Hr IH]; intros I Ho; [done|].
  apply IH; [by eapply mstep_Inv|by eapply mstep_Ord].
Qed.

(** A removed job never comes back: new ids are fresh. *)
Lemma mstep_gone id s s' :
  mstep s s' →
  id < IDMap.next_id_ (preresolve_jobs_ s) →
  IDMap.data_ (preresolve_jobs_ s) !! id = None →
  id < IDMap.next_id_ (preresolve_jobs_ s') ∧
  IDMap.data_ (preresolve_jobs_ s') !! id = None.
Proof.
  intros Hm. destruct Hm as [s url requests Hnone Hfit|s job Hinfo|s h' i' Hi'
    |s id0 q job h' i' Hq Hjob Hinfo Hi' Hcan
    |s id0 q job Hq Hjob Hlt Hnc
    |s id0 b l1 l2 job success Hcb Hjob Hinfo
    |s id0 b l1 l2 job h' i' success Hcb Hjob Hinfo Hi']; intros Hlt' Hg;
    step_simpl.
  - destruct (start_state_spec url requests s)
      as (_ & _ & _ & _ & _ & _ & _ & Hn & _ & _ & Hold & _).
    rewrite Hn, Hold by lia. split; [lia|done].
  - split; [lia|]. rewrite lookup_insert_ne; [done|lia].
  - done.
  - split; [done|]. apply lookup_delete_None. auto.
  - split; [done|]. by apply lookup_alter_None.
  - split; [done|]. apply lookup_delete_None. auto.
  - split; [done|]. apply lookup_delete_None. auto.
Qed.

Lemma rtc_mstep_gone id s s' :
  rtc mstep s s' →
  id < IDMap.next_id_ (preresolve_jobs_ s) →
  IDMap.data_ (preresolve_jobs_ s) !! id = None →
  IDMap.data_ (preresolve_jobs_ s') !! id = None.
Proof.
  induction 1 as [|s s1 s' Hm Hr IH]; intros Hlt Hg; [done|].
  destruct (mstep_gone id _ _ Hm Hlt Hg). auto.
Qed.

(** The callback of a job in flight runs to the end and takes the job out
    of the table. *)
Lemma callback_completes s id success :
  Inv s → id ∈ inflight_jobs s →
  ∃ s', step (OpCallback id success) s = Some s' ∧ rtc mstep s s' ∧
        IDMap.data_ (preresolve_jobs_ s') !! id = None.
Proof.
  intros I Hin. simpl.
  destruct (take_callback id (callbacks s)) as [[b rest]|] eqn:Ht.
  2:{ by apply take_callback_None in Ht. }
  apply take_callback_Some in Ht as (l1 & l2 & Hcb & ->).
  assert (is_Some (IDMap.data_ (preresolve_jobs_ s) !! id)) as [job Hjob].
  { apply (inv_dom _ I), elem_of_app. by right. }
  pose proof (inv_fresh _ I id (ex_intro _ job Hjob)) as Hlt.
  destruct (PreresolveJob.info job) as [h|] eqn:Hinfo.
  - assert (job_group (IDMap.data_ (preresolve_jobs_ s)) id = Some h) as Hg.
    { unfold job_group. rewrite Hjob. done. }
    destruct (inv_group _ I _ _ Hg) as [i Hi].
    destruct (inv_key _ I _ _ Hi) as [Hkey _].
    rewrite (OnPreresolveFinished_group s id _ job h i) by done.
    pose proof (ms_finish_group s id b l1 l2 job h i success
                  Hcb Hjob Hinfo Hi) as Hm.
    destruct (TryToLaunchPreresolveJobs_msteps _ (mstep_Inv _ _ I Hm))
      as (s' & Hs' & Hr).
    exists s'. split; [exact Hs'|]. split; [by eapply rtc_l|].
    apply (rtc_mstep_gone id _ _ Hr); [done|].
    step_simpl. apply lookup_delete_eq.
  - rewrite (OnPreresolveFinished_adhoc s id _ job) by done.
    pose proof (ms_finish_adhoc s id b l1 l2 job success Hcb Hjob Hinfo) as Hm.
    destruct (TryToLaunchPreresolveJobs_msteps _ (mstep_Inv _ _ I Hm))
      as (s' & Hs' & Hr).
    exists s'. split; [exact Hs'|]. split; [by eapply rtc_l|].
    apply (rtc_mstep_gone id _ _ Hr); [done|].
    step_simpl. apply lookup_delete_eq.
Qed.

(** *** A group no job points to is never finished *)

Lemma reports_app l1 l2 : reports (l1 ++ l2) = reports l1 ++ reports l2.
Proof. apply omap_app. Qed.

Lemma reports_for_app h l1 l2 :
  reports_for h (l1 ++ l2) = reports_for h l1 ++ reports_for h l2.
Proof. unfold reports_for. by rewrite reports_app, filter_app. Qed.

Lemma reports_none j acts :
  Forall (λ a, match a with PreconnectFinished _ => False | _ => True end)
    acts →
  reports (map (pair j) acts) = [].
Proof.
  induction 1 as [|a acts Ha _ IH]; [done|].
  simpl. unfold reports in *. simpl. rewrite IH. by destruct a.
Qed.

Lemma reports_adds n len :
  reports (map (λ id', (Some id', JobsAdd)) (seq n len)) = [].
Proof.
  revert n. induction len as [|len IH]; intros n; [done|].
  simpl. unfold reports in *. simpl. apply IH.
Qed.

Lemma not_report_PreconnectUrl s url site num_sockets allow_credentials :
  Forall (λ a, match a with PreconnectFinished _ => False | _ => True end)
    (PreconnectUrl s url site num_sockets allow_credentials).
Proof.
  unfold PreconnectUrl.
  destruct (observer_ s), (GetNetworkContext s), allow_credentials;
    by repeat constructor.
Qed.

(** What a transition has to do to leave the group as it is. *)
Lemma Leaked_step h s s' E :
  Leaked h s →
  trace s' = trace s ++ E →
  reports_for h E = [] →
  (∀ i, preresolve_info_ s !! h = Some i →
     ∃ i', preresolve_info_ s' !! h = Some i' ∧
           PreresolveInfo.is_done i' = PreresolveInfo.is_done i) →
  (∀ id, job_group (IDMap.data_ (preresolve_jobs_ s')) id = Some h →
     job_group (IDMap.data_ (preresolve_jobs_ s)) id = Some h) →
  Leaked h s'.
Proof.
  intros ((i & Hi & Hd) & Hg & Hr) Ht HE Hinfo Hjobs. split; [|split].
  - destruct (Hinfo i Hi) as (i' & Hi' & Hd'). exists i'. by rewrite Hd'.
  - intros id ?%Hjobs. by apply (Hg id).
  - by rewrite Ht, reports_for_app, Hr, HE.
Qed.

Lemma mstep_Leaked h s s' :
  Inv s → Leaked h s → mstep s s' → Leaked h s'.
Proof.
  intros I Hl Hm. revert I Hl.
  destruct Hm as [s url requests Hnone Hfit|s job Hinfo|s h' i' Hi'
    |s id q job h' i' Hq Hjob Hinfo Hi' Hcan
    |s id q job Hq Hjob Hlt Hnc
    |s id b l1 l2 job success Hcb Hjob Hinfo
    |s id b l1 l2 job h' i' success Hcb Hjob Hinfo Hi']; intros I Hl.
  - destruct (start_state_spec url requests s)
      as (_ & _ & _ & _ & Hi & _ & _ & _ & _ & Ht & Hold & Hnew).
    simpl in Hi, Ht.
    assert (host url ≠ h) as Hne.
    { intros <-. destruct Hl as ((i & Hi0 & _) & _). congruence. }
    eapply (Leaked_step h s); [done| | | |].
    + rewrite Ht, <- app_assoc. reflexivity.
    + unfold reports_for. by rewrite reports_app, reports_adds.
    + intros i Hi0. exists i. by rewrite Hi, lookup_insert_ne.
    + intros id. unfold job_group.
      destruct (decide (IDMap.next_id_ (preresolve_jobs_ s) ≤ id <
                        IDMap.next_id_ (preresolve_jobs_ s) + length requests))
        as [Hid|Hid].
      * destruct (Hnew id Hid) as (j & -> & Hj). simpl. congruence.
      * by rewrite Hold.
  - eapply (Leaked_step h s _ (map (pair (Some _)) [JobsAdd]));
      [done|reflexivity|done| |].
    + intros i Hi0. by exists i.
    + intros id. step_simpl. unfold job_group. rewrite lookup_insert.
      case_decide; [|done]. simpl. congruence.
  - eapply (Leaked_step h s _ []); [done| |done| |].
    + step_simpl. by rewrite app_nil_r.
    + intros i Hi0. step_simpl. rewrite lookup_insert.
      case_decide; [|by exists i]. subst h'. eexists. split; [done|].
      assert (i' = i) as -> by congruence. done.
    + done.
  - assert (h' ≠ h) as Hne.
    { intros ->. destruct Hl as (_ & Hg & _). apply (Hg id).
      unfold job_group. by rewrite Hjob. }
    eapply (Leaked_step h s _ (map (pair (Some id)) [JobsRemove]));
      [done|reflexivity|done| |].
    + intros i Hi0. exists i. step_simpl. by rewrite lookup_insert_ne.
    + intros id0. step_simpl. by intros [_ ?]%job_group_delete.
  - eapply (Leaked_step h s _ (map (pair (Some id)) (admit_acts job s)));
      [done|reflexivity| | |].
    + unfold reports_for. rewrite reports_none; [done|]. unfold admit_acts.
      destruct (observer_ s), (GetNetworkContext s); by repeat constructor.
    + intros i Hi0. step_simpl.
      destruct (PreresolveJob.info job) as [h'|] eqn:Hinfo; [|by exists i].
      rewrite lookup_alter. case_decide; [|by exists i]. subst h'.
      destruct Hl as (_ & Hg & _). destruct (Hg id).
      unfold job_group. by rewrite Hjob.
    + intros id0. step_simpl. by rewrite job_group_client.
  - eapply (Leaked_step h s); [done|reflexivity| | |].
    + unfold reports_for. rewrite reports_none; [done|].
      destruct (observer_ s), (default success b && _);
        repeat first [apply not_report_PreconnectUrl | apply Forall_nil_2
                     | apply Forall_cons; split; [done|]
                     | apply Forall_app; split].
    + intros i Hi0. by exists i.
    + intros id0. step_simpl. by intros [_ ?]%job_group_delete.
  - assert (h' ≠ h) as Hne.
    { intros ->. destruct Hl as (_ & Hg & _). apply (Hg id).
      unfold job_group. by rewrite Hjob. }
    destruct (inv_key _ I _ _ Hi') as [Hk1 Hk2].
    eapply (Leaked_step h s); [done|reflexivity| | |].
    + rewrite !map_app, !reports_for_app.
      unfold reports_for at 1 2 3 4.
      rewrite !reports_none.
      2:{ by repeat constructor. }
      2:{ destruct (default success b); by repeat constructor. }
      2:{ destruct (finish_need _ _ _);
            [apply not_report_PreconnectUrl|constructor]. }
      2:{ destruct (observer_ s); by repeat constructor. }
      simpl.
      destruct (PreresolveInfo.is_done _); [|done].
      destruct (delegate_ s); [|done].
      unfold reports_for, reports. simpl.
      rewrite filter_cons_False; [done|].
      unfold finish_info. destruct (default success b); simpl; congruence.
    + intros i Hi0. exists i. split; [|done].
      unfold finish_group_state. step_simpl.
      destruct (PreresolveInfo.is_done _).
      * by rewrite lookup_delete_ne.
      * by rewrite lookup_insert_ne.
    + intros id0. step_simpl. by intros [_ ?]%job_group_delete.
Qed.

Lemma rtc_mstep_Leaked h s s' :
  Inv s → Leaked h s → rtc mstep s s' → Leaked h s'.
Proof.
  intros I Hl Hr. revert I Hl.
  induction Hr as [|s s1 s' Hm Hr IH]; intros I Hl; [done|].
  apply IH; [by eapply mstep_Inv|by eapply mstep_Leaked].
Qed.

Lemma run_app ops1 ops2 s :
  run (ops1 ++ ops2) s = run ops1 s ≫= run ops2.
Proof.
  revert s. induction ops1 as [|op ops1 IH]; intros s; simpl; [done|].
  destruct (step op s) as [s1|]; simpl; [apply IH|done].
Qed.

(** The invariant holds after every run of a new manager, and the group
    stays leaked in every run that follows. *)
Lemma run_Leaked delegate observer network_context profile ops0 s0 h ops :
  Forall wf_op ops0 →
  run ops0 (PreconnectManager_new delegate observer network_context profile) =
    Some s0 →
  Leaked h s0 →
  Forall wf_op ops →
  ∃ s, run (ops0 ++ ops)
         (PreconnectManager_new delegate observer network_context profile) =
       Some s ∧ Leaked h s.
Proof.
  intros Hwf0 Hs0 Hl Hwf.
  pose proof (Inv_new delegate observer network_context profile) as I00.
  destruct (run_msteps ops0 _ I00 Hwf0) as (s0' & Hs0' & Hr0).
  assert (s0' = s0) as -> by congruence.
  pose proof (rtc_mstep_Inv _ _ I00 Hr0) as I0.
  destruct (run_msteps ops _ I0 Hwf) as (s & Hs & Hr).
  exists s. split.
  - by rewrite run_app, Hs0.
  - by apply (rtc_mstep_Leaked h s0).
Qed.

Lemma TryToLaunch_saturated s :
  (kMaxInflightPreresolves ≤ inflight_preresolves_count_ s)%Z →
  TryToLaunchPreresolveJobs s = Some s.
Proof.
  intros Hs. unfold TryToLaunchPreresolveJobs.
  destruct (queued_jobs_ s) as [|id q]; simpl; [done|].
  by rewrite (proj2 (Z.ltb_ge _ _) Hs).
Qed.

Lemma rtc_mstep_trace s s' :
  Inv s → rtc mstep s s' → ∃ evs, trace s' = trace s ++ evs.
Proof.
  intros I Hr.
  assert (Watch (λ _, False) "" (trace s) s) as Hw.
  { split; [done|]. split; [done|]. exists []. by rewrite app_nil_r. }
  destruct (rtc_mstep_Watch _ _ _ _ _ I Hw Hr) as (_ & _ & evs & Ht & _).
  by exists evs.
Qed.

(** ** The claims *)

(** C1: after every sequence of public calls and completion callbacks the
    manager is in a state (no call fails) whose in-flight counter is at most
    [kMaxInflightPreresolves]; and [TryToLaunchPreresolveJobs] admits
    nothing once the counter has reached the cap. *)
Theorem inflight_count_within_cap delegate observer network_context profile
    ops :
  Forall wf_op ops →
  (∃ s, run ops (PreconnectManager_new delegate observer network_context
                   profile) = Some s ∧
        (0 ≤ inflight_preresolves_count_ s ≤ kMaxInflightPreresolves)%Z) ∧
  (∀ s, (kMaxInflightPreresolves ≤ inflight_preresolves_count_ s)%Z →
        TryToLaunchPreresolveJobs s = Some s).
Proof.
  intros Hwf. split.
  - destruct (run_msteps ops _
                (Inv_new delegate observer network_context profile) Hwf)
      as (s & Hs & Hr).
    exists s. split; [done|].
    pose proof (rtc_mstep_Inv _ _
                  (Inv_new delegate observer network_context profile) Hr) as I.
    split; [|apply I]. rewrite (inv_inflight _ I). lia.
  - apply TryToLaunch_saturated.
Qed.

(** C5 (amended): when the in-flight count is at the cap while
    [StartPreresolveHosts [a; b; c]] and then [StartPreresolveHost d] are
    called, nothing is submitted during the two calls and the queue then
    starts with the jobs of d, a, b, c, in this order, ahead of what was
    queued before.  In every run that follows, jobs are taken from the front
    of the queue: whenever one of the four is submitted, those ahead of it
    among the four were submitted before it. *)
Theorem batch_then_single_when_saturated delegate observer network_context
    profile ops0 s0 a b c d :
  Forall wf_op ops0 →
  run ops0 (PreconnectManager_new delegate observer network_context profile) =
    Some s0 →
  (kMaxInflightPreresolves ≤ inflight_preresolves_count_ s0)%Z →
  SchemeIsHTTPOrHTTPS d = true →
  let n := IDMap.next_id_ (preresolve_jobs_ s0) in
  ∃ s,
    StartPreresolveHosts [a; b; c] s0 ≫= StartPreresolveHost d = Some s ∧
    queued_jobs_ s = [n + 3; n + 2; n + 1; n] ++ queued_jobs_ s0 ∧
    PreresolveJob.url <$> IDMap.Lookup (n + 3) (preresolve_jobs_ s) =
      Some (GetOrigin d) ∧
    PreresolveJob.url <$> IDMap.Lookup (n + 2) (preresolve_jobs_ s) =
      Some (GURL_http a) ∧
    PreresolveJob.url <$> IDMap.Lookup (n + 1) (preresolve_jobs_ s) =
      Some (GURL_http b) ∧
    PreresolveJob.url <$> IDMap.Lookup n (preresolve_jobs_ s) =
      Some (GURL_http c) ∧
    callbacks s = callbacks s0 ∧
    ∀ ops, Forall wf_op ops →
      ∃ s' evs, run ops s = Some s' ∧ trace s' = trace s ++ evs ∧
        ∀ x y, before x y [n + 3; n + 2; n + 1; n] →
               y ∈ admissions evs → before x y (admissions evs).
Proof.
  intros Hwf0 Hs0 Hsat Hd n.
  pose proof (Inv_new delegate observer network_context profile) as I00.
  destruct (run_msteps ops0 _ I00 Hwf0) as (s0' & Hs0' & Hr0).
  assert (s0' = s0) as -> by congruence.
  pose proof (rtc_mstep_Inv _ _ I00 Hr0) as I0.
  set (jd := PreresolveJob.new (GetOrigin d) 0
               kAllowCredentialsOnPreconnectByDefault None).
  set (jh := λ it, PreresolveJob.new (GURL_http it) 0
               kAllowCredentialsOnPreconnectByDefault None).
  set (s3 := add_job true (jh a) (add_job true (jh b)
               (add_job true (jh c) s0))).
  set (s := add_job true jd s3).
  assert (StartPreresolveHosts [a; b; c] s0 = Some s3) as H3.
  { unfold StartPreresolveHosts. simpl. by apply TryToLaunch_saturated. }
  assert (StartPreresolveHost d s3 = Some s) as H4.
  { unfold StartPreresolveHost. rewrite Hd. simpl.
    by apply TryToLaunch_saturated. }
  assert (rtc mstep s0 s) as Hr.
  { eapply rtc_l; [by apply (ms_front _ (jh c))|].
    eapply rtc_l; [by apply (ms_front _ (jh b))|].
    eapply rtc_l; [by apply (ms_front _ (jh a))|].
    eapply rtc_l; [by apply (ms_front _ jd)|]. done. }
  pose proof (rtc_mstep_Inv _ _ I0 Hr) as I.
  replace (n + 3) with (S (S (S n))) by lia.
  replace (n + 2) with (S (S n)) by lia.
  replace (n + 1) with (S n) by lia.
  assert (IDMap.data_ (preresolve_jobs_ s) !! S (S (S n)) = Some jd) as L3.
  { subst s s3. step_simpl. apply lookup_insert_eq. }
  assert (IDMap.data_ (preresolve_jobs_ s) !! S (S n) = Some (jh a)) as L2.
  { subst s s3. step_simpl. rewrite lookup_insert_ne by lia.
    apply lookup_insert_eq. }
  assert (IDMap.data_ (preresolve_jobs_ s) !! S n = Some (jh b)) as L1.
  { subst s s3. step_simpl. rewrite !lookup_insert_ne by lia.
    apply lookup_insert_eq. }
  assert (IDMap.data_ (preresolve_jobs_ s) !! n = Some (jh c)) as L0.
  { subst s s3. step_simpl. rewrite !lookup_insert_ne by lia.
    apply lookup_insert_eq. }
  exists s. split; [by rewrite H3|].
  split; [done|].
  unfold IDMap.Lookup. rewrite L3, L2, L1, L0.
  do 5 (split; [done|]).
  intros ops Hwf.
  destruct (run_msteps ops _ I Hwf) as (s' & Hs' & Hr').
  destruct (rtc_mstep_trace _ _ I Hr') as (evs & Ht).
  exists s', evs. split; [done|]. split; [done|].
  intros x y Hb Hy.
  assert (∀ z, z ∈ [S (S (S n)); S (S n); S n; n] → adhoc s z) as Ha.
  { intros z Hz. rewrite !elem_of_cons, elem_of_nil in Hz.
    destruct Hz as [->|[->|[->|[->|[]]]]]; by eexists. }
  destruct (before_elem_of _ _ _ Hb) as [Hx' Hy'].
  assert (Ord x y (trace s) s) as Ho.
  { exists []. rewrite app_nil_r. split; [done|]. left.
    split.
    { change (queued_jobs_ s)
        with ([S (S (S n)); S (S n); S n; n] ++ queued_jobs_ s0).
      by apply before_app_r. }
    split; [auto|]. split; [auto|]. split; apply not_elem_of_nil. }
  destruct (rtc_mstep_Ord _ _ _ _ _ I Ho Hr') as (evs' & Ht' & H).
  assert (evs' = evs) as ->.
  { rewrite Ht in Ht'. by apply app_inv_head in Ht'. }
  destruct H as [(_ & _ & _ & _ & ?)|[(_ & _ & _ & ?)|?]]; done.
Qed.

(** C6: when the host of the URL already has a group, [Start] returns at
    once: the state after the call is the state before it. *)
Theorem Start_existing_group_noop (s : State) url requests :
  is_Some (preresolve_info_ s !! host url) →
  Start url requests s = Some s.
Proof. intros H. unfold Start. by rewrite decide_True. Qed.

(** C3: take any run, then [Stop(url)], then any further run.  For every
    job that is in the table when [Stop] is called and belongs to the group
    of the URL's host, no event after the call is a preconnect for that
    job: neither the observer is told nor the network context called,
    whatever the outcome of its resolve. *)
Theorem no_preconnect_after_Stop delegate observer network_context profile
    ops1 url ops2 :
  Forall wf_op ops1 → Forall wf_op ops2 →
  ∃ s1 s2 evs,
    run ops1 (PreconnectManager_new delegate observer network_context
                profile) = Some s1 ∧
    run (OpStop url :: ops2) s1 = Some s2 ∧
    trace s2 = trace s1 ++ evs ∧
    ∀ id job,
      IDMap.Lookup id (preresolve_jobs_ s1) = Some job →
      PreresolveJob.info job = Some (host url) →
      quiet id evs.
Proof.
  intros Hwf1 Hwf2.
  pose proof (Inv_new delegate observer network_context profile) as I0.
  destruct (run_msteps ops1 _ I0 Hwf1) as (s1 & Hs1 & Hr1).
  pose proof (rtc_mstep_Inv _ _ I0 Hr1) as I1.
  destruct (Stop_msteps s1 url) as (s1' & Hstop & Hr1').
  pose proof (rtc_mstep_Inv _ _ I1 Hr1') as I1'.
  destruct (run_msteps ops2 _ I1' Hwf2) as (s2 & Hs2 & Hr2).
  set (W := λ id, ∃ job,
         IDMap.data_ (preresolve_jobs_ s1) !! id = Some job ∧
         PreresolveJob.info job = Some (host url)).
  assert (Watch W (host url) (trace s1) s1') as Hw.
  { unfold Stop in Hstop.
    destruct (preresolve_info_ s1 !! host url) as [i|] eqn:Hi;
      injection Hstop as <-.
    - split; [|split].
      + intros id (job & Hj & _). apply (inv_fresh _ I1). by eexists.
      + intros id job (job0 & Hj0 & Hg) Hj. simpl in Hj.
        assert (job0 = job) as -> by congruence.
        split; [done|]. simpl. rewrite lookup_insert_eq. by eexists.
      + exists []. simpl. rewrite app_nil_r. split; [done|].
        intros; constructor.
    - split; [|split].
      + intros id (job & Hj & _). apply (inv_fresh _ I1). by eexists.
      + intros id job (job0 & Hj0 & Hg) Hj. exfalso.
        assert (job_group (IDMap.data_ (preresolve_jobs_ s1)) id =
                Some (host url)) as [? ?]%(inv_group _ I1).
        { unfold job_group. by rewrite Hj0. }
        congruence.
      + exists []. rewrite app_nil_r. split; [done|].
        intros; constructor. }
  destruct (rtc_mstep_Watch _ _ _ _ _ I1' Hw Hr2) as (_ & _ & evs & Ht & Hq).
  exists s1, s2, evs. split; [done|]. split.
  - simpl. rewrite Hstop. done.
  - split; [done|]. intros id job Hj Hg. apply Hq. by exists job.
Qed.

(** C8: without a network context [PreresolveUrl] returns no client, leaves
    every member of the manager as it is, and adds exactly one outstanding
    callback, posted with [success = false]; running that callback later is
    [OnPreresolveFinished (job, false)] whatever the environment answers. *)
Theorem PreresolveUrl_without_context (s : State) url id :
  GetNetworkContext s = false →
  ∃ s', PreresolveUrl url id s = (false, s') ∧
    preresolve_info_ s' = preresolve_info_ s ∧
    preresolve_jobs_ s' = preresolve_jobs_ s ∧
    queued_jobs_ s' = queued_jobs_ s ∧
    inflight_preresolves_count_ s' = inflight_preresolves_count_ s ∧
    callbacks s' = callbacks s ++ [(id, Some false)] ∧
    trace s' = trace s ++
      map (pair (Some id))
        ((if observer_ s then [OnPreresolveUrl url] else []) ++
         [PostTask false]) ∧
    (id ∉ inflight_jobs s → ∀ success,
       step (OpCallback id success) s' =
       OnPreresolveFinished id false (set_callbacks (λ _, callbacks s) s')).
Proof.
  intros Hctx. rewrite PreresolveUrl_eq, Hctx.
  eexists. split; [reflexivity|]. simpl. repeat split.
  intros Hid success.
  assert (∀ l, id ∉ l.*1 →
    take_callback id (l ++ [(id, Some false)]) = Some (Some false, l)) as Ht.
  { induction l as [|[id' b'] l IH]; simpl; intros Hl.
    - by rewrite decide_True.
    - apply not_elem_of_cons in Hl as [? ?].
      rewrite decide_False by done. by rewrite IH. }
  by rewrite Ht.
Qed.

(** C9: the call [PreconnectUrl] passes to the network context has, for
    [allow_credentials = false], privacy mode on and load flags in which
    DO_NOT_SEND_COOKIES, DO_NOT_SAVE_COOKIES and DO_NOT_SEND_AUTH_DATA are
    set; for [allow_credentials = true] it has LOAD_NORMAL and privacy mode
    off.  It is the only call made on the context. *)
Theorem PreconnectUrl_load_flags (s : State) url site_for_cookies num_sockets :
  let no_credentials :=
    Z.lor (Z.lor LOAD_DO_NOT_SEND_COOKIES LOAD_DO_NOT_SAVE_COOKIES)
      LOAD_DO_NOT_SEND_AUTH_DATA in
  PreconnectUrl s url site_for_cookies num_sockets false =
    (if observer_ s then [OnPreconnectUrl url num_sockets false] else []) ++
    (if GetNetworkContext s
     then [PreconnectSockets num_sockets url no_credentials true]
     else []) ∧
  PreconnectUrl s url site_for_cookies num_sockets true =
    (if observer_ s then [OnPreconnectUrl url num_sockets true] else []) ++
    (if GetNetworkContext s
     then [PreconnectSockets num_sockets url LOAD_NORMAL false]
     else []) ∧
  Z.land no_credentials LOAD_DO_NOT_SEND_COOKIES = LOAD_DO_NOT_SEND_COOKIES ∧
  Z.land no_credentials LOAD_DO_NOT_SAVE_COOKIES = LOAD_DO_NOT_SAVE_COOKIES ∧
  Z.land no_credentials LOAD_DO_NOT_SEND_AUTH_DATA =
    LOAD_DO_NOT_SEND_AUTH_DATA.
Proof.
  simpl. split; [|split].
  - unfold PreconnectUrl. by destruct (GetNetworkContext s).
  - unfold PreconnectUrl. by destruct (GetNetworkContext s).
  - repeat split; apply Z.bits_inj'; intros n _;
      rewrite Z.land_spec, !Z.lor_spec;
      destruct (Z.testbit LOAD_DO_NOT_SEND_COOKIES n),
        (Z.testbit LOAD_DO_NOT_SAVE_COOKIES n),
        (Z.testbit LOAD_DO_NOT_SEND_AUTH_DATA n); reflexivity.
Qed.

(** C10: for a URL whose scheme is neither http nor https,
    [StartPreresolveHost] and [StartPreconnectUrl] return at once: the
    state after the call is the state before it. *)
Theorem non_http_scheme_noop (s : State) url allow_credentials :
  SchemeIsHTTPOrHTTPS url = false →
  StartPreresolveHost url s = Some s ∧
  StartPreconnectUrl url allow_credentials s = Some s.
Proof.
  intros H. unfold StartPreresolveHost, StartPreconnectUrl. by rewrite H.
Qed.

(** ** Further properties *)

(** *** Reachable states *)

Lemma run_Inv delegate observer network_context profile ops s :
  Forall wf_op ops →
  run ops (PreconnectManager_new delegate observer network_context profile) =
    Some s →
  Inv s.
Proof.
  intros Hwf Hs.
  pose proof (Inv_new delegate observer network_context profile) as I0.
  destruct (run_msteps ops _ I0 Hwf) as (s' & Hs' & Hr).
  assert (s' = s) as -> by congruence.
  by apply (rtc_mstep_Inv _ _ I0).
Qed.

(** An invariant of the transitions holds after every run. *)
Lemma run_invariant (P : State → Prop) ops s :
  (∀ s s', Inv s → P s → mstep s s' → P s') →
  Inv s → P s → Forall wf_op ops →
  ∃ s', run ops s = Some s' ∧ Inv s' ∧ P s'.
Proof.
  intros HP I H Hwf.
  destruct (run_msteps ops _ I Hwf) as (s' & Hs' & Hr).
  exists s'. split; [done|]. clear Hs' Hwf.
  induction Hr as [|s s1 s' Hm Hr IH]; [done|].
  apply IH; [by eapply mstep_Inv|by eapply HP].
Qed.

(** X1: after every sequence of public calls and completion callbacks, the
    job table holds exactly the queued jobs and the jobs in flight, no job
    is queued twice or both queued and in flight, and every id of the
    table was handed out by the table.  So the [Lookup] of a popped or
    completed job never returns null. *)
Theorem job_table_is_queue_and_inflight delegate observer network_context
    profile ops :
  Forall wf_op ops →
  ∃ s, run ops (PreconnectManager_new delegate observer network_context
                  profile) = Some s ∧
    NoDup (queued_jobs_ s ++ inflight_jobs s) ∧
    (∀ id, is_Some (IDMap.Lookup id (preresolve_jobs_ s)) ↔
           id ∈ queued_jobs_ s ∨ id ∈ inflight_jobs s) ∧
    (∀ id, is_Some (IDMap.Lookup id (preresolve_jobs_ s)) →
           id < IDMap.next_id_ (preresolve_jobs_ s)).
Proof.
  intros Hwf.
  pose proof (Inv_new delegate observer network_context profile) as I0.
  destruct (run_msteps ops _ I0 Hwf) as (s & Hs & Hr).
  pose proof (rtc_mstep_Inv _ _ I0 Hr) as I.
  exists s. split; [done|]. split; [apply I|]. split.
  - intros id. unfold IDMap.Lookup. rewrite (inv_dom _ I).
    apply elem_of_app.
  - apply I.
Qed.

(** X2: after every run the counters are exact: the in-flight counter is
    the number of outstanding callbacks, and the queued and in-flight
    counts of a group are the numbers of its jobs in the queue and in
    flight, so no decrement wraps around; a group is done exactly when no
    job of the table belongs to it. *)
Theorem counters_count_jobs delegate observer network_context profile ops :
  Forall wf_op ops →
  ∃ s, run ops (PreconnectManager_new delegate observer network_context
                  profile) = Some s ∧
    inflight_preresolves_count_ s = Z.of_nat (length (inflight_jobs s)) ∧
    ∀ h i, preresolve_info_ s !! h = Some i →
      PreresolveInfo.queued_count i =
        Z.of_nat (group_count (IDMap.data_ (preresolve_jobs_ s)) h
                    (queued_jobs_ s)) ∧
      PreresolveInfo.inflight_count i =
        Z.of_nat (group_count (IDMap.data_ (preresolve_jobs_ s)) h
                    (inflight_jobs s)) ∧
      (PreresolveInfo.is_done i = true ↔
       ∀ id job, IDMap.Lookup id (preresolve_jobs_ s) = Some job →
                 PreresolveJob.info job ≠ Some h).
Proof.
  intros Hwf.
  pose proof (Inv_new delegate observer network_context profile) as I0.
  destruct (run_msteps ops _ I0 Hwf) as (s & Hs & Hr).
  pose proof (rtc_mstep_Inv _ _ I0 Hr) as I.
  exists s. split; [done|]. split.
  { rewrite (inv_inflight _ I), length_fmap. done. }
  intros h i Hi. destruct (inv_counts _ I h i Hi) as (Hq & Hf & _).
  split; [done|]. split; [done|].
  unfold PreresolveInfo.is_done. rewrite andb_true_iff, !bool_decide_eq_true.
  rewrite Hq, Hf. split.
  - intros [Hq0 Hf0] id job Hjob Hinfo.
    assert (job_group (IDMap.data_ (preresolve_jobs_ s)) id = Some h) as Hg.
    { unfold job_group. unfold IDMap.Lookup in Hjob. by rewrite Hjob. }
    assert (id ∈ queued_jobs_ s ++ inflight_jobs s) as Hin.
    { apply (inv_dom _ I). by exists job. }
    apply elem_of_app in Hin as [Hin|Hin].
    + pose proof (group_count_pos _ _ _ _ Hin Hg). lia.
    + pose proof (group_count_pos _ _ _ _ Hin Hg). lia.
  - intros Hno.
    assert (∀ id, job_group (IDMap.data_ (preresolve_jobs_ s)) id ≠ Some h)
      as Hno'.
    { intros id. unfold job_group.
      destruct (IDMap.data_ (preresolve_jobs_ s) !! id) as [job|] eqn:Hjob;
        [|done].
      simpl. by apply (Hno id job). }
    rewrite !group_count_zero; [done|by intros; apply Hno'
                               |by intros; apply Hno'].
Qed.

(** X3: after every run no group pointer dangles: the group of every job
    of the table is in the map, under the host of its URL, and its stats
    carry the same URL.  So [AllPreresolvesForUrlFinished] finds the group
    it is given and erases that one. *)
Theorem group_pointers_never_dangle delegate observer network_context
    profile ops :
  Forall wf_op ops →
  ∃ s, run ops (PreconnectManager_new delegate observer network_context
                  profile) = Some s ∧
    (∀ id job h, IDMap.Lookup id (preresolve_jobs_ s) = Some job →
       PreresolveJob.info job = Some h →
       ∃ i, preresolve_info_ s !! h = Some i) ∧
    (∀ h i, preresolve_info_ s !! h = Some i →
       host (PreresolveInfo.url i) = h ∧
       PreconnectStats.url (PreresolveInfo.stats i) = PreresolveInfo.url i).
Proof.
  intros Hwf.
  pose proof (Inv_new delegate observer network_context profile) as I0.
  destruct (run_msteps ops _ I0 Hwf) as (s & Hs & Hr).
  pose proof (rtc_mstep_Inv _ _ I0 Hr) as I.
  exists s. split; [done|]. split.
  - intros id job h Hjob Hinfo. apply (inv_group _ I id).
    unfold job_group. unfold IDMap.Lookup in Hjob. by rewrite Hjob.
  - apply I.
Qed.

(** *** The launch loop runs to exhaustion *)

Lemma lstep_mstep s s' : lstep s s' → mstep s s'.
Proof.
  intros [s0 id q job h i Hq Hjob Hinfo Hi Hc|s0 id q job Hq Hjob Hlt Hnc].
  - by eapply ms_drop.
  - by eapply ms_admit.
Qed.

Lemma rtc_lstep_mstep s s' : rtc lstep s s' → rtc mstep s s'.
Proof.
  induction 1 as [|s s1 s' Hl _ IH]; [done|].
  eapply rtc_l; [by apply lstep_mstep|done].
Qed.

Lemma TryToLaunch_iteration_lstep s id q :
  Inv s → queued_jobs_ s = id :: q →
  (inflight_preresolves_count_ s < kMaxInflightPreresolves)%Z →
  ∃ s', TryToLaunch_iteration id (set_queue (λ _, q) s) = Some s' ∧
        lstep s s' ∧ queued_jobs_ s' = q.
Proof.
  intros I Hq Hlt.
  assert (is_Some (IDMap.data_ (preresolve_jobs_ s) !! id)) as [job Hjob].
  { apply (inv_dom _ I). rewrite Hq. left. }
  unfold TryToLaunch_iteration, IDMap.Lookup. state_simpl. rewrite Hjob. obind.
  destruct (PreresolveJob.info job) as [h|] eqn:Hinfo.
  - assert (job_group (IDMap.data_ (preresolve_jobs_ s)) id = Some h) as Hg.
    { unfold job_group. rewrite Hjob. done. }
    destruct (inv_group _ I _ _ Hg) as [i Hi]. rewrite Hi. obind.
    destruct (PreresolveInfo.was_canceled i) eqn:Hc; cbn [negb]; obind.
    + unfold if_info, info_update. state_simpl. rewrite Hi. obind.
      eexists; split; [reflexivity|]. split; [|reflexivity].
      by apply (ls_drop s id q job h i).
    + rewrite PreresolveUrl_eq. obind.
      unfold if_info, info_update. step_simpl. rewrite Hi. obind.
      step_simpl. rewrite lookup_insert_eq. obind.
      eexists; split; [reflexivity|]. split; [|reflexivity].
      unfold set_info at 1 2. step_simpl.
      rewrite (insert_insert_alter inc_inflight_count dec_queued_count) by done.
      pose proof (ls_admit s id q job Hq Hjob Hlt) as Hm.
      unfold admit_state in Hm. rewrite Hinfo in Hm. apply Hm.
      intros h' [= <-]. by exists i.
  - obind. rewrite PreresolveUrl_eq. obind. unfold if_info.
    eexists; split; [reflexivity|]. split; [|reflexivity].
    pose proof (ls_admit s id q job Hq Hjob Hlt) as Hm.
    unfold admit_state in Hm. rewrite Hinfo in Hm. apply Hm.
    intros h' [=].
Qed.

Lemma TryToLaunch_loop_lsteps q s :
  Inv s → queued_jobs_ s = q →
  ∃ s', TryToLaunch_loop q s = Some s' ∧ rtc lstep s s' ∧ Exhausted s'.
Proof.
  revert s. induction q as [|id q IH]; intros s I Hq; simpl.
  - exists s. split; [done|]. split; [done|]. by left.
  - destruct (inflight_preresolves_count_ s <? kMaxInflightPreresolves)%Z
      eqn:Hlt.
    2:{ exists s. split; [done|]. split; [done|].
        right. by apply Z.ltb_ge. }
    apply Z.ltb_lt in Hlt.
    destruct (TryToLaunch_iteration_lstep s id q I Hq Hlt)
      as (s1 & -> & Hm & Hq1).
    obind.
    destruct (IH s1 (mstep_Inv _ _ I (lstep_mstep _ _ Hm)) Hq1)
      as (s' & -> & Hr & He).
    exists s'. split; [done|]. split; [by eapply rtc_l|done].
Qed.

(** A method that ends with [TryToLaunchPreresolveJobs]. *)
Lemma TryToLaunch_after s0 s :
  Inv s0 → rtc mstep s0 s →
  ∃ s', TryToLaunchPreresolveJobs s = Some s' ∧ rtc lstep s s' ∧
        rtc mstep s0 s' ∧ Exhausted s'.
Proof.
  intros I0 Hr0. pose proof (rtc_mstep_Inv _ _ I0 Hr0) as I.
  destruct (TryToLaunch_loop_lsteps (queued_jobs_ s) s I eq_refl)
    as (s' & Hs' & Hl & He).
  exists s'. split; [done|]. split; [done|]. split; [|done].
  etrans; [done|by apply rtc_lstep_mstep].
Qed.

Lemma step_Exhausted op s :
  Inv s → Exhausted s → wf_op op →
  ∃ s', step op s = Some s' ∧ rtc mstep s s' ∧ Exhausted s'.
Proof.
  intros I He Hwf. destruct op as [url requests|url|hostnames|url allow|url
                                  |id success]; simpl.
  - unfold Start.
    destruct (decide (is_Some (preresolve_info_ s !! host url))) as [|Hn].
    { by exists s. }
    apply eq_None_not_Some in Hn.
    destruct (TryToLaunch_after s (start_state url requests s) I)
      as (s' & Hs' & _ & Hr & He').
    { by apply rtc_once, ms_start. }
    by exists s'.
  - unfold StartPreresolveHost.
    destruct (negb (SchemeIsHTTPOrHTTPS url)); [by exists s|].
    destruct (TryToLaunch_after s (add_job true
                (PreresolveJob.new (GetOrigin url) 0
                   kAllowCredentialsOnPreconnectByDefault None) s) I)
      as (s' & Hs' & _ & Hr & He').
    { by apply rtc_once, ms_front. }
    by exists s'.
  - unfold StartPreresolveHosts.
    destruct (TryToLaunch_after s _ I (add_fronts_msteps (rev hostnames) s))
      as (s' & Hs' & _ & Hr & He').
    by exists s'.
  - unfold StartPreconnectUrl.
    destruct (negb (SchemeIsHTTPOrHTTPS url)); [by exists s|].
    destruct (TryToLaunch_after s (add_job true
                (PreresolveJob.new (GetOrigin url) 1 allow None) s) I)
      as (s' & Hs' & _ & Hr & He').
    { by apply rtc_once, ms_front. }
    by exists s'.
  - unfold Stop. destruct (preresolve_info_ s !! host url) as [i|] eqn:Hi.
    + eexists. split; [done|]. split; [by apply rtc_once, ms_stop|done].
    + by exists s.
  - destruct (take_callback id (callbacks s)) as [[b rest]|] eqn:Ht;
      [|by exists s].
    apply take_callback_Some in Ht as (l1 & l2 & Hcb & ->).
    assert (is_Some (IDMap.data_ (preresolve_jobs_ s) !! id)) as [job Hjob].
    { apply (inv_dom _ I). rewrite Hcb, perm_finish. left. }
    destruct (PreresolveJob.info job) as [h|] eqn:Hinfo.
    + assert (job_group (IDMap.data_ (preresolve_jobs_ s)) id = Some h) as Hg.
      { unfold job_group. rewrite Hjob. done. }
      destruct (inv_group _ I _ _ Hg) as [i Hi].
      destruct (inv_key _ I _ _ Hi) as [Hkey _].
      rewrite (OnPreresolveFinished_group s id _ job h i) by done.
      destruct (TryToLaunch_after s
                  (finish_group_state id (l1 ++ l2) job h i
                     (default success b) s) I)
        as (s' & Hs' & _ & Hr & He').
      { by apply rtc_once, ms_finish_group. }
      by exists s'.
    + rewrite (OnPreresolveFinished_adhoc s id _ job) by done.
      destruct (TryToLaunch_after s
                  (finish_adhoc_state id (l1 ++ l2) job (default success b) s)
                  I)
        as (s' & Hs' & _ & Hr & He').
      { by apply rtc_once, ms_finish_adhoc. }
      by exists s'.
Qed.

Lemma run_Exhausted ops s :
  Inv s → Exhausted s → Forall wf_op ops →
  ∃ s', run ops s = Some s' ∧ Inv s' ∧ Exhausted s'.
Proof.
  revert s. induction ops as [|op ops IH]; intros s I He Hwf; simpl.
  - by exists s.
  - apply Forall_cons in Hwf as [Hop Hops].
    destruct (step_Exhausted op s I He Hop) as (s1 & -> & Hr1 & He1). obind.
    apply IH; [by eapply rtc_mstep_Inv|done|done].
Qed.

(** X4: no slot stays free while a job waits.  After every run the queue
    is empty or the in-flight counter equals the cap, so a further
    [TryToLaunchPreresolveJobs] changes nothing; and when no callback is
    outstanding (and the cap is not zero) the queue and the job table are
    empty. *)
Theorem no_free_slot_while_queued delegate observer network_context profile
    ops :
  Forall wf_op ops →
  ∃ s, run ops (PreconnectManager_new delegate observer network_context
                  profile) = Some s ∧
    (queued_jobs_ s = [] ∨
     inflight_preresolves_count_ s = kMaxInflightPreresolves) ∧
    TryToLaunchPreresolveJobs s = Some s ∧
    ((0 < kMaxInflightPreresolves)%Z → callbacks s = [] →
     queued_jobs_ s = [] ∧
     ∀ id, IDMap.Lookup id (preresolve_jobs_ s) = None).
Proof.
  intros Hwf.
  destruct (run_Exhausted ops _
              (Inv_new delegate observer network_context profile)
              (or_introl eq_refl) Hwf) as (s & Hs & I & He).
  exists s. split; [done|].
  pose proof (inv_cap _ I) as Hcap.
  split; [|split].
  - destruct He as [?|?]; [by left|right; lia].
  - destruct He as [Hq|Hsat].
    + unfold TryToLaunchPreresolveJobs. by rewrite Hq.
    + by apply TryToLaunch_saturated.
  - intros Hpos Hcb.
    assert (queued_jobs_ s = []) as Hq.
    { destruct He as [?|Hsat]; [done|].
      rewrite (inv_inflight _ I), Hcb in Hsat. simpl in Hsat. lia. }
    split; [done|]. intros id. unfold IDMap.Lookup.
    apply eq_None_not_Some. rewrite (inv_dom _ I), Hq, Hcb. simpl.
    apply not_elem_of_nil.
Qed.

(** X5: two queued jobs without a group are submitted in the order of the
    queue: if [x] is in front of [y] in the queue of a reachable state,
    then in every run that follows [y] is not submitted unless [x] was
    submitted before it. *)
Theorem adhoc_jobs_submitted_in_queue_order delegate observer network_context
    profile ops0 s0 x y ops :
  Forall wf_op ops0 →
  run ops0 (PreconnectManager_new delegate observer network_context profile) =
    Some s0 →
  before x y (queued_jobs_ s0) → adhoc s0 x → adhoc s0 y →
  Forall wf_op ops →
  ∃ s evs, run ops s0 = Some s ∧ trace s = trace s0 ++ evs ∧
    (y ∈ admissions evs → before x y (admissions evs)).
Proof.
  intros Hwf0 Hs0 Hb Hx Hy Hwf.
  pose proof (run_Inv _ _ _ _ _ _ Hwf0 Hs0) as I0.
  destruct (run_msteps ops _ I0 Hwf) as (s & Hs & Hr).
  assert (Ord x y (trace s0) s0) as Ho.
  { exists []. rewrite app_nil_r. split; [done|]. left.
    do 3 (split; [done|]). split; apply not_elem_of_nil. }
  destruct (rtc_mstep_Ord _ _ _ _ _ I0 Ho Hr) as (evs & Ht & H).
  exists s, evs. split; [done|]. split; [done|]. intros Hin.
  destruct H as [(_ & _ & _ & _ & ?)|[(_ & _ & _ & ?)|?]]; done.
Qed.

(** *** The loop submits the jobs of live groups in queue order *)

Lemma TryToLaunch_iteration_admit s id q job :
  IDMap.data_ (preresolve_jobs_ s) !! id = Some job →
  (∀ h, PreresolveJob.info job = Some h →
     ∃ i, preresolve_info_ s !! h = Some i ∧
          PreresolveInfo.was_canceled i = false) →
  TryToLaunch_iteration id (set_queue (λ _, q) s) =
    Some (admit_state id q job s).
Proof.
  intros Hjob Hnc.
  unfold TryToLaunch_iteration, IDMap.Lookup. state_simpl. rewrite Hjob. obind.
  unfold admit_state.
  destruct (PreresolveJob.info job) as [h|] eqn:Hinfo.
  - destruct (Hnc h eq_refl) as (i & Hi & Hc). rewrite Hi. obind.
    rewrite Hc. cbn [negb]. rewrite PreresolveUrl_eq. obind.
    unfold if_info, info_update. step_simpl. rewrite Hi. obind.
    step_simpl. rewrite lookup_insert_eq. obind.
    unfold set_info at 1 2. step_simpl.
    rewrite (insert_insert_alter inc_inflight_count dec_queued_count) by done.
    reflexivity.
  - obind. rewrite PreresolveUrl_eq. obind. unfold if_info. reflexivity.
Qed.

Lemma cancelled_false s id job :
  Inv s → IDMap.data_ (preresolve_jobs_ s) !! id = Some job →
  cancelled s id = false →
  ∀ h, PreresolveJob.info job = Some h →
    ∃ i, preresolve_info_ s !! h = Some i ∧
         PreresolveInfo.was_canceled i = false.
Proof.
  intros I Hjob Hc h Hinfo.
  assert (job_group (IDMap.data_ (preresolve_jobs_ s)) id = Some h) as Hg.
  { unfold job_group. by rewrite Hjob. }
  destruct (inv_group _ I _ _ Hg) as [i Hi]. exists i. split; [done|].
  unfold cancelled in Hc. by rewrite Hg, Hi in Hc.
Qed.

Lemma cancelled_admit s id q job id' :
  cancelled (admit_state id q job s) id' = cancelled s id'.
Proof.
  unfold cancelled. step_simpl. rewrite job_group_client.
  destruct (job_group _ id') as [h|]; [|done].
  destruct (PreresolveJob.info job) as [h'|]; [|done].
  rewrite lookup_alter. case_decide; [|done]. subst h'.
  by destruct (preresolve_info_ s !! h).
Qed.

Lemma same_job_refl j : same_job j j.
Proof. by repeat split. Qed.

Lemma same_job_trans j1 j2 j3 : same_job j1 j2 → same_job j2 j3 → same_job j1 j3.
Proof.
  intros (? & ? & ? & ?) (? & ? & ? & ?). repeat split; congruence.
Qed.

Lemma same_group_trans i1 i2 i3 :
  same_group i1 i2 → same_group i2 i3 → same_group i1 i3.
Proof. intros (? & ? & ?) (? & ? & ?). repeat split; congruence. Qed.

Lemma TryToLaunch_loop_saturated q s :
  (kMaxInflightPreresolves ≤ inflight_preresolves_count_ s)%Z →
  TryToLaunch_loop q s = Some s.
Proof.
  intros Hs. destruct q as [|id q]; simpl; [done|].
  by rewrite (proj2 (Z.ltb_ge _ _) Hs).
Qed.

Lemma TryToLaunch_loop_live l q' s :
  Inv s → queued_jobs_ s = l ++ q' →
  (∀ id, id ∈ l → cancelled s id = false) →
  length l ≤ free_slots s →
  ∃ s' evs,
    TryToLaunch_loop (l ++ q') s = TryToLaunch_loop q' s' ∧
    Inv s' ∧
    queued_jobs_ s' = q' ∧
    callbacks s' = callbacks s ++ map (submitted s) l ∧
    inflight_preresolves_count_ s' =
      (inflight_preresolves_count_ s + Z.of_nat (length l))%Z ∧
    trace s' = trace s ++ evs ∧ admissions evs = l ∧
    (∀ id job, IDMap.data_ (preresolve_jobs_ s) !! id = Some job →
       ∃ job', IDMap.data_ (preresolve_jobs_ s') !! id = Some job' ∧
               same_job job job') ∧
    (∀ h i, preresolve_info_ s !! h = Some i →
       ∃ i', preresolve_info_ s' !! h = Some i' ∧ same_group i i') ∧
    rtc mstep s s'.
Proof.
  revert s. induction l as [|id l IH]; intros s I Hq Hlive Hlen.
  - exists s, []. simpl. rewrite !app_nil_r.
    do 4 (split; [done|]). split; [lia|]. do 2 (split; [done|]).
    split; [|split; [|done]].
    + intros id job Hjob. exists job. split; [done|apply same_job_refl].
    + intros h i Hi. exists i. by repeat split.
  - simpl in Hq, Hlen.
    assert (inflight_preresolves_count_ s < kMaxInflightPreresolves)%Z
      as Hlt.
    { unfold free_slots in Hlen. lia. }
    assert (is_Some (IDMap.data_ (preresolve_jobs_ s) !! id)) as [job Hjob].
    { apply (inv_dom _ I). rewrite Hq. left. }
    assert (∀ h, PreresolveJob.info job = Some h →
              ∃ i, preresolve_info_ s !! h = Some i ∧
                   PreresolveInfo.was_canceled i = false) as Hnc.
    { apply (cancelled_false s id); [done|done|]. apply Hlive. left. }
    set (s1 := admit_state id (l ++ q') job s).
    assert (Inv s1) as I1 by by apply admit_Inv.
    assert (inflight_preresolves_count_ s1 =
            (inflight_preresolves_count_ s + 1)%Z) as Hinf.
    { subst s1. step_simpl. rewrite (inv_inflight _ I) in Hlt |- *.
      rewrite size_t_inc_small by done. lia. }
    destruct (IH s1 I1) as (s' & evs & Hloop & I' & Hq' & Hcb & Hinf' & Ht
                            & Hadm & Hjobs & Hinfo & Hr).
    { done. }
    { intros id' Hin. subst s1. rewrite cancelled_admit. apply Hlive.
      by right. }
    { unfold free_slots in *. rewrite Hinf. lia. }
    exists s', (map (pair (Some id)) (admit_acts job s) ++ evs).
    split.
    { change ((id :: l) ++ q') with (id :: (l ++ q')).
      cbn [TryToLaunch_loop]. rewrite (proj2 (Z.ltb_lt _ _) Hlt).
      rewrite (TryToLaunch_iteration_admit s id (l ++ q') job Hjob Hnc).
      obind. exact Hloop. }
    split; [done|]. split; [done|]. split.
    { rewrite Hcb. subst s1. step_simpl. rewrite <- app_assoc. done. }
    split.
    { rewrite Hinf', Hinf. simpl. lia. }
    split.
    { rewrite Ht. subst s1. step_simpl. by rewrite <- app_assoc. }
    split.
    { by rewrite admissions_app, admissions_admit, Hadm. }
    split; [|split; [|eapply rtc_l; [by eapply ms_admit|done]]].
    + intros id0 job0 Hjob0.
      assert (∃ job1, IDMap.data_ (preresolve_jobs_ s1) !! id0 = Some job1 ∧
                      same_job job0 job1) as (job1 & Hjob1 & Hsame).
      { subst s1. step_simpl. rewrite lookup_alter.
        case_decide; [subst id0|]; rewrite Hjob0; eexists;
          (split; [done|]); by repeat split. }
      destruct (Hjobs id0 job1 Hjob1) as (job' & Hjob' & Hsame').
      exists job'. split; [done|]. by eapply same_job_trans.
    + intros h i Hi.
      assert (∃ i1, preresolve_info_ s1 !! h = Some i1 ∧ same_group i i1)
        as (i1 & Hi1 & Hsame).
      { subst s1. step_simpl.
        destruct (PreresolveJob.info job) as [h'|].
        - rewrite lookup_alter. case_decide; [subst h'|]; rewrite Hi;
            eexists; (split; [done|]); by repeat split.
        - exists i. by repeat split. }
      destruct (Hinfo h i1 Hi1) as (i' & Hi' & Hsame').
      exists i'. split; [done|]. by eapply same_group_trans.
Qed.

Lemma rev_lookup {A} (l : list A) i :
  i < length l → rev l !! i = l !! (length l - S i).
Proof. intros. rewrite rev_alt. by apply reverse_lookup. Qed.

Lemma run_reach delegate observer network_context profile ops s :
  Forall wf_op ops →
  run ops (PreconnectManager_new delegate observer network_context profile) =
    Some s →
  Inv s ∧ Exhausted s.
Proof.
  intros Hwf Hs.
  destruct (run_Exhausted ops _
              (Inv_new delegate observer network_context profile)
              (or_introl eq_refl) Hwf) as (s' & Hs' & I & He).
  assert (s' = s) as -> by congruence. done.
Qed.

(** The loop of [StartPreresolveHosts] over the host names [l]: one job
    for each, with consecutive fresh ids, each pushed in front of the
    one before. *)
Lemma add_fronts_spec (l : list string) s :
  let sb := foldl (λ s it,
                add_job true
                  (PreresolveJob.new (GURL_http it) 0
                     kAllowCredentialsOnPreconnectByDefault None) s) s l in
  let n := IDMap.next_id_ (preresolve_jobs_ s) in
  let len := length l in
  network_context_ sb = network_context_ s ∧ profile_ sb = profile_ s ∧
  preresolve_info_ sb = preresolve_info_ s ∧
  inflight_preresolves_count_ sb = inflight_preresolves_count_ s ∧
  callbacks sb = callbacks s ∧
  IDMap.next_id_ (preresolve_jobs_ sb) = n + len ∧
  queued_jobs_ sb = rev (seq n len) ++ queued_jobs_ s ∧
  trace sb = trace s ++ map (λ id, (Some id, JobsAdd)) (seq n len) ∧
  (∀ j it, l !! j = Some it →
     IDMap.data_ (preresolve_jobs_ sb) !! (n + j) =
     Some (PreresolveJob.new (GURL_http it) 0
             kAllowCredentialsOnPreconnectByDefault None)).
Proof.
  induction l as [|it l IH] using rev_ind; simpl.
  - repeat split; try done; try by rewrite ?Nat.add_0_r, ?app_nil_r.
  - rewrite foldl_app. simpl. rewrite length_app. simpl.
    destruct IH as (? & ? & ? & ? & ? & Hn & Hq & Ht & Hnew).
    repeat split; simpl; try done.
    + rewrite Hn. lia.
    + rewrite Hq, Hn, seq_app, rev_app_distr. done.
    + rewrite Ht, Hn, seq_app, map_app, app_assoc. done.
    + intros j it' Hj. rewrite Hn.
      apply lookup_app_Some in Hj as [Hj|[Hge Hj]].
      * pose proof (lookup_lt_Some _ _ _ Hj).
        rewrite lookup_insert_ne by lia. by apply Hnew.
      * destruct (j - length l) as [|?] eqn:E; [|done].
        simpl in Hj. injection Hj as <-.
        replace (IDMap.next_id_ (preresolve_jobs_ s) + j)
          with (IDMap.next_id_ (preresolve_jobs_ s) + length l) by lia.
        apply lookup_insert_eq.
Qed.

(** X6: [StartPreresolveHosts], called in a reachable state with any list
    of host names, makes one resolve-only job for each name; the jobs of
    the first names are submitted at once, in the order of the list, as
    far as there are free slots, and the others wait at the front of the
    queue, in the order of the list, before every job queued earlier. *)
Theorem StartPreresolveHosts_submits_in_order delegate observer
    network_context profile ops0 s hostnames :
  Forall wf_op ops0 →
  run ops0 (PreconnectManager_new delegate observer network_context profile) =
    Some s →
  let n := IDMap.next_id_ (preresolve_jobs_ s) in
  let len := length hostnames in
  let ids := rev (seq n len) in
  let k := min len (free_slots s) in
  ∃ s' evs,
    StartPreresolveHosts hostnames s = Some s' ∧
    queued_jobs_ s' = drop k ids ++ queued_jobs_ s ∧
    callbacks s' = callbacks s ++ map (submitted s) (take k ids) ∧
    trace s' = trace s ++ evs ∧ admissions evs = take k ids ∧
    ∀ j it, hostnames !! j = Some it →
      ids !! j = Some (n + (len - S j)) ∧
      ∃ job, IDMap.Lookup (n + (len - S j)) (preresolve_jobs_ s') = Some job ∧
             same_job (PreresolveJob.new (GURL_http it) 0
                         kAllowCredentialsOnPreconnectByDefault None) job.
Proof.
  intros Hwf0 Hs n len ids k.
  destruct (run_reach _ _ _ _ _ _ Hwf0 Hs) as [I He].
  unfold StartPreresolveHosts.
  pose proof (add_fronts_msteps (rev hostnames) s) as Hr.
  destruct (add_fronts_spec (rev hostnames) s)
    as (Hnc & Hpr & Hi & Hinf & Hcb & Hn & Hq & Ht & Hnew).
  set (sb := foldl _ s (rev hostnames)) in *.
  rewrite length_rev in Hn, Hq, Ht. fold n len in Hn, Hq, Ht, Hnew.
  fold ids in Hq.
  pose proof (rtc_mstep_Inv _ _ I Hr) as Ib.
  assert (length ids = len) as Hlen.
  { unfold ids. by rewrite length_rev, length_seq. }
  assert (free_slots sb = free_slots s) as Hfree.
  { unfold free_slots. by rewrite Hinf. }
  assert (submitted sb = submitted s) as Hsub.
  { unfold submitted, GetNetworkContext. by rewrite Hnc, Hpr. }
  assert (∀ j, j < len →
            ids !! j = Some (n + (len - S j)) ∧
            ∃ it, hostnames !! j = Some it ∧
              IDMap.data_ (preresolve_jobs_ sb) !! (n + (len - S j)) =
              Some (PreresolveJob.new (GURL_http it) 0
                      kAllowCredentialsOnPreconnectByDefault None))
    as Hids.
  { intros j Hj. split.
    - unfold ids. rewrite rev_lookup by (rewrite length_seq; lia).
      rewrite length_seq. fold len. apply lookup_seq_lt. lia.
    - destruct (lookup_lt_is_Some_2 hostnames j Hj) as [it Hit].
      exists it. split; [done|]. apply Hnew.
      rewrite rev_lookup by (fold len; lia). fold len.
      replace (len - S (len - S j)) with j by lia. done. }
  destruct (TryToLaunch_loop_live (take k ids) (drop k ids ++ queued_jobs_ s)
              sb Ib)
    as (s1 & evs & Hloop & I1 & Hq1 & Hcb1 & Hinf1 & Ht1 & Hadm & Hjobs & _).
  { by rewrite app_assoc, take_drop. }
  { intros id Hin. apply elem_of_take in Hin as (j & Hj & Hjk).
    assert (j < len) as Hjl by lia.
    destruct (Hids j Hjl) as (Hidj & it & _ & Hjob).
    assert (id = n + (len - S j)) as -> by congruence.
    unfold cancelled, job_group. by rewrite Hjob. }
  { rewrite length_take, Hlen, Hfree. lia. }
  assert (TryToLaunch_loop (drop k ids ++ queued_jobs_ s) s1 = Some s1)
    as Hstop.
  { destruct (decide (free_slots s ≤ len)) as [Hle|Hgt].
    - apply TryToLaunch_loop_saturated.
      rewrite Hinf1, length_take, Hlen, Hinf.
      pose proof (inv_cap _ I). unfold k, free_slots in *. lia.
    - assert (queued_jobs_ s = []) as ->.
      { destruct He as [?|Hsat]; [done|]. unfold free_slots in Hgt. lia. }
      rewrite drop_ge by lia. done. }
  exists s1, (map (λ id, (Some id, JobsAdd)) (seq n len) ++ evs).
  split.
  { unfold TryToLaunchPreresolveJobs. rewrite Hq.
    rewrite <- (take_drop k ids) at 1. rewrite <- app_assoc.
    by rewrite Hloop. }
  split; [done|]. split; [by rewrite Hcb1, Hcb, Hsub|].
  split; [by rewrite Ht1, Ht, app_assoc|].
  split; [by rewrite admissions_app, admissions_adds, Hadm|].
  intros j it Hit.
  pose proof (lookup_lt_Some _ _ _ Hit) as Hj. fold len in Hj.
  destruct (Hids j Hj) as (Hidj & it' & Hit' & Hjob).
  assert (it' = it) as -> by congruence.
  split; [done|].
  destruct (Hjobs _ _ Hjob) as (job' & Hjob' & Hsame). by exists job'.
Qed.

Lemma submitted_ids s (l : list PreresolveJobId) :
  (map (submitted s) l).*1 = l.
Proof.
  induction l as [|x l IH]; [done|]. by rewrite map_cons, fmap_cons, IH.
Qed.

(** The loop of [Start] over the requests: the job made for the request at
    index [j] gets the id [n + j]. *)
Lemma add_backs_spec (h : string) (requests : list PreconnectRequest.t) s :
  let sb := foldl (λ s request,
                add_job false
                  (PreresolveJob.new (PreconnectRequest.origin request)
                     (PreconnectRequest.num_sockets request)
                     (PreconnectRequest.allow_credentials request) (Some h))
                  s) s requests in
  let n := IDMap.next_id_ (preresolve_jobs_ s) in
  IDMap.next_id_ (preresolve_jobs_ sb) = n + length requests ∧
  ∀ j r, requests !! j = Some r →
    IDMap.data_ (preresolve_jobs_ sb) !! (n + j) =
    Some (PreresolveJob.new (PreconnectRequest.origin r)
            (PreconnectRequest.num_sockets r)
            (PreconnectRequest.allow_credentials r) (Some h)).
Proof.
  induction requests as [|r0 requests IH] using rev_ind; simpl.
  - split; [lia|done].
  - rewrite foldl_app. simpl. rewrite length_app. simpl.
    destruct IH as (Hn & Hnew). split.
    + rewrite Hn. lia.
    + intros j r Hj. rewrite Hn.
      apply lookup_app_Some in Hj as [Hj|[Hge Hj]].
      * pose proof (lookup_lt_Some _ _ _ Hj).
        rewrite lookup_insert_ne by lia. by apply Hnew.
      * destruct (j - length requests) as [|?] eqn:E; [|done].
        simpl in Hj. injection Hj as <-.
        replace (IDMap.next_id_ (preresolve_jobs_ s) + j)
          with (IDMap.next_id_ (preresolve_jobs_ s) + length requests) by lia.
        apply lookup_insert_eq.
Qed.

(** X7: [Start], called in a reachable state for a host that has no group,
    makes the group and one job for each request; the jobs of the first
    requests are submitted at once, in the order of the requests, as far
    as there are free slots, and the others are queued behind every job
    queued earlier, in the order of the requests.  The group's counters
    say how many of its jobs are queued and in flight. *)
Theorem Start_submits_in_order delegate observer network_context profile
    ops0 s url requests :
  Forall wf_op ops0 →
  run ops0 (PreconnectManager_new delegate observer network_context profile) =
    Some s →
  preresolve_info_ s !! host url = None →
  (Z.of_nat (length requests) < size_t_modulus)%Z →
  let n := IDMap.next_id_ (preresolve_jobs_ s) in
  let len := length requests in
  let ids := seq n len in
  let k := min len (free_slots s) in
  ∃ s' evs,
    Start url requests s = Some s' ∧
    queued_jobs_ s' = queued_jobs_ s ++ drop k ids ∧
    callbacks s' = callbacks s ++ map (submitted s) (take k ids) ∧
    trace s' = trace s ++ evs ∧ admissions evs = take k ids ∧
    (∃ i, preresolve_info_ s' !! host url = Some i ∧
          PreresolveInfo.url i = url ∧
          PreresolveInfo.was_canceled i = false ∧
          PreresolveInfo.queued_count i = Z.of_nat (len - k) ∧
          PreresolveInfo.inflight_count i = Z.of_nat k) ∧
    ∀ j r, requests !! j = Some r →
      ∃ job, IDMap.Lookup (n + j) (preresolve_jobs_ s') = Some job ∧
             same_job (PreresolveJob.new (PreconnectRequest.origin r)
                         (PreconnectRequest.num_sockets r)
                         (PreconnectRequest.allow_credentials r)
                         (Some (host url))) job.
Proof.
  intros Hwf0 Hs Hnone Hfit n len ids k.
  destruct (run_reach _ _ _ _ _ _ Hwf0 Hs) as [I He].
  unfold Start. rewrite decide_False by (rewrite Hnone; by intros [? ?]).
  fold (start_state url requests s).
  destruct (start_state_spec url requests s)
    as (_ & _ & Hnc & Hpr & Hi & Hinf & Hcb & Hn & Hq & Ht & Hold & Hnew).
  cbv zeta in Hnc, Hpr, Hi, Hinf, Hcb, Hn, Hq, Ht, Hold, Hnew.
  destruct (add_backs_spec (host url) requests
              (emit None [InfoEmplace (host url)]
                 (set_info (<[host url := PreresolveInfo.new url
                                            (Z.of_nat (length requests))]>) s)))
    as (_ & Hjob).
  cbv zeta in Hjob. fold (start_state url requests s) in Hjob.
  cbn [preresolve_jobs_ emit set_info] in Hjob.
  set (sb := start_state url requests s) in *.
  fold n len in Hn, Hq, Ht, Hold, Hnew, Hjob. fold ids in Hq, Ht.
  cbn [preresolve_info_ trace emit set_info] in Hi, Ht.
  pose proof (start_Inv s url requests I Hnone Hfit) as Ib. fold sb in Ib.
  assert (length ids = len) as Hlen by apply length_seq.
  assert (free_slots sb = free_slots s) as Hfree.
  { unfold free_slots. by rewrite Hinf. }
  assert (submitted sb = submitted s) as Hsub.
  { unfold submitted, GetNetworkContext. by rewrite Hnc, Hpr. }
  assert (∃ s1 evs,
    TryToLaunchPreresolveJobs sb = Some s1 ∧ Inv s1 ∧
    queued_jobs_ s1 = queued_jobs_ s ++ drop k ids ∧
    callbacks s1 = callbacks sb ++ map (submitted sb) (take k ids) ∧
    trace s1 = trace sb ++ evs ∧ admissions evs = take k ids ∧
    (∀ id job, IDMap.data_ (preresolve_jobs_ sb) !! id = Some job →
       ∃ job', IDMap.data_ (preresolve_jobs_ s1) !! id = Some job' ∧
               same_job job job') ∧
    (∀ h i, preresolve_info_ sb !! h = Some i →
       ∃ i', preresolve_info_ s1 !! h = Some i' ∧ same_group i i'))
    as (s1 & evs & Hs1 & I1 & Hq1 & Hcb1 & Ht1 & Hadm & Hjobs & Hinfo).
  { destruct (decide (free_slots s = 0)) as [Hz|Hpos].
    - assert (k = 0) as -> by (unfold k; lia).
      exists sb, []. rewrite drop_0, take_0, !app_nil_r.
      split.
      { apply TryToLaunch_saturated. rewrite Hinf.
        unfold free_slots in Hz. lia. }
      do 5 (split; [done|]). split.
      + intros id job ?. exists job. split; [done|apply same_job_refl].
      + intros h i ?. exists i. by repeat split.
    - assert (queued_jobs_ s = []) as Hqs.
      { destruct He as [?|Hsat]; [done|]. unfold free_slots in Hpos. lia. }
      rewrite Hqs in Hq |- *. rewrite app_nil_l in Hq |- *.
      destruct (TryToLaunch_loop_live (take k ids) (drop k ids) sb Ib)
        as (s1 & evs & Hloop & I1 & Hq1 & Hcb1 & Hinf1 & Ht1 & Hadm & Hjobs
            & Hinfo & _).
      { by rewrite take_drop. }
      { intros id Hin. apply elem_of_take in Hin as (j & Hj & Hjk).
        apply lookup_seq in Hj as [-> Hjl].
        destruct (Hnew (n + j)) as (job & Hjb & Hjinfo); [lia|].
        unfold cancelled, job_group. rewrite Hjb. simpl. rewrite Hjinfo, Hi.
        by rewrite lookup_insert_eq. }
      { rewrite length_take, Hlen, Hfree. lia. }
      exists s1, evs. split.
      { unfold TryToLaunchPreresolveJobs. rewrite Hq.
        rewrite <- (take_drop k ids) at 1. rewrite Hloop.
        destruct (decide (free_slots s ≤ len)) as [Hle|Hgt].
        - apply TryToLaunch_loop_saturated.
          rewrite Hinf1, length_take, Hlen, Hinf.
          pose proof (inv_cap _ I). unfold k, free_slots in *. lia.
        - rewrite drop_ge by lia. done. }
      done. }
  assert (∀ id, id ∈ queued_jobs_ s ++ inflight_jobs s →
            job_group (IDMap.data_ (preresolve_jobs_ s1)) id ≠
              Some (host url)) as Hother.
  { intros id Hin Hg.
    apply (inv_dom _ I) in Hin as Hsome. destruct Hsome as [job Hjb].
    pose proof (inv_fresh _ I id (ex_intro _ job Hjb)) as Hlt. fold n in Hlt.
    assert (IDMap.data_ (preresolve_jobs_ sb) !! id = Some job) as Hjb'.
    { rewrite Hold; [done|lia]. }
    destruct (Hjobs _ _ Hjb') as (job' & Hjb1 & _ & _ & _ & Hsame).
    unfold job_group in Hg. rewrite Hjb1 in Hg. simpl in Hg.
    assert (job_group (IDMap.data_ (preresolve_jobs_ s)) id =
            Some (host url)) as Hg'.
    { unfold job_group. rewrite Hjb. simpl. congruence. }
    destruct (inv_group _ I _ _ Hg') as [? ?]. congruence. }
  assert (∀ id, id ∈ ids →
            job_group (IDMap.data_ (preresolve_jobs_ s1)) id =
              Some (host url)) as Hmine.
  { intros id Hin. apply elem_of_seq in Hin.
    destruct (Hnew id) as (job & Hjb & Hjinfo); [lia|].
    destruct (Hjobs _ _ Hjb) as (job' & Hjb1 & _ & _ & _ & Hsame).
    unfold job_group. rewrite Hjb1. simpl. congruence. }
  exists s1, (map (pair None) [InfoEmplace (host url)] ++
              map (λ id, (Some id, JobsAdd)) ids ++ evs).
  split; [done|]. split; [done|].
  split; [by rewrite Hcb1, Hcb, Hsub|].
  split.
  { rewrite Ht1, Ht. state_simpl. by rewrite <- !app_assoc. }
  split.
  { rewrite !admissions_app. unfold ids at 1.
    rewrite admissions_adds, Hadm. done. }
  split.
  - destruct (Hinfo (host url) (PreresolveInfo.new url (Z.of_nat len)))
      as (i & Hi1 & Hu & Hc & _).
    { rewrite Hi. apply lookup_insert_eq. }
    exists i. split; [done|]. split; [done|]. split; [done|].
    destruct (inv_counts _ I1 _ _ Hi1) as (Hqc & Hic & _).
    rewrite Hqc, Hic, Hq1, Hcb1, Hcb, fmap_app, !group_count_app.
    rewrite (group_count_zero _ _ (queued_jobs_ s)).
    2:{ intros id Hin. apply Hother, elem_of_app. by left. }
    rewrite (group_count_zero _ _ (inflight_jobs s)).
    2:{ intros id Hin. apply Hother, elem_of_app. by right. }
    rewrite (group_count_all _ _ (drop k ids)).
    2:{ intros id Hin. apply Hmine. by eapply subseteq_drop. }
    rewrite submitted_ids.
    rewrite (group_count_all _ _ (take k ids)).
    2:{ intros id Hin. apply Hmine. by eapply subseteq_take. }
    rewrite length_drop, length_take, Hlen. split; f_equal; lia.
  - intros j r Hj.
    destruct (Hjobs _ _ (Hjob j r Hj)) as (job' & Hjb1 & Hsame).
    by exists job'.
Qed.

(** *** When a socket is opened *)

Lemma socket_calls_app l1 l2 :
  socket_calls (l1 ++ l2) = socket_calls l1 ++ socket_calls l2.
Proof. apply filter_app. Qed.

Lemma socket_calls_launch evs :
  Forall (λ e, launch_act e.2) evs → socket_calls evs = [].
Proof.
  induction 1 as [|[j a] evs Ha _ IH]; [done|].
  unfold socket_calls. rewrite filter_cons_False; [exact IH|].
  simpl in *. by destruct a.
Qed.

Lemma socket_calls_PreconnectUrl j s url site num_sockets allow_credentials :
  socket_calls
    (map (pair j) (PreconnectUrl s url site num_sockets allow_credentials)) =
  if GetNetworkContext s
  then [(j, PreconnectSockets num_sockets url
              (load_flags_of allow_credentials) (negb allow_credentials))]
  else [].
Proof.
  unfold PreconnectUrl, load_flags_of.
  by destruct (observer_ s), (GetNetworkContext s), allow_credentials.
Qed.

Lemma lstep_trace s s' :
  lstep s s' →
  ∃ evs, trace s' = trace s ++ evs ∧ Forall (λ e, launch_act e.2) evs.
Proof.
  intros [s0 id q job h i Hq Hjob Hinfo Hi Hc|s0 id q job Hq Hjob Hlt Hnc].
  - exists (map (pair (Some id)) [JobsRemove]). split; [done|].
    by repeat constructor.
  - exists (map (pair (Some id)) (admit_acts job s0)). split; [done|].
    unfold admit_acts.
    destruct (observer_ s0), (GetNetworkContext s0); by repeat constructor.
Qed.

Lemma rtc_lstep_trace s s' :
  rtc lstep s s' →
  ∃ evs, trace s' = trace s ++ evs ∧ Forall (λ e, launch_act e.2) evs.
Proof.
  induction 1 as [s|s s1 s' Hl _ (evs & Ht & Hf)].
  - exists []. by rewrite app_nil_r.
  - destruct (lstep_trace _ _ Hl) as (evs1 & Ht1 & Hf1).
    exists (evs1 ++ evs). split.
    + by rewrite Ht, Ht1, app_assoc.
    + by apply Forall_app.
Qed.

(** What the completion callback of the job [id] does about sockets. *)
Lemma callback_socket_calls s id b rest success :
  Inv s → take_callback id (callbacks s) = Some (b, rest) →
  ∃ job s' evs,
    IDMap.data_ (preresolve_jobs_ s) !! id = Some job ∧
    step (OpCallback id success) s = Some s' ∧
    trace s' = trace s ++ evs ∧
    socket_calls evs =
      if default success b && PreresolveJob.need_preconnect job &&
         negb (cancelled s id) && GetNetworkContext s
      then [(Some id,
             PreconnectSockets (PreresolveJob.num_sockets job)
               (PreresolveJob.url job)
               (load_flags_of (PreresolveJob.allow_credentials job))
               (negb (PreresolveJob.allow_credentials job)))]
      else [].
Proof.
  intros I Ht. cbn [step]. rewrite Ht.
  apply take_callback_Some in Ht as (l1 & l2 & Hcb & ->).
  assert (is_Some (IDMap.data_ (preresolve_jobs_ s) !! id)) as [job Hjob].
  { apply (inv_dom _ I). rewrite Hcb, perm_finish. left. }
  exists job.
  destruct (PreresolveJob.info job) as [h|] eqn:Hinfo.
  - assert (job_group (IDMap.data_ (preresolve_jobs_ s)) id = Some h) as Hg.
    { unfold job_group. rewrite Hjob. done. }
    destruct (inv_group _ I _ _ Hg) as [i Hi].
    destruct (inv_key _ I _ _ Hi) as [Hkey _].
    rewrite (OnPreresolveFinished_group s id _ job h i) by done.
    destruct (TryToLaunch_after s
                (finish_group_state id (l1 ++ l2) job h i
                   (default success b) s) I)
      as (s' & Hs' & Hl & _ & _).
    { by apply rtc_once, ms_finish_group. }
    destruct (rtc_lstep_trace _ _ Hl) as (evs & Ht' & Hf).
    eexists s', _. split; [done|]. split; [done|].
    split; [rewrite Ht'; step_simpl; rewrite <- app_assoc; reflexivity|].
    assert (cancelled s id = PreresolveInfo.was_canceled i) as ->.
    { unfold cancelled. by rewrite Hg, Hi. }
    rewrite socket_calls_app, (socket_calls_launch evs), app_nil_r by done.
    rewrite !map_app, !socket_calls_app.
    unfold finish_need.
    destruct (default success b && PreresolveJob.need_preconnect job &&
              negb (PreresolveInfo.was_canceled i)) eqn:Hneed.
    + rewrite socket_calls_PreconnectUrl.
      destruct (GetNetworkContext s), (observer_ s), (default success b),
        (PreresolveInfo.is_done _), (delegate_ s); reflexivity.
    + destruct (observer_ s), (default success b),
        (PreresolveInfo.is_done _), (delegate_ s); reflexivity.
  - rewrite (OnPreresolveFinished_adhoc s id _ job) by done.
    destruct (TryToLaunch_after s
                (finish_adhoc_state id (l1 ++ l2) job (default success b) s) I)
      as (s' & Hs' & Hl & _ & _).
    { by apply rtc_once, ms_finish_adhoc. }
    destruct (rtc_lstep_trace _ _ Hl) as (evs & Ht' & Hf).
    eexists s', _. split; [done|]. split; [done|].
    split; [rewrite Ht'; step_simpl; rewrite <- app_assoc; reflexivity|].
    assert (cancelled s id = false) as ->.
    { unfold cancelled, job_group. by rewrite Hjob; simpl; rewrite Hinfo. }
    rewrite socket_calls_app, (socket_calls_launch evs), app_nil_r by done.
    rewrite !map_app, !socket_calls_app. cbn [negb]. rewrite andb_true_r.
    destruct (default success b && PreresolveJob.need_preconnect job).
    + rewrite socket_calls_PreconnectUrl.
      destruct (GetNetworkContext s), (observer_ s); reflexivity.
    + destruct (observer_ s); reflexivity.
Qed.

(** X8: the completion callback of a job opens sockets exactly when the
    resolve succeeded, the job asks for at least one socket, its group (if
    it has one) was not cancelled, and there is a network context; then it
    makes one call of [PreconnectSockets], with the socket count and the
    URL of the job, and with the load flags and the privacy mode that go
    with the job's [allow_credentials].  Nothing that runs after it in the
    same callback opens a socket. *)
Theorem callback_opens_sockets_iff_needed delegate observer network_context
    profile ops0 s id b rest success :
  Forall wf_op ops0 →
  run ops0 (PreconnectManager_new delegate observer network_context profile) =
    Some s →
  take_callback id (callbacks s) = Some (b, rest) →
  ∃ job s' evs,
    IDMap.Lookup id (preresolve_jobs_ s) = Some job ∧
    step (OpCallback id success) s = Some s' ∧
    trace s' = trace s ++ evs ∧
    socket_calls evs =
      if default success b && PreresolveJob.need_preconnect job &&
         negb (cancelled s id) && GetNetworkContext s
      then [(Some id,
             PreconnectSockets (PreresolveJob.num_sockets job)
               (PreresolveJob.url job)
               (load_flags_of (PreresolveJob.allow_credentials job))
               (negb (PreresolveJob.allow_credentials job)))]
      else [].
Proof.
  intros Hwf0 Hs Ht.
  pose proof (run_Inv _ _ _ _ _ _ Hwf0 Hs) as I.
  apply (callback_socket_calls s id b rest success I Ht).
Qed.

(** No method changes the delegate, the observer, the network context or
    the profile. *)
Lemma mstep_config s s' :
  mstep s s' →
  delegate_ s' = delegate_ s ∧ observer_ s' = observer_ s ∧
  network_context_ s' = network_context_ s ∧ profile_ s' = profile_ s.
Proof.
  intros [s0 url requests Hnone Hfit|s0 job Hinfo|s0 h' i' Hi'
    |s0 id q job h' i' Hq Hjob Hinfo Hi' Hcan
    |s0 id q job Hq Hjob Hlt Hnc
    |s0 id b l1 l2 job success Hcb Hjob Hinfo
    |s0 id b l1 l2 job h' i' success Hcb Hjob Hinfo Hi']; try done.
  destruct (start_state_spec url requests s0) as (? & ? & ? & ? & _). done.
Qed.

Lemma rtc_mstep_config s s' :
  rtc mstep s s' →
  delegate_ s' = delegate_ s ∧ observer_ s' = observer_ s ∧
  network_context_ s' = network_context_ s ∧ profile_ s' = profile_ s.
Proof.
  induction 1 as [|s s1 s' Hm _ (? & ? & ? & ?)]; [done|].
  destruct (mstep_config _ _ Hm) as (? & ? & ? & ?).
  repeat split; congruence.
Qed.

Lemma rtc_mstep_GetNetworkContext s s' :
  rtc mstep s s' → GetNetworkContext s' = GetNetworkContext s.
Proof.
  intros (_ & _ & Hn & Hp)%rtc_mstep_config.
  unfold GetNetworkContext. by rewrite Hn, Hp.
Qed.

Lemma take_callback_last id b (cbs : list (PreresolveJobId * option bool)) :
  id ∉ cbs.*1 → take_callback id (cbs ++ [(id, b)]) = Some (b, cbs).
Proof.
  induction cbs as [|[id' b'] cbs IH]; intros Hn; simpl.
  - by rewrite decide_True.
  - rewrite fmap_cons in Hn. cbn [fst] in Hn.
    apply not_elem_of_cons in Hn as [Hne Hn].
    rewrite decide_False by done. by rewrite IH.
Qed.

(** A job without a group, pushed to the front in a reachable state with a
    free slot, is submitted at once, and its callback opens the sockets
    the job asks for when the resolve succeeds. *)
Lemma add_front_free_slot s job :
  Inv s → Exhausted s →
  (inflight_preresolves_count_ s < kMaxInflightPreresolves)%Z →
  PreresolveJob.info job = None →
  let n := IDMap.next_id_ (preresolve_jobs_ s) in
  let acts := JobsAdd ::
              (if observer_ s then [OnPreresolveUrl (PreresolveJob.url job)]
               else []) ++
              [if GetNetworkContext s then ResolveHost (PreresolveJob.url job)
               else PostTask false] in
  ∃ s1,
    TryToLaunchPreresolveJobs (add_job true job s) = Some s1 ∧
    queued_jobs_ s1 = [] ∧
    callbacks s1 = callbacks s ++ [submitted s n] ∧
    trace s1 = trace s ++ map (pair (Some n)) acts ∧
    ∀ success, ∃ s2 evs,
      step (OpCallback n success) s1 = Some s2 ∧
      trace s2 = trace s1 ++ evs ∧
      IDMap.Lookup n (preresolve_jobs_ s2) = None ∧
      socket_calls evs =
        if success && PreresolveJob.need_preconnect job && GetNetworkContext s
        then [(Some n,
               PreconnectSockets (PreresolveJob.num_sockets job)
                 (PreresolveJob.url job)
                 (load_flags_of (PreresolveJob.allow_credentials job))
                 (negb (PreresolveJob.allow_credentials job)))]
        else [].
Proof.
  intros I He Hlt Hinfo n acts.
  assert (queued_jobs_ s = []) as Hqs.
  { destruct He as [?|?]; [done|lia]. }
  set (sb := add_job true job s).
  destruct (Inv_next_fresh _ I) as [_ Hfresh]. fold n in Hfresh.
  assert (IDMap.data_ (preresolve_jobs_ sb) !! n = Some job) as Hjob.
  { subst sb. step_simpl. apply lookup_insert_eq. }
  assert (queued_jobs_ sb = [n]) as Hq.
  { subst sb. step_simpl. by rewrite Hqs. }
  set (s1 := admit_state n [] job sb).
  assert (Inv s1) as I1.
  { apply admit_Inv; [by apply front_Inv|done|done|done]. }
  exists s1. split.
  { unfold TryToLaunchPreresolveJobs. rewrite Hq. cbn [TryToLaunch_loop].
    replace (inflight_preresolves_count_ sb <? kMaxInflightPreresolves)%Z
      with true by (symmetry; by apply Z.ltb_lt).
    rewrite (TryToLaunch_iteration_admit sb n [] job Hjob)
      by (intros h; by rewrite Hinfo).
    reflexivity. }
  split; [done|]. split; [done|]. split.
  { subst s1 sb acts. step_simpl. unfold admit_acts, GetNetworkContext.
    step_simpl. by rewrite <- app_assoc. }
  intros success.
  destruct (callback_socket_calls s1 n
              (if GetNetworkContext s then None else Some false)
              (callbacks s) success I1)
    as (job1 & s2 & evs & Hjob1 & Hstep & Ht & Hsock).
  { apply take_callback_last.
    intros Hin. apply Hfresh, elem_of_app. by right. }
  assert (job1 = PreresolveJob.mk (PreresolveJob.url job)
                   (PreresolveJob.num_sockets job)
                   (PreresolveJob.allow_credentials job)
                   (PreresolveJob.info job) (GetNetworkContext s)) as ->.
  { subst s1 sb. revert Hjob1. step_simpl.
    rewrite lookup_alter, decide_True, lookup_insert_eq by done.
    by intros [= <-]. }
  destruct (callback_completes s1 n success I1) as (s2' & Hstep' & _ & Hgone).
  { subst s1 sb. step_simpl. rewrite fmap_app. apply elem_of_app. right.
    left. }
  assert (s2' = s2) as -> by congruence.
  exists s2, evs. split; [done|]. split; [done|]. split; [done|].
  rewrite Hsock.
  assert (cancelled s1 n = false) as ->.
  { unfold cancelled, job_group. subst s1 sb. step_simpl.
    rewrite lookup_alter, decide_True, lookup_insert_eq by done. simpl.
    by rewrite Hinfo. }
  change (GetNetworkContext s1) with (GetNetworkContext s).
  unfold PreresolveJob.need_preconnect. cbn [PreresolveJob.num_sockets
    PreresolveJob.url PreresolveJob.allow_credentials].
  destruct (GetNetworkContext s), success,
    (0 <? PreresolveJob.num_sockets job)%Z; reflexivity.
Qed.

(** X9: [StartPreconnectUrl] for an http or https URL, called in a
    reachable state with a free slot, submits the resolve of the URL's
    origin at once; and when that resolve succeeds (and there is a network
    context) its callback makes exactly one call of [PreconnectSockets],
    for one socket to the origin, with the load flags of the
    [allow_credentials] passed in.  When the resolve fails no socket is
    opened.  Either way the job is removed from the table. *)
Theorem StartPreconnectUrl_opens_one_socket delegate observer network_context
    profile ops0 s url allow_credentials :
  Forall wf_op ops0 →
  run ops0 (PreconnectManager_new delegate observer network_context profile) =
    Some s →
  SchemeIsHTTPOrHTTPS url = true →
  (inflight_preresolves_count_ s < kMaxInflightPreresolves)%Z →
  let n := IDMap.next_id_ (preresolve_jobs_ s) in
  let acts := JobsAdd ::
              (if observer_ s then [OnPreresolveUrl (GetOrigin url)] else []) ++
              [if GetNetworkContext s then ResolveHost (GetOrigin url)
               else PostTask false] in
  ∃ s1,
    StartPreconnectUrl url allow_credentials s = Some s1 ∧
    queued_jobs_ s1 = [] ∧
    callbacks s1 = callbacks s ++ [submitted s n] ∧
    trace s1 = trace s ++ map (pair (Some n)) acts ∧
    ∀ success, ∃ s2 evs,
      step (OpCallback n success) s1 = Some s2 ∧
      trace s2 = trace s1 ++ evs ∧
      IDMap.Lookup n (preresolve_jobs_ s2) = None ∧
      socket_calls evs =
        if success && GetNetworkContext s
        then [(Some n,
               PreconnectSockets 1 (GetOrigin url)
                 (load_flags_of allow_credentials) (negb allow_credentials))]
        else [].
Proof.
  intros Hwf0 Hs Hscheme Hlt n acts.
  destruct (run_reach _ _ _ _ _ _ Hwf0 Hs) as [I He].
  unfold StartPreconnectUrl. rewrite Hscheme. cbn [negb].
  destruct (add_front_free_slot s
              (PreresolveJob.new (GetOrigin url) 1 allow_credentials None)
              I He Hlt eq_refl)
    as (s1 & Hs1 & Hq & Hcb & Ht & Hback).
  exists s1. do 4 (split; [done|]).
  intros success. destruct (Hback success) as (s2 & evs & H1 & H2 & H3 & H4).
  exists s2, evs. do 3 (split; [done|]).
  rewrite H4. by destruct success.
Qed.

(** X10: [StartPreresolveHost] for an http or https URL, called in a
    reachable state with a free slot, submits the resolve of the URL's
    origin at once, and the callback of that resolve opens no socket,
    whatever the outcome: the job is only removed from the table. *)
Theorem StartPreresolveHost_only_resolves delegate observer network_context
    profile ops0 s url :
  Forall wf_op ops0 →
  run ops0 (PreconnectManager_new delegate observer network_context profile) =
    Some s →
  SchemeIsHTTPOrHTTPS url = true →
  (inflight_preresolves_count_ s < kMaxInflightPreresolves)%Z →
  let n := IDMap.next_id_ (preresolve_jobs_ s) in
  let acts := JobsAdd ::
              (if observer_ s then [OnPreresolveUrl (GetOrigin url)] else []) ++
              [if GetNetworkContext s then ResolveHost (GetOrigin url)
               else PostTask false] in
  ∃ s1,
    StartPreresolveHost url s = Some s1 ∧
    queued_jobs_ s1 = [] ∧
    callbacks s1 = callbacks s ++ [submitted s n] ∧
    trace s1 = trace s ++ map (pair (Some n)) acts ∧
    ∀ success, ∃ s2 evs,
      step (OpCallback n success) s1 = Some s2 ∧
      trace s2 = trace s1 ++ evs ∧
      IDMap.Lookup n (preresolve_jobs_ s2) = None ∧
      socket_calls evs = [].
Proof.
  intros Hwf0 Hs Hscheme Hlt n acts.
  destruct (run_reach _ _ _ _ _ _ Hwf0 Hs) as [I He].
  unfold StartPreresolveHost. rewrite Hscheme. cbn [negb].
  destruct (add_front_free_slot s
              (PreresolveJob.new (GetOrigin url) 0
                 kAllowCredentialsOnPreconnectByDefault None)
              I He Hlt eq_refl)
    as (s1 & Hs1 & Hq & Hcb & Ht & Hback).
  exists s1. do 4 (split; [done|]).
  intros success. destruct (Hback success) as (s2 & evs & H1 & H2 & H3 & H4).
  exists s2, evs. do 3 (split; [done|]).
  rewrite H4. by destruct success.
Qed.

(** *** Invariants of the trace *)

Ltac mstep_cases Hm :=
  destruct Hm as [s url requests Hnone Hfit|s job Hinfo|s h' i' Hi'
    |s id q job h' i' Hq Hjob Hinfo Hi' Hcan
    |s id q job Hq Hjob Hlt Hnc
    |s id b l1 l2 job success Hcb Hjob Hinfo
    |s id b l1 l2 job h' i' success Hcb Hjob Hinfo Hi'].

Lemma Forall_tagged (Q : Action → Prop) (j : option PreresolveJobId) acts :
  Forall Q acts → Forall (λ e : Event, Q e.2) (map (pair j) acts).
Proof. induction 1; by constructor. Qed.

Lemma Forall_adds (Q : Action → Prop) n len :
  Q JobsAdd →
  Forall (λ e : Event, Q e.2) (map (λ id, (Some id, JobsAdd)) (seq n len)).
Proof.
  intros HQ. revert n. induction len as [|len IH]; intros n; simpl;
    by constructor.
Qed.

(** The events of a transition. *)
Lemma mstep_events (Q : Action → Prop) s s' :
  Q JobsAdd → Q JobsRemove →
  (∀ h, Q (InfoEmplace h)) →
  (∀ job, Forall Q (admit_acts job s)) →
  (∀ id b l1 l2 job success,
     callbacks s = l1 ++ (id, b) :: l2 →
     IDMap.data_ (preresolve_jobs_ s) !! id = Some job →
     PreresolveJob.info job = None →
     Forall Q
       ((if observer_ s
         then [OnPreresolveFinished_ (PreresolveJob.url job)
                 (default success b)] else []) ++
        (if default success b && PreresolveJob.need_preconnect job
         then PreconnectUrl s (PreresolveJob.url job) GURL_empty
                (PreresolveJob.num_sockets job)
                (PreresolveJob.allow_credentials job)
         else []))) →
  (∀ id b l1 l2 job h i success,
     callbacks s = l1 ++ (id, b) :: l2 →
     IDMap.data_ (preresolve_jobs_ s) !! id = Some job →
     PreresolveJob.info job = Some h →
     preresolve_info_ s !! h = Some i →
     let i' := finish_info job i (default success b) in
     Forall Q
       ((if observer_ s
         then [OnPreresolveFinished_ (PreresolveJob.url job)
                 (default success b)] else []) ++
        (if finish_need job i (default success b)
         then PreconnectUrl s (PreresolveJob.url job) (PreresolveInfo.url i)
                (PreresolveJob.num_sockets job)
                (PreresolveJob.allow_credentials job)
         else []) ++
        (if default success b
         then [StatsEmplaceBack h (finish_record job i (default success b))]
         else []) ++
        (if PreresolveInfo.is_done i'
         then (if delegate_ s
               then [PreconnectFinished (PreresolveInfo.stats i')]
               else []) ++ [InfoErase h]
         else []))) →
  mstep s s' →
  ∃ evs, trace s' = trace s ++ evs ∧ Forall (λ e : Event, Q e.2) evs.
Proof.
  intros Hadd Hrem Hemp Hadm Hadhoc Hgroup Hm. revert Hadm Hadhoc Hgroup.
  mstep_cases Hm; intros Hadm Hadhoc Hgroup.
  - destruct (start_state_spec url requests s)
      as (_ & _ & _ & _ & _ & _ & _ & _ & _ & Ht & _).
    cbv zeta in Ht. cbn [trace emit set_info] in Ht.
    eexists. split; [rewrite Ht, <- app_assoc; reflexivity|].
    apply Forall_app. split; [|by apply Forall_adds].
    apply Forall_tagged. constructor; [apply Hemp|constructor].
  - eexists. split; [reflexivity|].
    apply Forall_tagged. constructor; [done|constructor].
  - exists []. split; [step_simpl; by rewrite app_nil_r|constructor].
  - eexists. split; [reflexivity|].
    apply Forall_tagged. constructor; [done|constructor].
  - eexists. split; [reflexivity|]. apply Forall_tagged, Hadm.
  - eexists. split; [reflexivity|]. apply Forall_tagged.
    rewrite app_assoc. apply Forall_app. split; [by eapply Hadhoc|].
    constructor; [done|constructor].
  - eexists. split; [reflexivity|]. apply Forall_tagged.
    specialize (Hgroup id b l1 l2 job h' i' success Hcb Hjob Hinfo Hi').
    cbv zeta in Hgroup.
    apply Forall_app in Hgroup as [H1 Hgroup].
    apply Forall_app in Hgroup as [H2 Hgroup].
    apply Forall_app in Hgroup as [H3 H4].
    repeat (apply Forall_app; split); try done.
    constructor; [done|constructor].
Qed.

Lemma positive_PreconnectUrl s url site num_sockets allow_credentials :
  (0 < num_sockets)%Z →
  Forall positive_act (PreconnectUrl s url site num_sockets allow_credentials).
Proof.
  intros. unfold PreconnectUrl.
  destruct (observer_ s), (GetNetworkContext s), allow_credentials;
    by repeat constructor.
Qed.

Lemma mstep_positive s s' :
  Inv s → Forall (λ e, positive_act e.2) (trace s) → mstep s s' →
  Forall (λ e, positive_act e.2) (trace s').
Proof.
  intros _ H Hm.
  destruct (mstep_events positive_act s s') as (evs & -> & Hevs);
    try done.
  - intros job. unfold admit_acts.
    destruct (observer_ s), (GetNetworkContext s); by repeat constructor.
  - intros id b l1 l2 job success _ _ _.
    apply Forall_app. split; [destruct (observer_ s); by repeat constructor|].
    destruct (default success b); cbn [andb]; [|constructor].
    destruct (PreresolveJob.need_preconnect job) eqn:Hn; [|constructor].
    apply positive_PreconnectUrl. by apply Z.ltb_lt.
  - intros id b l1 l2 job h i success _ _ _ _ i'.
    apply Forall_app. split; [destruct (observer_ s); by repeat constructor|].
    apply Forall_app. split.
    { unfold finish_need.
      destruct (default success b); cbn [andb]; [|constructor].
      destruct (PreresolveJob.need_preconnect job) eqn:Hn; [|constructor].
      destruct (negb _); [|constructor].
      apply positive_PreconnectUrl. by apply Z.ltb_lt. }
    apply Forall_app. split.
    { destruct (default success b); by repeat constructor. }
    destruct (PreresolveInfo.is_done i'), (delegate_ s); by repeat constructor.
  - by apply Forall_app.
Qed.

(** X11: no call ever asks for zero or a negative number of sockets: in
    every run, each call of [PreconnectSockets], and each preconnect told
    to the observer, carries a positive socket count; the jobs of
    [StartPreresolveHost] and [StartPreresolveHosts], which ask for none,
    only resolve. *)
Theorem sockets_only_in_positive_numbers delegate observer network_context
    profile ops :
  Forall wf_op ops →
  ∃ s, run ops (PreconnectManager_new delegate observer network_context
                  profile) = Some s ∧
    ∀ job a, (job, a) ∈ trace s → positive_act a.
Proof.
  intros Hwf.
  destruct (run_invariant (λ s, Forall (λ e, positive_act e.2) (trace s))
              ops _ mstep_positive
              (Inv_new delegate observer network_context profile)
              (Forall_nil_2 _) Hwf) as (s & Hs & _ & H).
  exists s. split; [done|]. intros job a Hin.
  rewrite Forall_forall in H. apply (H _ Hin).
Qed.

Lemma uncached_PreconnectUrl s url site num_sockets allow_credentials :
  Forall uncached_act (PreconnectUrl s url site num_sockets allow_credentials).
Proof.
  unfold PreconnectUrl.
  destruct (observer_ s), (GetNetworkContext s), allow_credentials;
    by repeat constructor.
Qed.

Lemma uncached_finish_info job i success :
  uncached (PreresolveInfo.stats i) →
  uncached (PreresolveInfo.stats (finish_info job i success)).
Proof.
  intros H. unfold finish_info, uncached. destruct success; [|done].
  simpl. apply Forall_app. split; [done|]. by repeat constructor.
Qed.

Lemma mstep_Uncached s s' : Inv s → Uncached s → mstep s s' → Uncached s'.
Proof.
  intros _ [Hi Ht] Hm. split.
  - clear Ht. revert Hi. mstep_cases Hm; intros Hi h0 i0; step_simpl.
    + destruct (start_state_spec url requests s)
        as (_ & _ & _ & _ & -> & _).
      cbn [preresolve_info_ emit set_info]. rewrite lookup_insert.
      case_decide; [|by apply Hi]. intros [= <-]. constructor.
    + apply Hi.
    + rewrite lookup_insert. case_decide; [|by apply Hi].
      intros [= <-]. exact (Hi h' i' Hi').
    + rewrite lookup_insert. case_decide; [|by apply Hi].
      intros [= <-]. exact (Hi h' i' Hi').
    + destruct (PreresolveJob.info job) as [h1|]; [|by apply Hi].
      rewrite lookup_alter. case_decide; [|by apply Hi]. subst h1.
      destruct (preresolve_info_ s !! h0) as [i1|] eqn:Hi1; [|done].
      intros [= <-]. exact (Hi h0 i1 Hi1).
    + apply Hi.
    + unfold finish_group_state. step_simpl.
      destruct (PreresolveInfo.is_done _).
      * rewrite lookup_delete. case_decide; [done|]. by apply Hi.
      * rewrite lookup_insert. case_decide; [|by apply Hi].
        intros [= <-]. apply uncached_finish_info. exact (Hi h' i' Hi').
  - destruct (mstep_events uncached_act s s') as (evs & -> & Hevs);
      try done.
    + intros job. unfold admit_acts.
      destruct (observer_ s), (GetNetworkContext s); by repeat constructor.
    + intros id b l1 l2 job success _ _ _.
      apply Forall_app. split; [destruct (observer_ s); by repeat constructor|].
      destruct (_ && _); [apply uncached_PreconnectUrl|constructor].
    + intros id b l1 l2 job h i success _ _ _ Hlk i'.
      apply Forall_app. split; [destruct (observer_ s); by repeat constructor|].
      apply Forall_app. split.
      { destruct (finish_need _ _ _); [apply uncached_PreconnectUrl
                                      |constructor]. }
      apply Forall_app. split.
      { destruct (default success b); by repeat constructor. }
      destruct (PreresolveInfo.is_done i'); [|constructor].
      apply Forall_app. split; [|by repeat constructor].
      destruct (delegate_ s); [|constructor].
      constructor; [|constructor]. apply uncached_finish_info.
      exact (Hi h i Hlk).
    + by apply Forall_app.
Qed.

(** X12: no record ever says that a resolve was served from a cache:
    [OnPreresolveFinished] is the only caller of [FinishPreresolve] and
    passes [cached = false], so in every run each record added to the
    stats of a group, and each record of every report delivered to the
    delegate, has [was_preresolve_cached = false]. *)
Theorem no_record_is_cached delegate observer network_context profile ops :
  Forall wf_op ops →
  ∃ s, run ops (PreconnectManager_new delegate observer network_context
                  profile) = Some s ∧
    (∀ st r, st ∈ reports (trace s) →
       r ∈ PreconnectStats.requests_stats st →
       PreconnectedRequestStats.was_preresolve_cached r = false) ∧
    (∀ h i r, preresolve_info_ s !! h = Some i →
       r ∈ PreconnectStats.requests_stats (PreresolveInfo.stats i) →
       PreconnectedRequestStats.was_preresolve_cached r = false).
Proof.
  intros Hwf.
  destruct (run_invariant Uncached ops _ mstep_Uncached
              (Inv_new delegate observer network_context profile))
    as (s & Hs & _ & Hi & Ht); [|done|].
  { split; [done|constructor]. }
  exists s. split; [done|]. split.
  - intros st r Hst Hr. unfold reports in Hst.
    apply list_elem_of_omap in Hst as ([j a] & Hin & Ha).
    rewrite Forall_forall in Ht. specialize (Ht _ Hin).
    simpl in Ha, Ht. destruct a; try done. injection Ha as ->.
    unfold uncached_act, uncached in Ht. rewrite Forall_forall in Ht.
    by apply Ht.
  - intros h i r Hlk Hr. specialize (Hi h i Hlk).
    unfold uncached in Hi. rewrite Forall_forall in Hi. by apply Hi.
Qed.

Lemma mstep_Offline s s' : Inv s → Offline s → mstep s s' → Offline s'.
Proof.
  intros _ (Hg & Hcbs & Hi & Ht) Hm.
  assert (∀ id b l1 l2, callbacks s = l1 ++ (id, b) :: l2 →
            b = Some false ∧
            Forall (λ cb : PreresolveJobId * option bool, cb.2 = Some false)
              (l1 ++ l2)) as Hbound.
  { intros id b l1 l2 E. rewrite E in Hcbs.
    apply Forall_app in Hcbs as [H1 H2].
    apply Forall_cons in H2 as [Hb H2]. split; [done|].
    by apply Forall_app. }
  split; [|split; [|split]].
  - rewrite <- Hg. apply rtc_mstep_GetNetworkContext. by apply rtc_once.
  - clear Hi Ht. revert Hg Hcbs Hbound.
    mstep_cases Hm; intros Hg Hcbs Hbound; step_simpl; try done.
    + destruct (start_state_spec url requests s)
        as (_ & _ & _ & _ & _ & _ & -> & _). done.
    + apply Forall_app. split; [done|]. rewrite Hg. by repeat constructor.
    + by apply (Hbound id b).
    + by apply (Hbound id b).
  - clear Ht. revert Hi Hbound.
    mstep_cases Hm; intros Hi Hbound h0 i0; step_simpl.
    + destruct (start_state_spec url requests s)
        as (_ & _ & _ & _ & -> & _).
      cbn [preresolve_info_ emit set_info]. rewrite lookup_insert.
      case_decide; [|by apply Hi]. by intros [= <-].
    + apply Hi.
    + rewrite lookup_insert. case_decide; [|by apply Hi].
      intros [= <-]. exact (Hi h' i' Hi').
    + rewrite lookup_insert. case_decide; [|by apply Hi].
      intros [= <-]. exact (Hi h' i' Hi').
    + destruct (PreresolveJob.info job) as [h1|]; [|by apply Hi].
      rewrite lookup_alter. case_decide; [|by apply Hi]. subst h1.
      destruct (preresolve_info_ s !! h0) as [i1|] eqn:Hi1; [|done].
      intros [= <-]. exact (Hi h0 i1 Hi1).
    + apply Hi.
    + destruct (Hbound id b l1 l2 Hcb) as [-> _].
      unfold finish_group_state. step_simpl.
      destruct (PreresolveInfo.is_done _).
      * rewrite lookup_delete. case_decide; [done|]. by apply Hi.
      * rewrite lookup_insert. case_decide; [|by apply Hi].
        intros [= <-]. exact (Hi h' i' Hi').
  - destruct (mstep_events offline_act s s') as (evs & -> & Hevs);
      try done.
    + intros job. unfold admit_acts. rewrite Hg.
      destruct (observer_ s); by repeat constructor.
    + intros id b l1 l2 job success Hcb _ _.
      destruct (Hbound id b l1 l2 Hcb) as [-> _]. simpl.
      destruct (observer_ s); by repeat constructor.
    + intros id b l1 l2 job h i success Hcb _ _ Hlk i'.
      destruct (Hbound id b l1 l2 Hcb) as [-> _]. subst i'. simpl.
      apply Forall_app. split; [destruct (observer_ s); by repeat constructor|].
      destruct (PreresolveInfo.is_done _); [|constructor].
      apply Forall_app. split; [|by repeat constructor].
      destruct (delegate_ s); [|constructor].
      constructor; [|constructor]. exact (Hi h i Hlk).
    + by apply Forall_app.
Qed.

(** X13: a manager that has no network context (none was set, and the
    profile is a testing profile) never reaches the network layer: in
    every run it submits no resolve and opens no socket; every job is
    completed by a posted callback that reports failure; no stats record
    is made; and every report delivered to the delegate is empty. *)
Theorem no_network_context_no_network_call delegate observer profile ops :
  AsTestingProfile profile = true →
  Forall wf_op ops →
  ∃ s, run ops (PreconnectManager_new delegate observer false profile) =
         Some s ∧
    (∀ job a, (job, a) ∈ trace s → offline_act a) ∧
    (∀ id b, (id, b) ∈ callbacks s → b = Some false) ∧
    (∀ h i, preresolve_info_ s !! h = Some i →
       PreconnectStats.requests_stats (PreresolveInfo.stats i) = []).
Proof.
  intros Hp Hwf.
  destruct (run_invariant Offline ops _ mstep_Offline
              (Inv_new delegate observer false profile))
    as (s & Hs & _ & _ & Hcbs & Hi & Ht); [|done|].
  { split; [|split; [|split]]; try done; try constructor.
    unfold GetNetworkContext. simpl. by rewrite Hp. }
  exists s. split; [done|]. split; [|split; [|done]].
  - intros job a Hin. rewrite Forall_forall in Ht. apply (Ht _ Hin).
  - intros id b Hin. rewrite Forall_forall in Hcbs. apply (Hcbs _ Hin).
Qed.

(** *** Groups made, erased and reported *)

Lemma count_act_app p l1 l2 :
  count_act p (l1 ++ l2) = count_act p l1 + count_act p l2.
Proof. unfold count_act. by rewrite filter_app, length_app. Qed.

Lemma count_act_cons p j a l :
  count_act p ((j, a) :: l) = (if p a then 1 else 0) + count_act p l.
Proof.
  unfold count_act. rewrite filter_cons. simpl.
  destruct (p a); reflexivity.
Qed.

Lemma count_act_silent p evs :
  (∀ a, group_silent a → p a = false) →
  Forall (λ e : Event, group_silent e.2) evs → count_act p evs = 0.
Proof.
  intros Hp. induction 1 as [|[j a] evs Ha _ IH]; [done|].
  rewrite count_act_cons, IH, (Hp a Ha). done.
Qed.

Lemma silent_emplace h a : group_silent a → is_emplace h a = false.
Proof. by destruct a. Qed.

Lemma silent_erase h a : group_silent a → is_erase h a = false.
Proof. by destruct a. Qed.

Lemma silent_report h a : group_silent a → is_report h a = false.
Proof. by destruct a. Qed.

Lemma silent_PreconnectUrl s url site num_sockets allow_credentials :
  Forall group_silent (PreconnectUrl s url site num_sockets allow_credentials).
Proof.
  unfold PreconnectUrl.
  destruct (observer_ s), (GetNetworkContext s), allow_credentials;
    by repeat constructor.
Qed.

Lemma Accounted_silent s s' evs :
  Accounted s → trace s' = trace s ++ evs → delegate_ s' = delegate_ s →
  Forall (λ e : Event, group_silent e.2) evs →
  (∀ h, is_Some (preresolve_info_ s' !! h) ↔
        is_Some (preresolve_info_ s !! h)) →
  Accounted s'.
Proof.
  intros H Ht Hd Hevs Hinfo h. destruct (H h) as [H1 H2].
  rewrite Ht, Hd, !count_act_app.
  rewrite (count_act_silent (is_emplace h) evs (silent_emplace h) Hevs).
  rewrite (count_act_silent (is_erase h) evs (silent_erase h) Hevs).
  rewrite (count_act_silent (is_report h) evs (silent_report h) Hevs).
  rewrite !Nat.add_0_r, (decide_ext _ _ 1 0 (Hinfo h)). done.
Qed.

Lemma mstep_Accounted s s' : Inv s → Accounted s → mstep s s' → Accounted s'.
Proof.
  intros I H Hm. revert I H. mstep_cases Hm; intros I H.
  - destruct (start_state_spec url requests s)
      as (Hd & _ & _ & _ & Hi & _ & _ & _ & _ & Ht & _).
    cbv zeta in Hd, Hi, Ht. cbn [preresolve_info_ trace emit set_info] in Hi, Ht.
    intros h. destruct (H h) as [H1 H2].
    rewrite Ht, Hd, Hi, !count_act_app.
    rewrite !(count_act_silent _ (map _ (seq _ _)))
      by (auto using silent_emplace, silent_erase, silent_report;
          by apply Forall_adds).
    cbn [map]. rewrite !count_act_cons. cbn [is_emplace is_erase is_report].
    unfold count_act at 2 4 6. cbn [filter list_filter length].
    rewrite !Nat.add_0_r, H1, H2.
    rewrite (decide_ext _ _ 1 0 (lookup_insert_is_Some' _ _ _ _)).
    case_bool_decide as E.
    + subst h. rewrite (decide_True (P := _ ∨ _)) by by left.
      rewrite (decide_False (P := is_Some _))
        by (rewrite Hnone; by intros [? ?]).
      split; lia.
    + rewrite (decide_ext (_ ∨ _) (is_Some (preresolve_info_ s !! h)) 1 0)
        by tauto.
      split; lia.
  - apply (Accounted_silent s _
             (map (pair (Some (IDMap.next_id_ (preresolve_jobs_ s))))
                [JobsAdd]));
      [done|reflexivity|reflexivity|by repeat constructor|done].
  - apply (Accounted_silent s _ []); [done| |reflexivity|constructor|].
    + step_simpl. by rewrite app_nil_r.
    + intros h. step_simpl. rewrite lookup_insert_is_Some'.
      split; [intros [<-|?]; [by eexists|done]|by right].
  - apply (Accounted_silent s _ (map (pair (Some id)) [JobsRemove]));
      [done|reflexivity|reflexivity|by repeat constructor|].
    intros h. step_simpl. rewrite lookup_insert_is_Some'.
    split; [intros [<-|?]; [by eexists|done]|by right].
  - apply (Accounted_silent s _ (map (pair (Some id)) (admit_acts job s)));
      [done|reflexivity|reflexivity| |].
    + apply Forall_tagged. unfold admit_acts.
      destruct (observer_ s), (GetNetworkContext s); by repeat constructor.
    + intros h. step_simpl. destruct (PreresolveJob.info job); [|done].
      apply lookup_alter_is_Some.
  - eapply (Accounted_silent s); [done|reflexivity|reflexivity| |done].
    apply Forall_tagged. apply Forall_app. split.
    { destruct (observer_ s); by repeat constructor. }
    apply Forall_app. split; [|by repeat constructor].
    destruct (_ && _); [apply silent_PreconnectUrl|constructor].
  - destruct (inv_key _ I _ _ Hi') as [Hk1 Hk2].
    set (i1 := finish_info job i' (default success b)).
    assert (host (PreconnectStats.url (PreresolveInfo.stats i1)) = h') as Hk.
    { subst i1. unfold finish_info. destruct (default success b); simpl;
        congruence. }
    assert (Forall group_silent
              ((if observer_ s
                then [OnPreresolveFinished_ (PreresolveJob.url job)
                        (default success b)] else []) ++
               (if finish_need job i' (default success b)
                then PreconnectUrl s (PreresolveJob.url job)
                       (PreresolveInfo.url i') (PreresolveJob.num_sockets job)
                       (PreresolveJob.allow_credentials job)
                else []) ++
               (if default success b
                then [StatsEmplaceBack h'
                        (finish_record job i' (default success b))]
                else []) ++ [JobsRemove])) as Hsil.
    { apply Forall_app. split.
      { destruct (observer_ s); by repeat constructor. }
      apply Forall_app. split.
      { destruct (finish_need _ _ _); [apply silent_PreconnectUrl
                                      |constructor]. }
      apply Forall_app. split; [|by repeat constructor].
      destruct (default success b); by repeat constructor. }
    match type of Hsil with Forall _ ?l => set (SIL := l) in * end.
    assert (trace (finish_group_state id (l1 ++ l2) job h' i'
                     (default success b) s) =
            trace s ++ map (pair (Some id)) SIL ++
            map (pair (Some id))
              (if PreresolveInfo.is_done i1
               then (if delegate_ s
                     then [PreconnectFinished (PreresolveInfo.stats i1)]
                     else []) ++ [InfoErase h']
               else [])) as Ht.
    { unfold finish_group_state. step_simpl. subst SIL. fold i1.
      by rewrite <- map_app, <- !app_assoc. }
    assert (delegate_ (finish_group_state id (l1 ++ l2) job h' i'
                         (default success b) s) = delegate_ s) as Hd
      by reflexivity.
    assert (preresolve_info_ (finish_group_state id (l1 ++ l2) job h' i'
                                (default success b) s) =
            (if PreresolveInfo.is_done i1 then delete h' else <[h' := i1]>)
              (preresolve_info_ s)) as Hi by reflexivity.
    destruct (PreresolveInfo.is_done i1) eqn:Hdone.
    + intros h. destruct (H h) as [H1 H2]. rewrite Ht, Hd, Hi.
      rewrite !count_act_app.
      rewrite (count_act_silent (is_emplace h) (map (pair (Some id)) SIL))
        by (auto using silent_emplace; by apply Forall_tagged).
      rewrite (count_act_silent (is_erase h) (map (pair (Some id)) SIL))
        by (auto using silent_erase; by apply Forall_tagged).
      rewrite (count_act_silent (is_report h) (map (pair (Some id)) SIL))
        by (auto using silent_report; by apply Forall_tagged).
      rewrite (decide_ext _ _ 1 0 (lookup_delete_is_Some _ _ _)).
      rewrite H1, H2.
      assert (∀ p, count_act p
                (map (pair (Some id))
                   ((if delegate_ s
                     then [PreconnectFinished (PreresolveInfo.stats i1)]
                     else []) ++ [InfoErase h'])) =
              (if delegate_ s
               then (if p (PreconnectFinished (PreresolveInfo.stats i1))
                     then 1 else 0)
               else 0) + (if p (InfoErase h') then 1 else 0)) as Hc.
      { intros p. rewrite map_app, count_act_app. cbn [map].
        rewrite count_act_cons. unfold count_act at 2.
        cbn [filter list_filter length]. rewrite Nat.add_0_r. f_equal.
        destruct (delegate_ s); [|done]. cbn [map].
        rewrite count_act_cons. unfold count_act.
        cbn [filter list_filter length]. lia. }
      rewrite !Hc. cbn [is_emplace is_erase is_report]. rewrite Hk.
      case_bool_decide as E.
      * subst h. rewrite (decide_False (P := _ ∧ _)) by (intros [? _]; done).
        rewrite (decide_True (P := is_Some _)) by by eexists.
        destruct (delegate_ s); split; lia.
      * rewrite (decide_ext (_ ∧ _) (is_Some (preresolve_info_ s !! h)) 1 0)
          by tauto.
        destruct (delegate_ s); split; lia.
    + apply (Accounted_silent s _ (map (pair (Some id)) SIL)); [done| |done| |].
      * by rewrite Ht, app_nil_r.
      * by apply Forall_tagged.
      * intros h. rewrite Hi, lookup_insert_is_Some'.
        split; [intros [<-|?]; [by eexists|done]|by right].
Qed.

(** X14: groups are accounted for: in every run, for every host, the
    number of groups made for the host is the number of groups erased plus
    one if the host has a group in the map, so a host never has two
    groups; when the manager has a delegate, the reports delivered for the
    host are as many as the groups erased, one for each; and without a
    delegate nothing is reported and the groups are erased all the same. *)
Theorem groups_made_erased_reported delegate observer network_context profile
    ops :
  Forall wf_op ops →
  ∃ s, run ops (PreconnectManager_new delegate observer network_context
                  profile) = Some s ∧
    ∀ h,
      count_act (is_emplace h) (trace s) =
        count_act (is_erase h) (trace s) +
        (if decide (is_Some (preresolve_info_ s !! h)) then 1 else 0) ∧
      count_act (is_report h) (trace s) =
        (if delegate then count_act (is_erase h) (trace s) else 0).
Proof.
  intros Hwf.
  pose proof (Inv_new delegate observer network_context profile) as I0.
  destruct (run_invariant Accounted ops _ mstep_Accounted I0)
    as (s & Hs & _ & H); [|done|].
  { intros h. split; [done|]. simpl. by destruct delegate. }
  destruct (run_msteps ops _ I0 Hwf) as (s' & Hs' & Hr).
  assert (s' = s) as -> by congruence.
  destruct (rtc_mstep_config _ _ Hr) as (Hd & _).
  exists s. split; [done|]. intros h. destruct (H h) as [H1 H2].
  split; [done|]. by rewrite H2, Hd.
Qed.
(** *** A group made without requests *)

(** What a transition has to do to leave the group as it is. *)
Lemma Stuck_step h t0 s s' E :
  Stuck h t0 s →
  trace s' = trace s ++ E →
  count_act (is_report h) E = 0 → count_act (is_erase h) E = 0 →
  (∀ i, preresolve_info_ s !! h = Some i →
     ∃ i', preresolve_info_ s' !! h = Some i' ∧
           PreresolveInfo.is_done i' = PreresolveInfo.is_done i) →
  (∀ id, job_group (IDMap.data_ (preresolve_jobs_ s')) id = Some h →
     job_group (IDMap.data_ (preresolve_jobs_ s)) id = Some h) →
  Stuck h t0 s'.
Proof.
  intros ((i & Hi & Hd) & Hg & evs & Ht0 & Hr & He) Ht HR HE Hinfo Hjobs.
  split; [|split].
  - destruct (Hinfo i Hi) as (i' & Hi' & Hd'). exists i'. by rewrite Hd'.
  - intros id ?%Hjobs. by apply (Hg id).
  - exists (evs ++ E). split; [by rewrite Ht, Ht0, app_assoc|].
    rewrite !count_act_app. lia.
Qed.

Lemma Stuck_silent h t0 s s' E :
  Stuck h t0 s →
  trace s' = trace s ++ E →
  Forall (λ e : Event, group_silent e.2) E →
  (∀ i, preresolve_info_ s !! h = Some i →
     ∃ i', preresolve_info_ s' !! h = Some i' ∧
           PreresolveInfo.is_done i' = PreresolveInfo.is_done i) →
  (∀ id, job_group (IDMap.data_ (preresolve_jobs_ s')) id = Some h →
     job_group (IDMap.data_ (preresolve_jobs_ s)) id = Some h) →
  Stuck h t0 s'.
Proof.
  intros Hs Ht HE. apply (Stuck_step h t0 s s' E Hs Ht).
  - by apply count_act_silent; [apply silent_report|].
  - by apply count_act_silent; [apply silent_erase|].
Qed.

Lemma mstep_Stuck h t0 s s' :
  Inv s → Stuck h t0 s → mstep s s' → Stuck h t0 s'.
Proof.
  intros I Hl Hm. revert I Hl. mstep_cases Hm; intros I Hl.
  - destruct (start_state_spec url requests s)
      as (_ & _ & _ & _ & Hi & _ & _ & _ & _ & Ht & Hold & Hnew).
    cbv zeta in Hi, Ht, Hold, Hnew.
    cbn [preresolve_info_ trace emit set_info] in Hi, Ht.
    assert (host url ≠ h) as Hne.
    { intros <-. destruct Hl as ((i & Hi0 & _) & _). congruence. }
    eapply (Stuck_step h t0 s); [done| | | | |].
    + rewrite Ht, <- app_assoc. reflexivity.
    + rewrite count_act_app. cbn [map]. rewrite count_act_cons.
      rewrite (count_act_silent _ (map _ (seq _ _)))
        by (auto using silent_report; by apply Forall_adds).
      done.
    + rewrite count_act_app. cbn [map]. rewrite count_act_cons.
      rewrite (count_act_silent _ (map _ (seq _ _)))
        by (auto using silent_erase; by apply Forall_adds).
      done.
    + intros i Hi0. exists i. by rewrite Hi, lookup_insert_ne.
    + intros id0. unfold job_group.
      destruct (decide (IDMap.next_id_ (preresolve_jobs_ s) ≤ id0 <
                        IDMap.next_id_ (preresolve_jobs_ s) + length requests))
        as [Hid|Hid].
      * destruct (Hnew id0 Hid) as (j & -> & Hj). simpl. congruence.
      * by rewrite Hold.
  - eapply (Stuck_silent h t0 s); [done|reflexivity| | |].
    + by repeat constructor.
    + intros i Hi0. by exists i.
    + intros id0. step_simpl. unfold job_group. rewrite lookup_insert.
      case_decide; [|done]. simpl. congruence.
  - eapply (Stuck_silent h t0 s _ []); [done| |constructor| |].
    + step_simpl. by rewrite app_nil_r.
    + intros i Hi0. step_simpl. rewrite lookup_insert.
      case_decide; [|by exists i]. subst h'. eexists. split; [done|].
      assert (i' = i) as -> by congruence. done.
    + done.
  - assert (h' ≠ h) as Hne.
    { intros ->. destruct Hl as (_ & Hg & _). apply (Hg id).
      unfold job_group. by rewrite Hjob. }
    eapply (Stuck_silent h t0 s); [done|reflexivity| | |].
    + by repeat constructor.
    + intros i Hi0. exists i. step_simpl. by rewrite lookup_insert_ne.
    + intros id0. step_simpl. by intros [_ ?]%job_group_delete.
  - eapply (Stuck_silent h t0 s); [done|reflexivity| | |].
    + apply Forall_tagged. unfold admit_acts.
      destruct (observer_ s), (GetNetworkContext s); by repeat constructor.
    + intros i Hi0. step_simpl.
      destruct (PreresolveJob.info job) as [h'|] eqn:Hinfo; [|by exists i].
      rewrite lookup_alter. case_decide; [|by exists i]. subst h'.
      destruct Hl as (_ & Hg & _). destruct (Hg id).
      unfold job_group. by rewrite Hjob.
    + intros id0. step_simpl. by rewrite job_group_client.
  - eapply (Stuck_silent h t0 s); [done|reflexivity| | |].
    + apply Forall_tagged. apply Forall_app. split.
      { destruct (observer_ s); by repeat constructor. }
      apply Forall_app. split; [|by repeat constructor].
      destruct (_ && _); [apply silent_PreconnectUrl|constructor].
    + intros i Hi0. by exists i.
    + intros id0. step_simpl. by intros [_ ?]%job_group_delete.
  - assert (h' ≠ h) as Hne.
    { intros ->. destruct Hl as (_ & Hg & _). apply (Hg id).
      unfold job_group. by rewrite Hjob. }
    destruct (inv_key _ I _ _ Hi') as [Hk1 Hk2].
    set (i1 := finish_info job i' (default success b)).
    assert (host (PreconnectStats.url (PreresolveInfo.stats i1)) = h') as Hk.
    { subst i1. unfold finish_info. destruct (default success b); simpl;
        congruence. }
    assert (∀ p, (∀ a, group_silent a → p a = false) →
              p (InfoErase h') = false →
              p (PreconnectFinished (PreresolveInfo.stats i1)) = false →
              count_act p
                (map (pair (Some id))
                   ((if observer_ s
                     then [OnPreresolveFinished_ (PreresolveJob.url job)
                             (default success b)] else []) ++
                    (if finish_need job i' (default success b)
                     then PreconnectUrl s (PreresolveJob.url job)
                            (PreresolveInfo.url i')
                            (PreresolveJob.num_sockets job)
                            (PreresolveJob.allow_credentials job)
                     else []) ++
                    (if default success b
                     then [StatsEmplaceBack h'
                             (finish_record job i' (default success b))]
                     else []) ++
                    [JobsRemove] ++
                    (if PreresolveInfo.is_done i1
                     then (if delegate_ s
                           then [PreconnectFinished (PreresolveInfo.stats i1)]
                           else []) ++ [InfoErase h']
                     else []))) = 0) as Hc.
    { intros p Hp HpE HpR.
      rewrite !map_app, !count_act_app.
      rewrite (count_act_silent p (map _ (if observer_ s then _ else _)))
        by first [done | apply Forall_tagged;
                         destruct (observer_ s); by repeat constructor].
      rewrite (count_act_silent p (map _ (if finish_need _ _ _ then _ else _)))
        by first [done | apply Forall_tagged;
                         destruct (finish_need _ _ _);
                         [apply silent_PreconnectUrl|constructor]].
      rewrite (count_act_silent p (map _ (if default success b then _ else _)))
        by first [done | apply Forall_tagged;
                         destruct (default success b); by repeat constructor].
      cbn [map]. rewrite count_act_cons, (Hp JobsRemove Logic.I).
      unfold count_act at 1. cbn [filter list_filter length].
      destruct (PreresolveInfo.is_done i1); [|done].
      rewrite map_app, count_act_app. cbn [map]. rewrite count_act_cons, HpE.
      destruct (delegate_ s); [|done].
      cbn [map]. rewrite count_act_cons, HpR. done. }
    eapply (Stuck_step h t0 s); [done|reflexivity| | | |].
    + apply Hc; [apply silent_report|done|].
      cbn [is_report]. rewrite Hk. by apply bool_decide_eq_false.
    + apply Hc; [apply silent_erase| |done].
      cbn [is_erase]. by apply bool_decide_eq_false.
    + intros i Hi0. exists i. split; [|done].
      unfold finish_group_state. step_simpl.
      destruct (PreresolveInfo.is_done _).
      * by rewrite lookup_delete_ne.
      * by rewrite lookup_insert_ne.
    + intros id0. step_simpl. by intros [_ ?]%job_group_delete.
Qed.

Lemma rtc_mstep_Stuck h t0 s s' :
  Inv s → Stuck h t0 s → rtc mstep s s' → Stuck h t0 s'.
Proof.
  intros I Hl Hr. revert I Hl.
  induction Hr as [|s s1 s' Hm Hr IH]; intros I Hl; [done|].
  apply IH; [by eapply mstep_Inv|by eapply mstep_Stuck].
Qed.

(** X15: [Start] with an empty list of requests, for a host without a
    group, makes a group that is done from the start and that no job will
    ever complete: in every run that follows the group stays in the map,
    it is never reported to the delegate and never erased, and every
    further [Start] for a URL of that host returns at once. *)
Theorem Start_without_requests_leaves_group delegate observer network_context
    profile ops0 s0 url ops :
  Forall wf_op ops0 →
  run ops0 (PreconnectManager_new delegate observer network_context profile) =
    Some s0 →
  preresolve_info_ s0 !! host url = None →
  Forall wf_op ops →
  ∃ s evs,
    run (OpStart url [] :: ops) s0 = Some s ∧
    trace s = trace s0 ++ (None, InfoEmplace (host url)) :: evs ∧
    (∃ i, preresolve_info_ s !! host url = Some i ∧
          PreresolveInfo.is_done i = true) ∧
    count_act (is_report (host url)) evs = 0 ∧
    count_act (is_erase (host url)) evs = 0 ∧
    ∀ url' requests, host url' = host url → Start url' requests s = Some s.
Proof.
  intros Hwf0 Hs0 Hnone Hwf.
  destruct (run_reach _ _ _ _ _ _ Hwf0 Hs0) as [I0 He].
  set (s1 := start_state url [] s0).
  assert (Start url [] s0 = Some s1) as Hstart.
  { unfold Start. rewrite decide_False by (rewrite Hnone; by intros [? ?]).
    fold (start_state url [] s0). fold s1.
    destruct He as [Hq|Hsat].
    - unfold TryToLaunchPreresolveJobs. subst s1.
      unfold start_state. cbn [foldl]. state_simpl. by rewrite Hq.
    - by apply TryToLaunch_saturated. }
  assert (Inv s1) as I1.
  { apply start_Inv; [done|done|]. simpl. unfold size_t_modulus. lia. }
  assert (Stuck (host url) (trace s1) s1) as Hst.
  { split; [|split].
    - eexists. split; [apply lookup_insert_eq|done].
    - intros id Hg. destruct (inv_group _ I0 _ _ Hg) as [? ?]. congruence.
    - exists []. by rewrite app_nil_r. }
  destruct (run_msteps ops _ I1 Hwf) as (s & Hs & Hr).
  destruct (rtc_mstep_Stuck _ _ _ _ I1 Hst Hr)
    as (Hi & _ & evs & Ht & HR & HE).
  exists s, evs. split.
  { cbn [run step]. rewrite Hstart. exact Hs. }
  split.
  { rewrite Ht. subst s1. unfold start_state. cbn [foldl]. state_simpl.
    by rewrite <- app_assoc. }
  do 3 (split; [done|]).
  intros url' requests Hh. unfold Start. rewrite Hh.
  rewrite decide_True; [done|]. destruct Hi as (i & -> & _). by eexists.
Qed.

(** X16: [Stop] only marks the group: the group of the URL's host gets
    [was_canceled = true] and keeps its URL, its two counters and its
    stats; every other group, the queue, the job table, the outstanding
    callbacks, the in-flight counter, the trace, the delegate, the
    observer, the network context and the profile are as before (and so is
    everything when the host has no group).  So no resolve in flight is
    aborted and no queued job is removed by [Stop] itself.  A second [Stop]
    for the same host changes nothing more, and two [Stop]s can be
    swapped. *)
Theorem Stop_only_marks_the_group (s : State) url url' :
  (∃ s', Stop url s = Some s' ∧ Stop url s' = Some s' ∧
     delegate_ s' = delegate_ s ∧ observer_ s' = observer_ s ∧
     network_context_ s' = network_context_ s ∧ profile_ s' = profile_ s ∧
     preresolve_jobs_ s' = preresolve_jobs_ s ∧
     queued_jobs_ s' = queued_jobs_ s ∧
     callbacks s' = callbacks s ∧
     inflight_preresolves_count_ s' = inflight_preresolves_count_ s ∧
     trace s' = trace s ∧
     ∀ h, preresolve_info_ s' !! h =
          if decide (h = host url)
          then (λ i, PreresolveInfo.mk (PreresolveInfo.url i)
                       (PreresolveInfo.queued_count i)
                       (PreresolveInfo.inflight_count i) true
                       (PreresolveInfo.stats i)) <$> preresolve_info_ s !! h
          else preresolve_info_ s !! h) ∧
  Stop url s ≫= Stop url' = Stop url' s ≫= Stop url.
Proof.
  split.
  - unfold Stop. destruct (preresolve_info_ s !! host url) as [i|] eqn:Hi.
    + eexists. split; [reflexivity|]. state_simpl.
      rewrite lookup_insert_eq. split.
      { f_equal. apply state_ext; state_simpl; try done.
        by rewrite insert_insert_eq. }
      do 9 (split; [done|]).
      intros h. rewrite lookup_insert. case_decide as E.
      * subst h. rewrite decide_True by done. by rewrite Hi.
      * rewrite decide_False by done. done.
    + exists s. rewrite Hi. do 11 (split; [done|]).
      intros h. case_decide; [subst h; by rewrite Hi|done].
  - unfold Stop.
    destruct (preresolve_info_ s !! host url) as [i|] eqn:Hi;
      destruct (preresolve_info_ s !! host url') as [i'|] eqn:Hi'; obind;
      state_simpl; rewrite ?Hi, ?Hi'; try done.
    destruct (decide (host url = host url')) as [E|E].
    + rewrite E in Hi |- *. assert (i' = i) as -> by congruence.
      by rewrite !lookup_insert_eq.
    + rewrite !lookup_insert_ne by done. rewrite Hi, Hi'.
      f_equal. apply state_ext; state_simpl; try done.
      by apply insert_insert_ne.
    + by rewrite lookup_insert_ne, Hi' by (intros E; congruence).
    + by rewrite lookup_insert_ne, Hi by (intros E; congruence).
Qed.

(** *** When a group is reported *)

Lemma reports_launch evs :
  Forall (λ e : Event, launch_act e.2) evs → reports evs = [].
Proof.
  induction 1 as [|[j a] evs Ha _ IH]; [done|].
  unfold reports in *. cbn [omap list_omap]. rewrite IH.
  simpl in *. by destruct a.
Qed.

(** The loop makes and erases no group, and changes only counters. *)
Lemma lstep_info s s' h :
  lstep s s' →
  match preresolve_info_ s !! h with
  | Some i => ∃ i', preresolve_info_ s' !! h = Some i' ∧ same_group i i'
  | None => preresolve_info_ s' !! h = None
  end.
Proof.
  intros [s0 id q job h' i' Hq Hjob Hinfo Hi' Hc|s0 id q job Hq Hjob Hlt Hnc];
    step_simpl.
  - rewrite lookup_insert. case_decide as E.
    + subst h'. rewrite Hi'. eexists. split; [done|]. by repeat split.
    + destruct (preresolve_info_ s0 !! h) as [i|]; [|done].
      exists i. by repeat split.
  - destruct (PreresolveJob.info job) as [h'|].
    + rewrite lookup_alter. case_decide as E.
      * subst h'. destruct (preresolve_info_ s0 !! h) as [i|]; [|done].
        eexists. split; [done|]. by repeat split.
      * destruct (preresolve_info_ s0 !! h) as [i|]; [|done].
        exists i. by repeat split.
    + destruct (preresolve_info_ s0 !! h) as [i|]; [|done].
      exists i. by repeat split.
Qed.

Lemma rtc_lstep_info s s' h :
  rtc lstep s s' →
  match preresolve_info_ s !! h with
  | Some i => ∃ i', preresolve_info_ s' !! h = Some i' ∧ same_group i i'
  | None => preresolve_info_ s' !! h = None
  end.
Proof.
  induction 1 as [s|s s1 s' Hl _ IH].
  - destruct (preresolve_info_ s !! h) as [i|]; [|done].
    exists i. by repeat split.
  - pose proof (lstep_info _ _ h Hl) as H1.
    destruct (preresolve_info_ s !! h) as [i|].
    + destruct H1 as (i1 & Hi1 & Hs1). rewrite Hi1 in IH.
      destruct IH as (i' & Hi' & Hs'). exists i'. split; [done|].
      by eapply same_group_trans.
    + by rewrite H1 in IH.
Qed.

(** X17: the completion callback of a job of a group reports the group
    exactly when the job is the last job of the group in the table.  Then
    (with a delegate) one report is delivered, the stats of the group with
    the record of this job if its resolve succeeded, and the group is
    erased.  While another job of the group is queued or in flight nothing
    is reported and the group, with the same stats, stays in the map. *)
Theorem group_reported_with_its_last_job delegate observer network_context
    profile ops0 s id b rest job h success :
  Forall wf_op ops0 →
  run ops0 (PreconnectManager_new delegate observer network_context profile) =
    Some s →
  take_callback id (callbacks s) = Some (b, rest) →
  IDMap.Lookup id (preresolve_jobs_ s) = Some job →
  PreresolveJob.info job = Some h →
  ∃ i s' evs,
    preresolve_info_ s !! h = Some i ∧
    step (OpCallback id success) s = Some s' ∧
    trace s' = trace s ++ evs ∧
    let st := PreresolveInfo.stats (finish_info job i (default success b)) in
    ((∀ id' job', id' ≠ id →
        IDMap.Lookup id' (preresolve_jobs_ s) = Some job' →
        PreresolveJob.info job' ≠ Some h) →
     reports evs = (if delegate then [st] else []) ∧
     preresolve_info_ s' !! h = None) ∧
    (∀ id' job', id' ≠ id →
       IDMap.Lookup id' (preresolve_jobs_ s) = Some job' →
       PreresolveJob.info job' = Some h →
       reports evs = [] ∧
       ∃ i', preresolve_info_ s' !! h = Some i' ∧
             PreresolveInfo.stats i' = st).
Proof.
  intros Hwf0 Hs Htake Hjob Hinfo. unfold IDMap.Lookup in Hjob.
  pose proof (Inv_new delegate observer network_context profile) as I00.
  destruct (run_msteps ops0 _ I00 Hwf0) as (s0' & Hs0' & Hr0).
  assert (s0' = s) as -> by congruence.
  pose proof (rtc_mstep_Inv _ _ I00 Hr0) as I.
  destruct (rtc_mstep_config _ _ Hr0) as (Hdel & _).
  cbn [delegate_ PreconnectManager_new] in Hdel.
  cbn [step]. rewrite Htake.
  apply take_callback_Some in Htake as (l1 & l2 & Hcb & ->).
  assert (job_group (IDMap.data_ (preresolve_jobs_ s)) id = Some h) as Hg.
  { unfold job_group. rewrite Hjob. done. }
  destruct (inv_group _ I _ _ Hg) as [i Hi].
  destruct (inv_key _ I _ _ Hi) as [Hkey _].
  rewrite (OnPreresolveFinished_group s id _ job h i) by done.
  set (i1 := finish_info job i (default success b)).
  set (s1 := finish_group_state id (l1 ++ l2) job h i (default success b) s).
  assert (mstep s s1) as Hm by by apply ms_finish_group.
  pose proof (mstep_Inv _ _ I Hm) as I1.
  destruct (TryToLaunch_after s s1 I) as (s' & Hs' & Hl & _ & _).
  { by apply rtc_once. }
  destruct (rtc_lstep_trace _ _ Hl) as (evs & Ht' & Hf).
  pose proof (rtc_lstep_info _ _ h Hl) as Hinfo'.
  assert (preresolve_info_ s1 =
          (if PreresolveInfo.is_done i1 then delete h else <[h := i1]>)
            (preresolve_info_ s)) as Hi1 by reflexivity.
  assert (IDMap.data_ (preresolve_jobs_ s1) =
          delete id (IDMap.data_ (preresolve_jobs_ s))) as Hj1 by reflexivity.
  assert (PreresolveInfo.is_done i1 = true ↔
          ∀ id' job', id' ≠ id →
            IDMap.data_ (preresolve_jobs_ s) !! id' = Some job' →
            PreresolveJob.info job' ≠ Some h) as Hdone.
  { split.
    - intros Hd id' job' Hne Hjob' Hinfo1.
      assert (job_group (IDMap.data_ (preresolve_jobs_ s1)) id' = Some h)
        as Hg1.
      { unfold job_group. rewrite Hj1, lookup_delete_ne by done.
        by rewrite Hjob'. }
      destruct (inv_group _ I1 _ _ Hg1) as [i2 Hi2].
      rewrite Hi1, Hd, lookup_delete_eq in Hi2. done.
    - intros Hlast.
      destruct (PreresolveInfo.is_done i1) eqn:Hd; [done|exfalso].
      assert (preresolve_info_ s1 !! h = Some i1) as Hlk.
      { rewrite Hi1. apply lookup_insert_eq. }
      destruct (inv_counts _ I1 _ _ Hlk) as (Hqc & Hic & _).
      assert (∀ id', job_group (IDMap.data_ (preresolve_jobs_ s1)) id' ≠
                     Some h) as Hno.
      { intros id'. unfold job_group. rewrite Hj1.
        destruct (decide (id' = id)) as [->|Hne].
        - by rewrite lookup_delete_eq.
        - rewrite lookup_delete_ne by done.
          destruct (IDMap.data_ (preresolve_jobs_ s) !! id') as [job'|] eqn:E;
            [|done].
          simpl. by apply (Hlast id' job'). }
      rewrite !group_count_zero in Hqc, Hic by (intros; apply Hno).
      unfold PreresolveInfo.is_done in Hd. rewrite Hqc, Hic in Hd.
      done. }
  assert (reports (map (pair (Some id))
            ((if observer_ s
              then [OnPreresolveFinished_ (PreresolveJob.url job)
                      (default success b)] else []) ++
             (if finish_need job i (default success b)
              then PreconnectUrl s (PreresolveJob.url job)
                     (PreresolveInfo.url i) (PreresolveJob.num_sockets job)
                     (PreresolveJob.allow_credentials job)
              else []) ++
             (if default success b
              then [StatsEmplaceBack h
                      (finish_record job i (default success b))]
              else []) ++ [JobsRemove])) = []) as Hsil.
  { apply reports_none. apply Forall_app. split.
    { destruct (observer_ s); by repeat constructor. }
    apply Forall_app. split.
    { destruct (finish_need _ _ _); [apply not_report_PreconnectUrl
                                    |constructor]. }
    apply Forall_app. split; [|by repeat constructor].
    destruct (default success b); by repeat constructor. }
  eexists i, s', _. split; [done|]. split; [done|].
  split.
  { rewrite Ht'. subst s1. unfold finish_group_state. step_simpl. fold i1.
    rewrite <- app_assoc. reflexivity. }
  cbv zeta. fold i1.
  rewrite reports_app, (reports_launch evs Hf), app_nil_r.
  rewrite !app_assoc, map_app, reports_app, <- !app_assoc, Hsil, app_nil_l.
  split.
  - intros Hlast. apply Hdone in Hlast. rewrite Hlast in Hi1 |- *.
    split.
    + rewrite Hdel. by destruct delegate.
    + rewrite Hi1, lookup_delete_eq in Hinfo'. done.
  - intros id' job' Hne Hjob' Hinfo1.
    destruct (PreresolveInfo.is_done i1) eqn:Hd.
    { by destruct (proj1 Hdone eq_refl id' job' Hne Hjob'). }
    split; [done|].
    rewrite Hi1, lookup_insert_eq in Hinfo'.
    destruct Hinfo' as (i' & Hi' & _ & _ & Hst). by exists i'.
Qed.

(** *** The jobs drain *)

Lemma lstep_table s s' id :
  lstep s s' →
  is_Some (IDMap.data_ (preresolve_jobs_ s') !! id) →
  is_Some (IDMap.data_ (preresolve_jobs_ s) !! id).
Proof.
  intros [s0 id0 q job h i Hq Hjob Hinfo Hi Hc|s0 id0 q job Hq Hjob Hlt Hnc];
    step_simpl.
  - by intros [_ ?]%lookup_delete_is_Some.
  - by intros ?%lookup_alter_is_Some.
Qed.

Lemma rtc_lstep_table s s' id :
  rtc lstep s s' →
  is_Some (IDMap.data_ (preresolve_jobs_ s') !! id) →
  is_Some (IDMap.data_ (preresolve_jobs_ s) !! id).
Proof.
  induction 1 as [|s s1 s' Hl _ IH]; [done|].
  intros H. by eapply lstep_table, IH.
Qed.

(** A completion callback takes one job out of the table and adds
    none. *)
Lemma callback_shrinks s id success :
  Inv s → id ∈ inflight_jobs s →
  ∃ s', step (OpCallback id success) s = Some s' ∧ Inv s' ∧ Exhausted s' ∧
        length (queued_jobs_ s' ++ inflight_jobs s') <
        length (queued_jobs_ s ++ inflight_jobs s).
Proof.
  intros I Hin. cbn [step].
  destruct (take_callback id (callbacks s)) as [[b rest]|] eqn:Ht.
  2:{ by apply take_callback_None in Ht. }
  apply take_callback_Some in Ht as (l1 & l2 & Hcb & ->).
  assert (is_Some (IDMap.data_ (preresolve_jobs_ s) !! id)) as [job Hjob].
  { apply (inv_dom _ I), elem_of_app. by right. }
  assert (∃ s1 s', OnPreresolveFinished id (default success b)
                     (set_callbacks (λ _, l1 ++ l2) s) = Some s' ∧
                   mstep s s1 ∧ rtc lstep s1 s' ∧ rtc mstep s s' ∧
                   Exhausted s' ∧
                   IDMap.data_ (preresolve_jobs_ s1) =
                     delete id (IDMap.data_ (preresolve_jobs_ s)))
    as (s1 & s' & Hs' & Hm & Hl & Hr & He & Hj1).
  { destruct (PreresolveJob.info job) as [h|] eqn:Hinfo.
    - assert (job_group (IDMap.data_ (preresolve_jobs_ s)) id = Some h) as Hg.
      { unfold job_group. rewrite Hjob. done. }
      destruct (inv_group _ I _ _ Hg) as [i Hi].
      destruct (inv_key _ I _ _ Hi) as [Hkey _].
      rewrite (OnPreresolveFinished_group s id _ job h i) by done.
      pose proof (ms_finish_group s id b l1 l2 job h i success
                    Hcb Hjob Hinfo Hi) as Hm.
      destruct (TryToLaunch_after s _ I (rtc_once _ _ Hm))
        as (s' & Hs' & Hl & Hr & He).
      by eexists _, s'.
    - rewrite (OnPreresolveFinished_adhoc s id _ job) by done.
      pose proof (ms_finish_adhoc s id b l1 l2 job success Hcb Hjob Hinfo)
        as Hm.
      destruct (TryToLaunch_after s _ I (rtc_once _ _ Hm))
        as (s' & Hs' & Hl & Hr & He).
      by eexists _, s'. }
  pose proof (rtc_mstep_Inv _ _ I Hr) as I'.
  exists s'. split; [done|]. split; [done|]. split; [done|].
  assert (∀ x, x ∈ queued_jobs_ s' ++ inflight_jobs s' →
               x ≠ id ∧ x ∈ queued_jobs_ s ++ inflight_jobs s) as Hsub.
  { intros x Hx. apply (inv_dom _ I') in Hx.
    apply (rtc_lstep_table _ _ _ Hl) in Hx.
    rewrite Hj1 in Hx. apply lookup_delete_is_Some in Hx as [Hne Hx].
    split; [done|]. by apply (inv_dom _ I). }
  assert (id :: (queued_jobs_ s' ++ inflight_jobs s') ⊆+
          queued_jobs_ s ++ inflight_jobs s) as Hsm.
  { apply NoDup_submseteq.
    - apply NoDup_cons. split; [|apply I'].
      intros Hx. by destruct (Hsub _ Hx).
    - intros x [->|Hx]%elem_of_cons.
      + apply elem_of_app. by right.
      + by destruct (Hsub _ Hx). }
  apply submseteq_length in Hsm. simpl in Hsm. lia.
Qed.

Lemma drain_by_callbacks n s :
  (0 < kMaxInflightPreresolves)%Z →
  Inv s → Exhausted s →
  length (queued_jobs_ s ++ inflight_jobs s) ≤ n →
  ∃ ops s',
    Forall is_callback ops ∧ length ops ≤ n ∧
    run ops s = Some s' ∧
    callbacks s' = [] ∧ queued_jobs_ s' = [] ∧
    IDMap.data_ (preresolve_jobs_ s') = ∅.
Proof.
  intros Hpos. revert s. induction n as [|n IH]; intros s I He Hn.
  - exists [], s. split; [constructor|]. split; [done|]. split; [done|].
    rewrite length_app, length_fmap in Hn.
    assert (callbacks s = []) as Hcb by (apply nil_length_inv; lia).
    assert (queued_jobs_ s = []) as Hq by (apply nil_length_inv; lia).
    do 2 (split; [done|]).
    apply map_empty. intros id. apply eq_None_not_Some.
    rewrite (inv_dom _ I), Hq, Hcb. apply not_elem_of_nil.
  - destruct (callbacks s) as [|[id b] cbs] eqn:Hcb.
    + assert (queued_jobs_ s = []) as Hq.
      { destruct He as [?|Hsat]; [done|].
        rewrite (inv_inflight _ I), Hcb in Hsat. simpl in Hsat. lia. }
      exists [], s. split; [constructor|]. split; [simpl; lia|].
      do 3 (split; [done|]).
      apply map_empty. intros id. apply eq_None_not_Some.
      rewrite (inv_dom _ I), Hq, Hcb. apply not_elem_of_nil.
    + destruct (callback_shrinks s id true I) as (s1 & Hs1 & I1 & He1 & Hlt).
      { rewrite Hcb, fmap_cons. left. }
      rewrite Hcb in Hlt.
      destruct (IH s1 I1 He1) as (ops & s' & Hops & Hlen & Hrun & Hfin);
        [lia|].
      exists (OpCallback id true :: ops), s'.
      split; [by constructor|]. split; [simpl; lia|].
      split; [|done]. cbn [run]. rewrite Hs1. exact Hrun.
Qed.

(** X18: the manager drains: from every reachable state, running a
    completion callback for each job in flight, one after the other and at
    most once for each job of the table, leads to a state with no
    outstanding callback, an empty queue and an empty job table (the cap
    being at least one).  So no job is stranded in the queue when the
    resolves come back. *)
Theorem jobs_drain delegate observer network_context profile ops0 s :
  (0 < kMaxInflightPreresolves)%Z →
  Forall wf_op ops0 →
  run ops0 (PreconnectManager_new delegate observer network_context profile) =
    Some s →
  ∃ ops s',
    Forall is_callback ops ∧
    length ops ≤ length (queued_jobs_ s) + length (callbacks s) ∧
    run ops s = Some s' ∧
    callbacks s' = [] ∧ queued_jobs_ s' = [] ∧
    ∀ id, IDMap.Lookup id (preresolve_jobs_ s') = None.
Proof.
  intros Hpos Hwf0 Hs.
  destruct (run_reach _ _ _ _ _ _ Hwf0 Hs) as [I He].
  destruct (drain_by_callbacks _ s Hpos I He (le_n _))
    as (ops & s' & Hops & Hlen & Hrun & Hcb & Hq & Hj).
  exists ops, s'. split; [done|]. split.
  { by rewrite length_app, length_fmap in Hlen. }
  do 3 (split; [done|]).
  intros id. unfold IDMap.Lookup. by rewrite Hj.
Qed.

(** *** Invariants of the code *)

(** The transitions allow any job to be pushed to the front; the methods
    push new jobs only.  An invariant that needs this is proved for the
    steps of the methods. *)
Section CodeInvariant.

Variable P : State → Prop.

Hypothesis P_start : ∀ s url requests,
  Inv s → P s → preresolve_info_ s !! host url = None →
  (Z.of_nat (length requests) < size_t_modulus)%Z →
  P (start_state url requests s).
Hypothesis P_front : ∀ s url num_sockets allow_credentials,
  Inv s → P s →
  P (add_job true
       (PreresolveJob.new url num_sockets allow_credentials None) s).
Hypothesis P_stop : ∀ s h i,
  Inv s → P s → preresolve_info_ s !! h = Some i →
  P (set_info (<[h := set_was_canceled i]>) s).
Hypothesis P_launch : ∀ s s', Inv s → P s → lstep s s' → P s'.
Hypothesis P_adhoc : ∀ s id b l1 l2 job success,
  Inv s → P s → callbacks s = l1 ++ (id, b) :: l2 →
  IDMap.data_ (preresolve_jobs_ s) !! id = Some job →
  PreresolveJob.info job = None →
  P (finish_adhoc_state id (l1 ++ l2) job (default success b) s).
Hypothesis P_group : ∀ s id b l1 l2 job h i success,
  Inv s → P s → callbacks s = l1 ++ (id, b) :: l2 →
  IDMap.data_ (preresolve_jobs_ s) !! id = Some job →
  PreresolveJob.info job = Some h →
  preresolve_info_ s !! h = Some i →
  P (finish_group_state id (l1 ++ l2) job h i (default success b) s).

Lemma launch_inv s s' : Inv s → P s → rtc lstep s s' → Inv s' ∧ P s'.
Proof.
  intros I H Hl. revert I H.
  induction Hl as [|s s1 s' Hl _ IH]; intros I H; [done|].
  apply IH; [by eapply mstep_Inv, lstep_mstep|by eapply P_launch].
Qed.

Lemma TryToLaunch_inv s :
  Inv s → P s → ∃ s', TryToLaunchPreresolveJobs s = Some s' ∧ Inv s' ∧ P s'.
Proof.
  intros I H.
  destruct (TryToLaunch_after s s I (rtc_refl _ _)) as (s' & Hs' & Hl & _).
  exists s'. split; [done|]. by apply (launch_inv s).
Qed.

Lemma add_fronts_inv (l : list string) s :
  Inv s → P s →
  let s' := foldl (λ s it,
                add_job true
                  (PreresolveJob.new (GURL_http it) 0
                     kAllowCredentialsOnPreconnectByDefault None) s) s l in
  Inv s' ∧ P s'.
Proof.
  revert s. induction l as [|it l IH]; intros s I H; simpl; [done|].
  apply IH; [by apply front_Inv|by apply P_front].
Qed.

Lemma step_inv_quiet op s :
  Inv s → P s → wf_op op → not_stop op →
  ∃ s', step op s = Some s' ∧ Inv s' ∧ P s'.
Proof.
  intros I H Hwf Hns. destruct op as [url requests|url|hostnames|url allow|url
                                     |id success]; simpl.
  - unfold Start.
    destruct (decide (is_Some (preresolve_info_ s !! host url))) as [|Hn].
    { by exists s. }
    apply eq_None_not_Some in Hn.
    apply TryToLaunch_inv; [by apply start_Inv|by apply P_start].
  - unfold StartPreresolveHost.
    destruct (negb (SchemeIsHTTPOrHTTPS url)); [by exists s|].
    apply TryToLaunch_inv; [by apply front_Inv|by apply P_front].
  - unfold StartPreresolveHosts.
    destruct (add_fronts_inv (rev hostnames) s I H) as [I1 H1].
    by apply TryToLaunch_inv.
  - unfold StartPreconnectUrl.
    destruct (negb (SchemeIsHTTPOrHTTPS url)); [by exists s|].
    apply TryToLaunch_inv; [by apply front_Inv|by apply P_front].
  - done.
  - destruct (take_callback id (callbacks s)) as [[b rest]|] eqn:Ht;
      [|by exists s].
    apply take_callback_Some in Ht as (l1 & l2 & Hcb & ->).
    assert (is_Some (IDMap.data_ (preresolve_jobs_ s) !! id)) as [job Hjob].
    { apply (inv_dom _ I). rewrite Hcb, perm_finish. left. }
    destruct (PreresolveJob.info job) as [h|] eqn:Hinfo.
    + assert (job_group (IDMap.data_ (preresolve_jobs_ s)) id = Some h) as Hg.
      { unfold job_group. rewrite Hjob. done. }
      destruct (inv_group _ I _ _ Hg) as [i Hi].
      destruct (inv_key _ I _ _ Hi) as [Hkey _].
      rewrite (OnPreresolveFinished_group s id _ job h i) by done.
      apply TryToLaunch_inv; [|by apply P_group].
      eapply mstep_Inv; [done|]. by apply ms_finish_group.
    + rewrite (OnPreresolveFinished_adhoc s id _ job) by done.
      apply TryToLaunch_inv; [|by apply P_adhoc].
      eapply mstep_Inv; [done|]. by apply ms_finish_adhoc.
Qed.

Lemma run_inv_quiet ops s :
  Inv s → P s → Forall wf_op ops → Forall not_stop ops →
  ∃ s', run ops s = Some s' ∧ Inv s' ∧ P s'.
Proof.
  revert s. induction ops as [|op ops IH]; intros s I H Hwf Hns; simpl.
  - by exists s.
  - apply Forall_cons in Hwf as [Hop Hops].
    apply Forall_cons in Hns as [Hn Hns].
    destruct (step_inv_quiet op s I H Hop Hn) as (s1 & -> & I1 & H1). obind.
    by apply IH.
Qed.

Lemma step_inv op s :
  Inv s → P s → wf_op op → ∃ s', step op s = Some s' ∧ Inv s' ∧ P s'.
Proof.
  intros I H Hwf.
  destruct op as [url requests|url|hostnames|url allow|url|id success];
    try (by apply step_inv_quiet).
  simpl. unfold Stop.
  destruct (preresolve_info_ s !! host url) as [i|] eqn:Hi.
  - eexists. split; [done|]. split; [by eapply stop_Inv|by apply P_stop].
  - by exists s.
Qed.

Lemma run_inv ops s :
  Inv s → P s → Forall wf_op ops → ∃ s', run ops s = Some s' ∧ Inv s' ∧ P s'.
Proof.
  revert s. induction ops as [|op ops IH]; intros s I H Hwf; simpl.
  - by exists s.
  - apply Forall_cons in Hwf as [Hop Hops].
    destruct (step_inv op s I H Hop) as (s1 & -> & I1 & H1). obind.
    by apply IH.
Qed.

End CodeInvariant.

(** *** The resolve client of a job *)

Lemma ClientHeld_rest (l1 l2 : list (PreresolveJobId * option bool)) id b id0 :
  id0 ≠ id →
  bool_decide (id0 ∈ (l1 ++ l2).*1) =
  bool_decide (id0 ∈ (l1 ++ (id, b) :: l2).*1).
Proof.
  intros Hne. apply bool_decide_ext.
  rewrite !fmap_app, fmap_cons, !elem_of_app, elem_of_cons.
  cbn [fst]. tauto.
Qed.

(** X19: a job holds a resolve client exactly while it is in flight (and
    the manager has a network context): after every run the
    [resolve_host_client] of a queued job is null, that of a job in flight
    is non-null when there is a network context, and null when the failure
    was posted instead. *)
Theorem resolve_client_held_while_in_flight delegate observer network_context
    profile ops :
  Forall wf_op ops →
  ∃ s, run ops (PreconnectManager_new delegate observer network_context
                  profile) = Some s ∧
    ∀ id job, IDMap.Lookup id (preresolve_jobs_ s) = Some job →
      (id ∈ queued_jobs_ s →
       PreresolveJob.resolve_host_client job = false) ∧
      (id ∈ inflight_jobs s →
       PreresolveJob.resolve_host_client job = GetNetworkContext s).
Proof.
  intros Hwf.
  assert (∃ s, run ops (PreconnectManager_new delegate observer
                          network_context profile) = Some s ∧
               Inv s ∧ ClientHeld s) as (s & Hs & I & H).
  2:{ exists s. split; [done|]. intros id job Hjob.
      rewrite (H id job Hjob). split.
      - intros Hq. rewrite bool_decide_eq_false_2; [done|].
        intros Hf. pose proof (inv_nodup _ I) as Hnd.
        apply NoDup_app in Hnd as (_ & Hdis & _). by apply (Hdis id).
      - intros Hf. by rewrite bool_decide_eq_true_2. }
  apply (run_inv ClientHeld); [| | | | | |apply Inv_new|done|done].
  - intros s url requests I H Hnone Hfit id0 job0.
    destruct (start_state_spec url requests s)
      as (_ & _ & Hnc & Hpr & _ & _ & Hcb & _ & _ & _ & Hold & _).
    cbv zeta in Hnc, Hpr, Hcb, Hold. rewrite Hcb.
    replace (GetNetworkContext (start_state url requests s))
      with (GetNetworkContext s)
      by (unfold GetNetworkContext; by rewrite Hnc, Hpr).
    destruct (add_backs_spec (host url) requests
                (emit None [InfoEmplace (host url)]
                   (set_info (<[host url := PreresolveInfo.new url
                                              (Z.of_nat (length requests))]>)
                      s)))
      as (_ & Hnew).
    cbv zeta in Hnew. fold (start_state url requests s) in Hnew.
    cbn [preresolve_jobs_ emit set_info] in Hnew.
    destruct (decide (IDMap.next_id_ (preresolve_jobs_ s) ≤ id0 <
                      IDMap.next_id_ (preresolve_jobs_ s) + length requests))
      as [Hid|Hid].
    + destruct (lookup_lt_is_Some_2 requests
                  (id0 - IDMap.next_id_ (preresolve_jobs_ s))) as [r Hr];
        [lia|].
      specialize (Hnew _ _ Hr).
      replace (IDMap.next_id_ (preresolve_jobs_ s) +
               (id0 - IDMap.next_id_ (preresolve_jobs_ s))) with id0
        in Hnew by lia.
      rewrite Hnew. intros [= <-].
      cbn [PreresolveJob.resolve_host_client PreresolveJob.new].
      rewrite bool_decide_eq_false_2; [done|].
      intros Hin.
      assert (is_Some (IDMap.data_ (preresolve_jobs_ s) !! id0)) as Hs.
      { apply (inv_dom _ I), elem_of_app. by right. }
      apply (inv_fresh _ I) in Hs. lia.
    + rewrite Hold by done. apply H.
  - intros s url n allow I H id0 job0.
    destruct (Inv_next_fresh _ I) as [_ Hfresh].
    step_simpl. rewrite lookup_insert. case_decide as E; [|apply H].
    subst id0. intros [= <-].
    rewrite bool_decide_eq_false_2; [done|].
    intros Hin. apply Hfresh, elem_of_app. by right.
  - intros s h i I H Hi id0 job0. apply H.
  - intros s s' I H Hl id0 job0. revert H.
    destruct Hl as [s0 id q job h i Hq Hjob Hinfo Hi Hc
                   |s0 id q job Hq Hjob Hlt Hnc]; intros H; step_simpl.
    + intros [_ Hj]%lookup_delete_Some. by apply H.
    + change (GetNetworkContext (admit_state id q job s0))
        with (GetNetworkContext s0).
      rewrite fmap_app. cbn [fmap list_fmap fst].
      rewrite lookup_alter. case_decide as E.
      * subst id0. rewrite Hjob. intros [= <-].
        cbn [PreresolveJob.resolve_host_client].
        rewrite bool_decide_eq_true_2; [by destruct (GetNetworkContext s0)|].
        apply elem_of_app. right. left.
      * intros Hj. rewrite (H _ _ Hj). f_equal. apply bool_decide_ext.
        rewrite elem_of_app, list_elem_of_singleton.
        split; [by left|intros [?|?]; [done|congruence]].
  - intros s id b l1 l2 job success I H Hcb Hjob Hinfo id0 job0.
    step_simpl. intros [Hne Hj]%lookup_delete_Some. rewrite (H _ _ Hj).
    rewrite Hcb. f_equal. symmetry. by apply ClientHeld_rest.
  - intros s id b l1 l2 job h i success I H Hcb Hjob Hinfo Hi id0 job0.
    step_simpl. intros [Hne Hj]%lookup_delete_Some. rewrite (H _ _ Hj).
    rewrite Hcb. f_equal. symmetry. by apply ClientHeld_rest.
Qed.

(** *** The queued jobs of a cancelled group *)

Lemma Unsubmitted_step W t0 s s' E :
  Unsubmitted W t0 s → trace s' = trace s ++ E →
  (∀ id, W id → id ∉ admissions E) →
  (∀ id, W id → id ∈ inflight_jobs s' → id ∈ inflight_jobs s) →
  Unsubmitted W t0 s'.
Proof.
  intros (Hf & evs & Ht & H) Ht' HE Hf'. split.
  { intros id Hid Hin. by apply (Hf id Hid), Hf'. }
  exists (evs ++ E). split.
  { by rewrite Ht', Ht, app_assoc. }
  intros id Hid. rewrite admissions_app, elem_of_app.
  intros [?|?]; [by apply (H id)|by apply (HE id)].
Qed.

Lemma mstep_Unsubmitted W h t0 s s' :
  Inv s → Watch W h t0 s → Unsubmitted W t0 s → mstep s s' →
  Unsubmitted W t0 s'.
Proof.
  intros I (_ & Hw & _) Hu Hm.
  assert (∀ (j : option PreresolveJobId) acts,
            Forall (λ a, match a with
                         | ResolveHost _ | PostTask _ => False
                         | _ => True
                         end) acts →
            ∀ id, W id → id ∉ admissions (map (pair j) acts)) as Hquiet.
  { intros j acts Hf id _. rewrite admissions_none by done.
    apply not_elem_of_nil. }
  assert (∀ (l1 l2 : list (PreresolveJobId * option bool)) id b x,
            x ∈ (l1 ++ l2).*1 → x ∈ (l1 ++ (id, b) :: l2).*1) as Hrest.
  { intros l1 l2 id b x.
    rewrite !fmap_app, fmap_cons, !elem_of_app, elem_of_cons. tauto. }
  revert I Hw Hu. mstep_cases Hm; intros I Hw Hu.
  - destruct (start_state_spec url requests s)
      as (_ & _ & _ & _ & _ & _ & Hcb & _ & _ & Ht & _).
    cbv zeta in Hcb, Ht. cbn [trace emit set_info] in Ht.
    eapply (Unsubmitted_step W t0 s); [done| | |].
    + rewrite Ht, <- app_assoc. reflexivity.
    + intros id _. rewrite admissions_app, admissions_adds.
      apply not_elem_of_nil.
    + intros id _. by rewrite Hcb.
  - eapply (Unsubmitted_step W t0 s); [done|reflexivity| |by intros].
    apply Hquiet. by repeat constructor.
  - eapply (Unsubmitted_step W t0 s _ []); [done| | |by intros].
    + step_simpl. by rewrite app_nil_r.
    + intros id _. apply not_elem_of_nil.
  - eapply (Unsubmitted_step W t0 s); [done|reflexivity| |by intros].
    apply Hquiet. by repeat constructor.
  - assert (¬ W id) as HnW.
    { intros Hid0. destruct (Hw id job Hid0 Hjob) as (Hg & i & Hi & Hc).
      destruct (Hnc h Hg) as (i0 & Hi0 & Hc0). congruence. }
    eapply (Unsubmitted_step W t0 s); [done|reflexivity| |].
    + intros id0 Hid0. rewrite admissions_admit, list_elem_of_singleton.
      by intros ->.
    + intros id0 Hid0. step_simpl.
      rewrite fmap_app, elem_of_app. cbn [fmap list_fmap fst].
      rewrite list_elem_of_singleton. intros [?| ->]; done.
  - eapply (Unsubmitted_step W t0 s); [done|reflexivity| |].
    + apply Hquiet. apply Forall_app. split.
      { destruct (observer_ s); by repeat constructor. }
      apply Forall_app. split; [|by repeat constructor].
      destruct (_ && _); [apply not_submit_PreconnectUrl|constructor].
    + intros id0 _. step_simpl. rewrite Hcb. apply Hrest.
  - eapply (Unsubmitted_step W t0 s); [done|reflexivity| |].
    + apply Hquiet. apply Forall_app. split.
      { destruct (observer_ s); by repeat constructor. }
      apply Forall_app. split.
      { destruct (finish_need _ _ _); [apply not_submit_PreconnectUrl
                                      |constructor]. }
      apply Forall_app. split.
      { destruct (default success b); by repeat constructor. }
      apply Forall_app. split; [by repeat constructor|].
      destruct (PreresolveInfo.is_done _), (delegate_ s);
        by repeat constructor.
    + intros id0 _. step_simpl. rewrite Hcb. apply Hrest.
Qed.

Lemma rtc_mstep_Unsubmitted W h t0 s s' :
  Inv s → Watch W h t0 s → Unsubmitted W t0 s → rtc mstep s s' →
  Unsubmitted W t0 s'.
Proof.
  intros I Hw Hu Hr. revert I Hw Hu.
  induction Hr as [|s s1 s' Hm Hr IH]; intros I Hw Hu; [done|].
  apply IH; [by eapply mstep_Inv|by eapply mstep_Watch
            |by eapply mstep_Unsubmitted].
Qed.

(** X20: after [Stop(url)] the queued jobs of the group of the URL's host
    never reach the network: for every job of that group that is in the
    queue when [Stop] is called, no resolve is asked from the network
    layer and no failure is posted after the call, and the job is never in
    flight, in any run that follows. *)
Theorem no_submission_after_Stop delegate observer network_context profile
    ops1 url ops2 :
  Forall wf_op ops1 → Forall wf_op ops2 →
  ∃ s1 s2 evs,
    run ops1 (PreconnectManager_new delegate observer network_context
                profile) = Some s1 ∧
    run (OpStop url :: ops2) s1 = Some s2 ∧
    trace s2 = trace s1 ++ evs ∧
    ∀ id job,
      id ∈ queued_jobs_ s1 →
      IDMap.Lookup id (preresolve_jobs_ s1) = Some job →
      PreresolveJob.info job = Some (host url) →
      (id ∉ admissions evs) ∧ (id ∉ inflight_jobs s2).
Proof.
  intros Hwf1 Hwf2.
  pose proof (Inv_new delegate observer network_context profile) as I0.
  destruct (run_msteps ops1 _ I0 Hwf1) as (s1 & Hs1 & Hr1).
  pose proof (rtc_mstep_Inv _ _ I0 Hr1) as I1.
  destruct (Stop_msteps s1 url) as (s1' & Hstop & Hr1').
  pose proof (rtc_mstep_Inv _ _ I1 Hr1') as I1'.
  destruct (run_msteps ops2 _ I1' Hwf2) as (s2 & Hs2 & Hr2).
  set (W := λ id, id ∈ queued_jobs_ s1 ∧ ∃ job,
         IDMap.data_ (preresolve_jobs_ s1) !! id = Some job ∧
         PreresolveJob.info job = Some (host url)).
  assert (trace s1' = trace s1 ∧
          preresolve_jobs_ s1' = preresolve_jobs_ s1 ∧
          callbacks s1' = callbacks s1 ∧
          ∀ i, preresolve_info_ s1 !! host url = Some i →
               ∃ i', preresolve_info_ s1' !! host url = Some i' ∧
                     PreresolveInfo.was_canceled i' = true)
    as (Ht1 & Hj1 & Hc1 & Hi1).
  { unfold Stop in Hstop.
    destruct (preresolve_info_ s1 !! host url) as [i|] eqn:Hi;
      injection Hstop as <-; state_simpl.
    - do 3 (split; [done|]). intros ? _. rewrite lookup_insert_eq.
      by eexists.
    - do 3 (split; [done|]). by intros. }
  assert (Watch W (host url) (trace s1) s1') as Hw.
  { split; [|split].
    - intros id (_ & job & Hj & _). rewrite Hj1. apply (inv_fresh _ I1).
      by eexists.
    - intros id job (_ & job0 & Hj0 & Hg) Hj. rewrite Hj1 in Hj.
      assert (job0 = job) as -> by congruence.
      split; [done|].
      assert (job_group (IDMap.data_ (preresolve_jobs_ s1)) id =
              Some (host url)) as [i Hi]%(inv_group _ I1).
      { unfold job_group. by rewrite Hj0. }
      by apply (Hi1 i).
    - exists []. rewrite app_nil_r. split; [done|].
      intros; constructor. }
  assert (Unsubmitted W (trace s1) s1') as Hu.
  { split.
    - intros id (Hq & _) Hin. rewrite Hc1 in Hin.
      pose proof (inv_nodup _ I1) as Hnd.
      apply NoDup_app in Hnd as (_ & Hdis & _). by apply (Hdis id).
    - exists []. rewrite app_nil_r. split; [done|].
      intros id _. apply not_elem_of_nil. }
  destruct (rtc_mstep_Unsubmitted _ _ _ _ _ I1' Hw Hu Hr2)
    as (Hnf & evs & Ht & Hns).
  exists s1, s2, evs. split; [done|]. split.
  { cbn [run step]. rewrite Hstop. done. }
  split; [done|]. intros id job Hq Hj Hg.
  assert (W id) as HW. { split; [done|]. by exists job. }
  split; [by apply Hns|by apply Hnf].
Qed.

(** ** The stats of a group grow by successful resolves only *)

Lemma stats_eta st :
  PreconnectStats.mk (PreconnectStats.url st)
    (PreconnectStats.requests_stats st ++ []) = st.
Proof. destruct st. simpl. by rewrite app_nil_r. Qed.

(** The launch loop reports nothing and leaves the stats as they are. *)
Lemma stats_follow_launch s added s1 s' E1 :
  trace s1 = trace s ++ E1 → stats_follow s added s1 E1 → rtc lstep s1 s' →
  ∃ evs, trace s' = trace s ++ evs ∧ stats_follow s added s' evs.
Proof.
  intros Ht1 (Hrep & Hkeep & Hnew) Hl.
  destruct (rtc_lstep_trace _ _ Hl) as (E2 & Ht2 & Hf).
  exists (E1 ++ E2). split; [by rewrite Ht2, Ht1, app_assoc|].
  split; [|split].
  - intros st. rewrite reports_app, (reports_launch E2 Hf), app_nil_r.
    intros (h & i & Hi & Hi1 & ->)%Hrep. exists h, i.
    split; [done|]. split; [|done].
    pose proof (rtc_lstep_info _ _ h Hl) as H. by rewrite Hi1 in H.
  - intros h i i' Hi Hi'.
    pose proof (rtc_lstep_info _ _ h Hl) as H.
    destruct (preresolve_info_ s1 !! h) as [i1|] eqn:Hi1; [|congruence].
    destruct H as (i2 & Hi2 & _ & _ & Hst).
    assert (i2 = i') as -> by congruence.
    rewrite Hst. by apply (Hkeep h i i1).
  - intros h i' Hi Hi'.
    pose proof (rtc_lstep_info _ _ h Hl) as H.
    destruct (preresolve_info_ s1 !! h) as [i1|] eqn:Hi1; [|congruence].
    destruct H as (i2 & Hi2 & _ & _ & Hst).
    assert (i2 = i') as -> by congruence.
    rewrite Hst. by apply (Hnew h i1).
Qed.

(** A step that reports nothing and leaves the stats as they are. *)
Lemma stats_follow_frame s added s1 E1 :
  (∀ h, added h = []) →
  reports E1 = [] →
  (∀ h i i1, preresolve_info_ s !! h = Some i →
     preresolve_info_ s1 !! h = Some i1 →
     PreresolveInfo.stats i1 = PreresolveInfo.stats i) →
  (∀ h i1, preresolve_info_ s !! h = None →
     preresolve_info_ s1 !! h = Some i1 →
     PreconnectStats.requests_stats (PreresolveInfo.stats i1) = []) →
  stats_follow s added s1 E1.
Proof.
  intros Hadd Hrep Hkeep Hnew. split; [|split].
  - intros st. rewrite Hrep. by intros ?%elem_of_nil.
  - intros h i i1 Hi Hi1.
    rewrite (Hkeep h i i1 Hi Hi1), Hadd. by rewrite stats_eta.
  - done.
Qed.

Lemma callback_record_group s id success b rest job h0 i0 h :
  take_callback id (callbacks s) = Some (b, rest) →
  IDMap.data_ (preresolve_jobs_ s) !! id = Some job →
  PreresolveJob.info job = Some h0 →
  preresolve_info_ s !! h0 = Some i0 →
  callback_record s (OpCallback id success) h =
  if decide (h = h0) then
    if default success b
    then [PreconnectedRequestStats.mk (PreresolveJob.url job) false
            (PreresolveJob.need_preconnect job &&
             negb (PreresolveInfo.was_canceled i0))]
    else []
  else [].
Proof.
  intros Ht Hjob Hinfo Hi0. unfold callback_record, IDMap.Lookup.
  rewrite Ht, Hjob, Hinfo.
  destruct (decide (h = h0)) as [->|Hne].
  - rewrite Hi0, decide_True by done. done.
  - destruct (preresolve_info_ s !! h); [|done].
    rewrite decide_False by congruence. done.
Qed.

Lemma callback_record_adhoc s id success job h :
  IDMap.data_ (preresolve_jobs_ s) !! id = Some job →
  PreresolveJob.info job = None →
  callback_record s (OpCallback id success) h = [].
Proof.
  intros Hjob Hinfo. unfold callback_record, IDMap.Lookup.
  rewrite Hjob, Hinfo.
  destruct (take_callback id (callbacks s)) as [[b rest]|]; [|done].
  by destruct (preresolve_info_ s !! h).
Qed.

Lemma callback_record_none s id success h :
  take_callback id (callbacks s) = None →
  callback_record s (OpCallback id success) h = [].
Proof. intros Ht. unfold callback_record. by rewrite Ht. Qed.

Lemma step_stats op s :
  Inv s → wf_op op →
  ∃ s' evs, step op s = Some s' ∧ trace s' = trace s ++ evs ∧
            stats_follow s (callback_record s op) s' evs.
Proof.
  intros I Hwf.
  assert (∀ s1 E1 added,
            rtc mstep s s1 → trace s1 = trace s ++ E1 →
            stats_follow s added s1 E1 →
            ∃ s' evs, TryToLaunchPreresolveJobs s1 = Some s' ∧
                      trace s' = trace s ++ evs ∧
                      stats_follow s added s' evs) as Hlaunch.
  { intros s1 E1 added Hr Ht1 Hf.
    destruct (TryToLaunch_after s s1 I Hr) as (s' & Hs' & Hl & _).
    destruct (stats_follow_launch s added s1 s' E1 Ht1 Hf Hl)
      as (evs & Ht & Hf').
    by exists s', evs. }
  assert (∀ added, (∀ h, added h = []) → stats_follow s added s []) as Hrefl.
  { intros added Hadd. apply stats_follow_frame; [done|done| |congruence].
    intros h i i1 ? ?. congruence. }
  destruct op as [url requests|url|hostnames|url allow|url|id success];
    cbn [step].
  - unfold Start.
    destruct (decide (is_Some (preresolve_info_ s !! host url))) as [|Hn].
    { exists s, []. rewrite app_nil_r. auto. }
    apply eq_None_not_Some in Hn.
    destruct (start_state_spec url requests s)
      as (_ & _ & _ & _ & Hi & _ & _ & _ & _ & Ht & _).
    cbv zeta in Hi, Ht. cbn [preresolve_info_ trace emit set_info] in Hi, Ht.
    eapply (Hlaunch (start_state url requests s)).
    + by apply rtc_once, ms_start.
    + rewrite Ht, <- app_assoc. reflexivity.
    + apply stats_follow_frame; [done| | |].
      * by rewrite reports_app, reports_adds.
      * intros h i i1 Hh. rewrite Hi, lookup_insert_ne by congruence.
        congruence.
      * intros h i1 Hh. rewrite Hi, lookup_insert.
        case_decide; [|congruence]. by intros [= <-].
  - unfold StartPreresolveHost.
    destruct (negb (SchemeIsHTTPOrHTTPS url)).
    { exists s, []. rewrite app_nil_r. auto. }
    eapply Hlaunch.
    + by apply rtc_once, ms_front.
    + reflexivity.
    + apply stats_follow_frame; [done|done| |].
      * intros h i i1. step_simpl. congruence.
      * intros h i1. step_simpl. congruence.
  - unfold StartPreresolveHosts.
    destruct (add_fronts_spec (rev hostnames) s)
      as (_ & _ & Hi & _ & _ & _ & _ & Ht & _).
    cbv zeta in Hi, Ht.
    eapply Hlaunch.
    + apply add_fronts_msteps.
    + exact Ht.
    + apply stats_follow_frame; [done| | |].
      * apply reports_adds.
      * intros h i i1. rewrite Hi. congruence.
      * intros h i1. rewrite Hi. congruence.
  - unfold StartPreconnectUrl.
    destruct (negb (SchemeIsHTTPOrHTTPS url)).
    { exists s, []. rewrite app_nil_r. auto. }
    eapply Hlaunch.
    + by apply rtc_once, ms_front.
    + reflexivity.
    + apply stats_follow_frame; [done|done| |].
      * intros h i i1. step_simpl. congruence.
      * intros h i1. step_simpl. congruence.
  - unfold Stop. destruct (preresolve_info_ s !! host url) as [i0|] eqn:Hi0.
    2:{ exists s, []. rewrite app_nil_r. auto. }
    eexists _, []. split; [reflexivity|]. split.
    { state_simpl. by rewrite app_nil_r. }
    apply stats_follow_frame; [done|done| |].
    + intros h i i1 Hh. state_simpl. rewrite lookup_insert.
      case_decide; [subst h|congruence].
      intros [= <-]. simpl. congruence.
    + intros h i1 Hh. state_simpl. rewrite lookup_insert_ne; congruence.
  - destruct (take_callback id (callbacks s)) as [[b rest]|] eqn:Htake.
    2:{ exists s, []. rewrite app_nil_r. split; [done|]. split; [done|].
        apply Hrefl. intros h. by apply callback_record_none. }
    pose proof Htake as Htake'.
    apply take_callback_Some in Htake' as (l1 & l2 & Hcb & ->).
    assert (is_Some (IDMap.data_ (preresolve_jobs_ s) !! id)) as [job Hjob].
    { apply (inv_dom _ I). rewrite Hcb, perm_finish. left. }
    destruct (PreresolveJob.info job) as [h0|] eqn:Hinfo.
    + assert (job_group (IDMap.data_ (preresolve_jobs_ s)) id = Some h0)
        as Hg.
      { unfold job_group. rewrite Hjob. done. }
      destruct (inv_group _ I _ _ Hg) as [i0 Hi0].
      destruct (inv_key _ I _ _ Hi0) as [Hkey _].
      rewrite (OnPreresolveFinished_group s id _ job h0 i0) by done.
      set (found := default success b).
      set (i1 := finish_info job i0 found).
      assert (PreresolveInfo.stats i1 =
              PreconnectStats.mk
                (PreconnectStats.url (PreresolveInfo.stats i0))
                (PreconnectStats.requests_stats (PreresolveInfo.stats i0) ++
                 callback_record s (OpCallback id success) h0)) as Hst.
      { rewrite (callback_record_group s id success b _ job h0 i0 h0)
          by done.
        rewrite decide_True by done. fold found.
        subst i1. unfold finish_info. destruct found; [done|].
        simpl. by rewrite stats_eta. }
      assert (∀ h, h ≠ h0 →
                callback_record s (OpCallback id success) h = []) as Hoth.
      { intros h Hne.
        rewrite (callback_record_group s id success b _ job h0 i0 h) by done.
        by rewrite decide_False. }
      eapply Hlaunch.
      * by apply rtc_once, (ms_finish_group s id b l1 l2 job h0 i0 success).
      * reflexivity.
      * fold found. unfold finish_group_state. fold i1.
        split; [|split].
        -- intros st. rewrite !map_app, !reports_app.
           rewrite (reports_none _ (if observer_ s then _ else _))
             by (destruct (observer_ s); by repeat constructor).
           rewrite (reports_none _ (if finish_need _ _ _ then _ else _))
             by (destruct (finish_need _ _ _);
                 [apply not_report_PreconnectUrl|constructor]).
           rewrite (reports_none _ (if found then _ else _))
             by (destruct found; by repeat constructor).
           change (reports (map (pair (Some id)) [JobsRemove]))
             with (@nil PreconnectStats.t).
           rewrite !app_nil_l. step_simpl.
           destruct (PreresolveInfo.is_done i1); [|by intros ?%elem_of_nil].
           destruct (delegate_ s); [|by intros ?%elem_of_nil].
           intros ->%list_elem_of_singleton. exists h0, i0.
           split; [done|]. split; [apply lookup_delete_eq|exact Hst].
        -- intros h i i' Hi. step_simpl.
           destruct (decide (h = h0)) as [->|Hne].
           ++ assert (i = i0) as -> by congruence.
              destruct (PreresolveInfo.is_done i1).
              ** by rewrite lookup_delete_eq.
              ** rewrite lookup_insert_eq. by intros [= <-].
           ++ rewrite (Hoth h Hne).
              destruct (PreresolveInfo.is_done i1).
              ** rewrite lookup_delete_ne by done. rewrite Hi.
                 intros [= <-]. by rewrite stats_eta.
              ** rewrite lookup_insert_ne by done. rewrite Hi.
                 intros [= <-]. by rewrite stats_eta.
        -- intros h i' Hi. step_simpl.
           destruct (PreresolveInfo.is_done i1).
           ++ rewrite lookup_delete_ne by congruence. congruence.
           ++ rewrite lookup_insert_ne by congruence. congruence.
    + rewrite (OnPreresolveFinished_adhoc s id _ job) by done.
      eapply Hlaunch.
      * by apply rtc_once, (ms_finish_adhoc s id b l1 l2 job success).
      * reflexivity.
      * apply stats_follow_frame.
        -- intros h. by apply (callback_record_adhoc s id success job).
        -- apply reports_none. apply Forall_app. split.
           { destruct (observer_ s); by repeat constructor. }
           apply Forall_app. split; [|by repeat constructor].
           destruct (_ && _); [apply not_report_PreconnectUrl|constructor].
        -- intros h i i1. step_simpl. congruence.
        -- intros h i1. step_simpl. congruence.
Qed.

Lemma callback_record_elem s op h r :
  r ∈ callback_record s op h →
  ∃ id success bound rest job i,
    op = OpCallback id success ∧
    take_callback id (callbacks s) = Some (bound, rest) ∧
    default success bound = true ∧
    IDMap.Lookup id (preresolve_jobs_ s) = Some job ∧
    PreresolveJob.info job = Some h ∧
    preresolve_info_ s !! h = Some i ∧
    r = PreconnectedRequestStats.mk (PreresolveJob.url job) false
          (PreresolveJob.need_preconnect job &&
           negb (PreresolveInfo.was_canceled i)).
Proof.
  unfold callback_record. destruct op as [| | | | |id success];
    try (by intros ?%elem_of_nil).
  destruct (take_callback id (callbacks s)) as [[bound rest]|] eqn:Ht;
    [|by intros ?%elem_of_nil].
  destruct (IDMap.Lookup id (preresolve_jobs_ s)) as [job|] eqn:Hjob;
    [|by intros ?%elem_of_nil].
  destruct (preresolve_info_ s !! h) as [i|] eqn:Hi;
    [|by intros ?%elem_of_nil].
  case_decide as Hinfo; [|by intros ?%elem_of_nil].
  destruct (default success bound) eqn:Hd; [|by intros ?%elem_of_nil].
  intros ->%list_elem_of_singleton.
  by exists id, success, bound, rest, job, i.
Qed.

Lemma recorded_by_snoc s0 ops op r :
  recorded_by s0 ops r → recorded_by s0 (ops ++ [op]) r.
Proof.
  intros (ops1 & id & success & ops2 & s1 & bound & rest & job & h & i &
          -> & H).
  exists ops1, id, success, (ops2 ++ [op]), s1, bound, rest, job, h, i.
  split; [|done]. by rewrite <- app_assoc.
Qed.

(** Every record in the stats of a group, and every record of a report
    delivered, comes from a successful resolve. *)
Lemma run_recorded delegate observer network_context profile ops s :
  Forall wf_op ops →
  run ops (PreconnectManager_new delegate observer network_context profile) =
    Some s →
  (∀ h i r, preresolve_info_ s !! h = Some i →
     r ∈ PreconnectStats.requests_stats (PreresolveInfo.stats i) →
     recorded_by
       (PreconnectManager_new delegate observer network_context profile)
       ops r) ∧
  (∀ st r, st ∈ reports (trace s) →
     r ∈ PreconnectStats.requests_stats st →
     recorded_by
       (PreconnectManager_new delegate observer network_context profile)
       ops r).
Proof.
  revert s. induction ops as [|op ops IH] using rev_ind; intros s' Hwf Hs'.
  { injection Hs' as <-. split.
    - intros h i r Hi. cbn in Hi. by rewrite lookup_empty in Hi.
    - intros st r Hst. by apply elem_of_nil in Hst. }
  apply Forall_app in Hwf as [Hwf Hop]. apply Forall_cons in Hop as [Hop _].
  rewrite run_app in Hs'.
  destruct (run ops _) as [s|] eqn:Hs; [|done]. simpl in Hs'.
  destruct (IH s Hwf eq_refl) as [IHg IHr].
  pose proof (run_Inv _ _ _ _ _ _ Hwf Hs) as I.
  destruct (step_stats op s I Hop) as (s'' & evs & Hs'' & Ht & H1 & H2 & H3).
  rewrite Hs'' in Hs'. injection Hs' as ->.
  assert (∀ h i r, preresolve_info_ s !! h = Some i →
            r ∈ PreconnectStats.requests_stats (PreresolveInfo.stats i) ++
                callback_record s op h →
            recorded_by
              (PreconnectManager_new delegate observer network_context
                 profile) (ops ++ [op]) r) as Hgrow.
  { intros h i r Hi [Hr|Hr]%elem_of_app.
    - apply recorded_by_snoc. by apply (IHg h i).
    - destruct (callback_record_elem s op h r Hr)
        as (id & success & bound & rest & job & i1 & -> & Hrest).
      by exists ops, id, success, [], s, bound, rest, job, h, i1. }
  split.
  - intros h i' r Hi' Hr.
    destruct (preresolve_info_ s !! h) as [i|] eqn:Hi.
    + rewrite (H2 h i i' Hi Hi') in Hr. by apply (Hgrow h i).
    + rewrite (H3 h i' Hi Hi') in Hr. by apply elem_of_nil in Hr.
  - intros st r Hst Hr. rewrite Ht, reports_app in Hst.
    apply elem_of_app in Hst as [Hst|Hst].
    + apply recorded_by_snoc. by apply (IHr st).
    + destruct (H1 st Hst) as (h & i & Hi & _ & ->). by apply (Hgrow h i).
Qed.

(** C4 (amended): the stats of a group grow only by the completion callback
    of one of its jobs whose resolve succeeded.  Take any state reached by
    public calls and callbacks, and any further call or callback.  Every
    report that it delivers to the delegate is the stats of a group as they
    were before, plus the record of the completing job if its resolve
    succeeded; every group that stays in the map has its stats as before,
    plus that record in the same case; a new group has no record.  So when
    the resolve of a job fails nothing is added for it, neither to the
    stats of its group nor to the report, by its own callback or by any
    other call: the report has no entry for the job.  Over the whole run:
    every record of every report delivered, and every record in the stats
    of a group, is the record of a job whose completion callback ran with a
    successful resolve.  The record added for
    a successful resolve has [was_preresolve_cached = false] and
    [was_preconnected] false exactly when no preconnect was needed (no
    socket asked for, or the group cancelled).  In [FinishPreresolve]: with
    [found = false] it only removes the job; with [found = true] and a
    group it makes the preconnect if needed and appends the record. *)
Theorem failed_resolve_adds_no_record delegate observer network_context
    profile ops0 s op :
  Forall wf_op ops0 →
  run ops0 (PreconnectManager_new delegate observer network_context profile) =
    Some s →
  wf_op op →
  (∃ s' evs,
     step op s = Some s' ∧ trace s' = trace s ++ evs ∧
     (∀ st, st ∈ reports evs →
        ∃ h i, preresolve_info_ s !! h = Some i ∧
               preresolve_info_ s' !! h = None ∧
               st = PreconnectStats.mk
                      (PreconnectStats.url (PreresolveInfo.stats i))
                      (PreconnectStats.requests_stats (PreresolveInfo.stats i)
                       ++ callback_record s op h)) ∧
     (∀ h i i', preresolve_info_ s !! h = Some i →
        preresolve_info_ s' !! h = Some i' →
        PreresolveInfo.stats i' =
          PreconnectStats.mk (PreconnectStats.url (PreresolveInfo.stats i))
            (PreconnectStats.requests_stats (PreresolveInfo.stats i) ++
             callback_record s op h)) ∧
     (∀ h i', preresolve_info_ s !! h = None →
        preresolve_info_ s' !! h = Some i' →
        PreconnectStats.requests_stats (PreresolveInfo.stats i') = [])) ∧
  (∀ r,
     (∃ st, st ∈ reports (trace s) ∧
            r ∈ PreconnectStats.requests_stats st) ∨
     (∃ h i, preresolve_info_ s !! h = Some i ∧
             r ∈ PreconnectStats.requests_stats (PreresolveInfo.stats i)) →
     recorded_by
       (PreconnectManager_new delegate observer network_context profile)
       ops0 r) ∧
  (∀ id success bound rest h,
     take_callback id (callbacks s) = Some (bound, rest) →
     default success bound = false →
     callback_record s (OpCallback id success) h = []) ∧
  (∀ id success bound rest job h i,
     take_callback id (callbacks s) = Some (bound, rest) →
     default success bound = true →
     IDMap.Lookup id (preresolve_jobs_ s) = Some job →
     PreresolveJob.info job = Some h →
     preresolve_info_ s !! h = Some i →
     callback_record s (OpCallback id success) h =
       [PreconnectedRequestStats.mk (PreresolveJob.url job) false
          (PreresolveJob.need_preconnect job &&
           negb (PreresolveInfo.was_canceled i))]) ∧
  (∀ s0 id job cached,
     IDMap.Lookup id (preresolve_jobs_ s0) = Some job →
     FinishPreresolve id false cached s0 =
       Some (emit (Some id) [JobsRemove] (set_jobs (IDMap.Remove id) s0)) ∧
     (∀ h i, PreresolveJob.info job = Some h →
        preresolve_info_ s0 !! h = Some i →
        let need := PreresolveJob.need_preconnect job &&
                    negb (PreresolveInfo.was_canceled i) in
        let r := PreconnectedRequestStats.mk (PreresolveJob.url job) cached
                   need in
        FinishPreresolve id true cached s0 =
          Some (emit (Some id)
                  ((if need
                    then PreconnectUrl s0 (PreresolveJob.url job)
                           (PreresolveInfo.url i)
                           (PreresolveJob.num_sockets job)
                           (PreresolveJob.allow_credentials job)
                    else []) ++ [StatsEmplaceBack h r; JobsRemove])
                  (set_info (<[h := stats_emplace_back r i]>)
                     (set_jobs (IDMap.Remove id) s0))))).
Proof.
  intros Hwf0 Hs Hwf.
  pose proof (run_Inv _ _ _ _ _ _ Hwf0 Hs) as I.
  split; [|split; [|split; [|split]]].
  - destruct (step_stats op s I Hwf) as (s' & evs & Hs' & Ht & H1 & H2 & H3).
    by exists s', evs.
  - destruct (run_recorded _ _ _ _ _ _ Hwf0 Hs) as [Hg Hr].
    intros r [(st & Hst & Hin)|(h & i & Hi & Hin)].
    + by apply (Hr st).
    + by apply (Hg h i).
  - intros id success bound rest h Ht Hf. unfold callback_record.
    rewrite Ht, Hf.
    destruct (IDMap.Lookup id (preresolve_jobs_ s)) as [job|]; [|done].
    destruct (preresolve_info_ s !! h); [|done]. by case_decide.
  - intros id success bound rest job h i Ht Hf Hjob Hinfo Hi.
    rewrite (callback_record_group s id success bound rest job h i h)
      by done.
    by rewrite decide_True, Hf.
  - intros s0 id job cached Hjob. split.
    + unfold FinishPreresolve. rewrite Hjob. obind.
      destruct (PreresolveJob.info job); obind; reflexivity.
    + intros h i Hinfo Hi. simpl.
      rewrite (FinishPreresolve_group s0 id job h i true cached Hjob Hinfo Hi).
      reflexivity.
Qed.

(** ** Every job comes to an end *)

Lemma not_admitted_submits id evs :
  id ∉ admissions evs → submits (tally id evs) = 0.
Proof.
  induction evs as [|[j a] evs IH]; [done|].
  intros Hn. cbn [tally].
  assert (id ∉ admissions evs) as Hn'.
  { intros Hin. apply Hn. unfold admissions in *. cbn [omap list_omap].
    destruct a, j; cbn; try done; by right. }
  specialize (IH Hn'). case_decide as E.
  - subst j. destruct a; cbn; try done.
    + destruct Hn. unfold admissions. cbn. left.
    + destruct Hn. unfold admissions. cbn. left.
  - cbn. done.
Qed.

Lemma admitted_submits id evs :
  id ∈ admissions evs → 0 < submits (tally id evs).
Proof.
  induction evs as [|[j a] evs IH]; [by intros ?%elem_of_nil|].
  intros Hin. cbn [tally].
  destruct (decide (id ∈ admissions evs)) as [Hin'|Hn'].
  { specialize (IH Hin').
    destruct (if decide (j = Some id) then tally_act a
              else mkTally 0 0 0 0 0). cbn. lia. }
  assert (j = Some id ∧ submits (tally_act a) = 1) as [-> Ha].
  { unfold admissions in Hin, Hn'. cbn [omap list_omap] in Hin.
    destruct a, j; cbn in Hin; try done;
      apply elem_of_cons in Hin as [->|?]; done. }
  rewrite decide_True by done. cbn. lia.
Qed.

Lemma callbacks_wf ops : Forall is_callback ops → Forall wf_op ops.
Proof. intros H. eapply Forall_impl; [exact H|]. by intros []. Qed.

Lemma cancelled_keep s s' id :
  cancelled s id = false →
  job_group (IDMap.data_ (preresolve_jobs_ s')) id =
    job_group (IDMap.data_ (preresolve_jobs_ s)) id →
  (∀ h i', job_group (IDMap.data_ (preresolve_jobs_ s)) id = Some h →
     preresolve_info_ s' !! h = Some i' →
     ∃ i, preresolve_info_ s !! h = Some i ∧
          PreresolveInfo.was_canceled i' = PreresolveInfo.was_canceled i) →
  cancelled s' id = false.
Proof.
  unfold cancelled. intros Hc -> Hinfo.
  destruct (job_group _ id) as [h|]; [|done].
  destruct (preresolve_info_ s' !! h) as [i'|] eqn:Hi'; [|done].
  destruct (Hinfo h i' eq_refl Hi') as (i & Hi & ->).
  by rewrite Hi in Hc.
Qed.

Lemma Live_step id t0 s s' E :
  Live id t0 s → trace s' = trace s ++ E →
  (id ∈ queued_jobs_ s → cancelled s id = false →
   ((id ∈ queued_jobs_ s') ∧ cancelled s' id = false) ∨ (id ∈ admissions E)) →
  Live id t0 s'.
Proof.
  intros (evs & Ht & H) Ht' Hstep. exists (evs ++ E).
  split; [by rewrite Ht', Ht, app_assoc|].
  rewrite admissions_app, elem_of_app.
  destruct H as [[Hq Hc]|Hin]; [|by right; left].
  destruct (Hstep Hq Hc) as [?|?]; [by left|by right; right].
Qed.

(** A queued job whose group is not cancelled stays queued, or is
    submitted, as long as [Stop] is not called. *)
Lemma run_Live id t0 ops s :
  Inv s → Live id t0 s → Forall wf_op ops → Forall not_stop ops →
  ∃ s', run ops s = Some s' ∧ Inv s' ∧ Live id t0 s'.
Proof.
  intros I H. revert s I H.
  assert (∀ s, Inv s → id ∈ queued_jobs_ s →
            id < IDMap.next_id_ (preresolve_jobs_ s) ∧
            (id ∉ inflight_jobs s) ∧
            ∀ h, job_group (IDMap.data_ (preresolve_jobs_ s)) id = Some h →
                 is_Some (preresolve_info_ s !! h)) as Hq.
  { intros s I Hin. split; [|split].
    - apply (inv_fresh _ I), (inv_dom _ I), elem_of_app. by left.
    - intros Hf. pose proof (inv_nodup _ I) as Hnd.
      apply NoDup_app in Hnd as (_ & Hdis & _). by apply (Hdis id).
    - intros h. apply (inv_group _ I). }
  intros s I H Hwf Hns.
  apply (run_inv_quiet (Live id t0)); try done; clear s I H Hwf Hns.
  - intros s url requests I H Hnone Hfit.
    destruct (start_state_spec url requests s)
      as (_ & _ & _ & _ & Hi & _ & _ & _ & Hqu & Ht & Hold & _).
    cbv zeta in Hi, Hqu, Ht, Hold.
    cbn [preresolve_info_ trace emit set_info] in Hi, Ht.
    eapply (Live_step id t0 s); [done| |].
    { rewrite Ht, <- app_assoc. reflexivity. }
    intros Hin Hc. left. destruct (Hq s I Hin) as (Hlt & _ & Hg).
    split; [rewrite Hqu; apply elem_of_app; by left|].
    apply (cancelled_keep s); [done| |].
    + unfold job_group. rewrite Hold; [done|lia].
    + intros h i' Hgh. rewrite Hi.
      destruct (Hg h Hgh) as [i Hih].
      rewrite lookup_insert_ne by congruence.
      intros Hi'. exists i'. by rewrite Hi'.
  - intros s url n allow I H.
    eapply (Live_step id t0 s); [done|reflexivity|].
    intros Hin Hc. left. destruct (Hq s I Hin) as (Hlt & _ & _).
    step_simpl. split; [by right|].
    apply (cancelled_keep s); [done| |].
    + step_simpl. apply job_group_insert_ne. lia.
    + intros h i' _ Hi'. by exists i'.
  - intros s s' I H Hl. revert I H.
    destruct Hl as [s0 id0 q job h i Hqu Hjob Hinfo Hi Hcan
                   |s0 id0 q job Hqu Hjob Hlt Hnc]; intros I H.
    + eapply (Live_step id t0 s0); [done|reflexivity|].
      intros Hin Hc. left.
      assert (id ≠ id0) as Hne.
      { intros ->. unfold cancelled, job_group in Hc.
        rewrite Hjob in Hc. simpl in Hc. rewrite Hinfo, Hi in Hc.
        congruence. }
      step_simpl. split.
      { rewrite Hqu in Hin. by apply elem_of_cons in Hin as [?|?]. }
      apply (cancelled_keep s0); [done| |].
      * step_simpl. by apply job_group_delete_ne.
      * intros h1 i' _. step_simpl. rewrite lookup_insert.
        case_decide as E; [subst h1|by eexists].
        intros [= <-]. by exists i.
    + eapply (Live_step id t0 s0); [done|reflexivity|].
      intros Hin Hc. rewrite admissions_admit.
      destruct (decide (id = id0)) as [->|Hne]; [right; left|left].
      split.
      { step_simpl. rewrite Hqu in Hin.
        by apply elem_of_cons in Hin as [?|?]. }
      by rewrite cancelled_admit.
  - intros s id0 b l1 l2 job success I H Hcb Hjob Hinfo.
    eapply (Live_step id t0 s); [done|reflexivity|].
    intros Hin Hc. left. destruct (Hq s I Hin) as (_ & Hnf & _).
    assert (id0 ≠ id) as Hne.
    { intros ->. apply Hnf. rewrite Hcb, fmap_app, fmap_cons.
      apply elem_of_app. right. left. }
    split; [done|].
    apply (cancelled_keep s); [done| |].
    + step_simpl. by apply job_group_delete_ne.
    + intros h i' _ Hi'. by exists i'.
  - intros s id0 b l1 l2 job h0 i0 success I H Hcb Hjob Hinfo Hi0.
    eapply (Live_step id t0 s); [done|reflexivity|].
    intros Hin Hc. left. destruct (Hq s I Hin) as (_ & Hnf & _).
    assert (id0 ≠ id) as Hne.
    { intros ->. apply Hnf. rewrite Hcb, fmap_app, fmap_cons.
      apply elem_of_app. right. left. }
    split; [done|].
    apply (cancelled_keep s); [done| |].
    + step_simpl. by apply job_group_delete_ne.
    + intros h i' _. unfold finish_group_state. step_simpl.
      destruct (PreresolveInfo.is_done _).
      * rewrite lookup_delete. case_decide; [done|]. by eexists.
      * rewrite lookup_insert. case_decide as E; [subst h|by eexists].
        intros [= <-]. exists i0. split; [done|].
        unfold finish_info. by destruct (default success b).
Qed.

(** C7: after every sequence of calls and callbacks, every job id has
    exactly one disposition, read off the trace: never added; added and
    still queued; added, submitted once and in flight; added and dropped
    (removed once, never submitted, no preconnect, no stats record); or
    added, submitted once and completed (removed once, at most one
    preconnect, at most one stats record).  The job is in the table exactly
    in the two live dispositions, so no job is added or removed twice.

    Every job comes to its end (the cap being at least one).  When the
    callback of a job in flight runs, the job ends completed.  Whenever no
    callback is outstanding nothing is queued: every job ever added is
    dropped or completed.  And from the state reached, running the
    outstanding callbacks one after the other, at most one per job of the
    table, leads to a state in which every job of the table is dropped or
    completed: dropped if it was queued with a cancelled group, completed
    if it was in flight or queued with no cancelled group.

    Which end it is: a queued job whose group is cancelled is never
    submitted; in every run that follows it is still queued or dropped.  A
    queued job without a group, or whose group is not cancelled, is never
    dropped as long as [Stop] is not called: it is still queued, or it was
    submitted. *)
Theorem job_has_one_disposition delegate observer network_context profile
    ops :
  Forall wf_op ops →
  ∃ s, run ops (PreconnectManager_new delegate observer network_context
                  profile) = Some s ∧
    (∀ id, ∃ d,
       placed s id d ∧
       tally id (trace s) = tally_of d ∧
       (∀ d', tally id (trace s) = tally_of d' → d' = d) ∧
       (is_Some (IDMap.Lookup id (preresolve_jobs_ s)) ↔
        d = InQueue ∨ d = InFlight)) ∧
    (∀ id success, id ∈ inflight_jobs s →
       ∃ s' p r, step (OpCallback id success) s = Some s' ∧
                 placed s' id (Completed p r) ∧
                 tally id (trace s') = tally_of (Completed p r)) ∧
    ((0 < kMaxInflightPreresolves)%Z → callbacks s = [] →
     queued_jobs_ s = [] ∧
     ∀ id, ∃ d, placed s id d ∧ tally id (trace s) = tally_of d ∧
                (d = NotCreated ∨ terminal d)) ∧
    ((0 < kMaxInflightPreresolves)%Z →
     ∃ ops' s',
       Forall is_callback ops' ∧
       length ops' ≤ length (queued_jobs_ s) + length (callbacks s) ∧
       run ops' s = Some s' ∧
       callbacks s' = [] ∧ queued_jobs_ s' = [] ∧
       ∀ id, is_Some (IDMap.Lookup id (preresolve_jobs_ s)) →
         ∃ d, terminal d ∧ placed s' id d ∧
              tally id (trace s') = tally_of d ∧
              (id ∈ queued_jobs_ s → cancelled s id = true → d = Dropped) ∧
              (id ∈ queued_jobs_ s → cancelled s id = false →
               ∃ p r, d = Completed p r) ∧
              (id ∈ inflight_jobs s → ∃ p r, d = Completed p r)) ∧
    (∀ id ops2, id ∈ queued_jobs_ s → cancelled s id = true →
       Forall wf_op ops2 →
       ∃ s2 evs, run ops2 s = Some s2 ∧ trace s2 = trace s ++ evs ∧
         (id ∉ admissions evs) ∧ (id ∉ inflight_jobs s2) ∧
         ((id ∈ queued_jobs_ s2) ∨
          placed s2 id Dropped ∧ tally id (trace s2) = tally_of Dropped)) ∧
    (∀ id ops2, id ∈ queued_jobs_ s → cancelled s id = false →
       Forall wf_op ops2 → Forall not_stop ops2 →
       ∃ s2 evs, run ops2 s = Some s2 ∧ trace s2 = trace s ++ evs ∧
         ((id ∈ queued_jobs_ s2) ∧ (id ∉ admissions evs) ∨
          (id ∈ admissions evs)) ∧
         ¬ (placed s2 id Dropped ∧ tally id (trace s2) = tally_of Dropped)).
Proof.
  intros Hwf.
  pose proof (Inv_new delegate observer network_context profile) as I0.
  destruct (run_msteps ops _ I0 Hwf) as (s & Hs & Hr).
  exists s. split; [done|].
  pose proof (rtc_mstep_Inv _ _ I0 Hr) as I.
  destruct (run_reach _ _ _ _ _ _ Hwf Hs) as [_ He].
  pose proof (rtc_mstep_life _ _ I0
                (life_new delegate observer network_context profile) Hr) as L.
  assert (∀ s' id d, Inv s' → placed s' id d →
            (d = InQueue → id ∈ queued_jobs_ s') ∧
            (d = InFlight → id ∈ inflight_jobs s') ∧
            (d ≠ InQueue → d ≠ InFlight →
             IDMap.data_ (preresolve_jobs_ s') !! id = None)) as Hplaced.
  { intros s' id d _ Hp. destruct d; simpl in Hp; repeat split; done. }
  assert (∀ id ops2, id ∈ queued_jobs_ s → cancelled s id = true →
            Forall wf_op ops2 →
            ∃ s2 evs, run ops2 s = Some s2 ∧ trace s2 = trace s ++ evs ∧
              (id ∉ admissions evs) ∧ (id ∉ inflight_jobs s2) ∧
              ((id ∈ queued_jobs_ s2) ∨
               placed s2 id Dropped ∧
               tally id (trace s2) = tally_of Dropped)) as Hdrop.
  { intros id ops2 Hin Hc Hwf2.
      destruct (run_msteps ops2 _ I Hwf2) as (s2 & Hs2 & Hr2).
      pose proof (rtc_mstep_Inv _ _ I Hr2) as I2.
      unfold cancelled in Hc.
      destruct (job_group (IDMap.data_ (preresolve_jobs_ s)) id) as [h|] eqn:Hg;
        [|done].
      destruct (preresolve_info_ s !! h) as [i|] eqn:Hi; [|done].
      assert (Watch (λ x, x = id) h (trace s) s) as Hw.
      { split; [|split].
        - intros ? ->. apply (inv_fresh _ I), (inv_dom _ I), elem_of_app.
          by left.
        - intros ? job -> Hj. unfold job_group in Hg. rewrite Hj in Hg.
          split; [done|]. by exists i.
        - exists []. rewrite app_nil_r. split; [done|]. intros; constructor. }
      assert (Unsubmitted (λ x, x = id) (trace s) s) as Hu.
      { split.
        - intros ? -> Hf. pose proof (inv_nodup _ I) as Hnd.
          apply NoDup_app in Hnd as (_ & Hdis & _). by apply (Hdis id).
        - exists []. rewrite app_nil_r. split; [done|].
          intros ? _. apply not_elem_of_nil. }
      destruct (rtc_mstep_Unsubmitted _ _ _ _ _ I Hw Hu Hr2)
        as (Hnf & evs & Ht & Hns).
      exists s2, evs. split; [done|]. split; [done|].
      split; [by apply Hns|]. split; [by apply Hnf|].
      destruct (rtc_mstep_life _ _ I L Hr2 id) as [(d & Hp & Htl) _].
      pose proof (life_queued s id I Hin (L id)) as Ht0.
      pose proof (not_admitted_submits id evs (Hns id eq_refl)) as Hsub.
      rewrite Ht, tally_app, Ht0 in Htl.
      destruct d as [| | | |p r]; simpl in Hp.
      + destruct (tally id evs). simpl in Htl. injection Htl. lia.
      + by left.
      + by destruct (Hnf id eq_refl).
      + right. split; [done|]. by rewrite Ht, tally_app, Ht0.
      + destruct (tally id evs). simpl in *. injection Htl. lia. }
  assert (∀ id ops2, id ∈ queued_jobs_ s → cancelled s id = false →
            Forall wf_op ops2 → Forall not_stop ops2 →
            ∃ s2 evs, run ops2 s = Some s2 ∧ trace s2 = trace s ++ evs ∧
              ((id ∈ queued_jobs_ s2) ∧ (id ∉ admissions evs) ∨
               (id ∈ admissions evs)) ∧
              ¬ (placed s2 id Dropped ∧
                 tally id (trace s2) = tally_of Dropped)) as Hkeep.
  { intros id ops2 Hin Hc Hwf2 Hns2.
      assert (Live id (trace s) s) as Hl.
      { exists []. rewrite app_nil_r. split; [done|]. by left. }
      destruct (run_Live id (trace s) ops2 s I Hl Hwf2 Hns2)
        as (s2 & Hs2 & I2 & evs & Ht & Hlive).
      exists s2, evs. split; [done|]. split; [done|]. split.
      + destruct Hlive as [[Hq _]|Ha]; [|by right].
        destruct (decide (id ∈ admissions evs)); [by right|by left].
      + intros [Hp Htl]. simpl in Hp.
        destruct Hlive as [[Hq _]|Ha].
        * assert (is_Some (IDMap.data_ (preresolve_jobs_ s2) !! id)) as [? ?].
          { apply (inv_dom _ I2), elem_of_app. by left. }
          congruence.
        * pose proof (admitted_submits id evs Ha) as Hsub.
          pose proof (life_queued s id I Hin (L id)) as Ht0.
          rewrite Ht, tally_app, Ht0 in Htl.
          destruct (tally id evs). simpl in *. injection Htl. lia. }
  split; [|split; [|split; [|split; [|split]]]].
  - intros id. destruct (L id) as [(d & Hp & Ht) _].
    exists d. split; [done|]. split; [done|]. split.
    + intros d'. rewrite Ht.
      destruct d as [| | | |[] []], d' as [| | | |[] []]; simpl; congruence.
    + unfold IDMap.Lookup. rewrite (inv_dom _ I), elem_of_app.
      destruct d; simpl in Hp.
      * split; [|by intros [|]].
        intros Hin. apply elem_of_app, (inv_dom _ I) in Hin as [? ?].
        congruence.
      * split; auto.
      * split; auto.
      * split; [|by intros [|]].
        intros Hin. apply elem_of_app, (inv_dom _ I) in Hin as [? ?].
        congruence.
      * split; [|by intros [|]].
        intros Hin. apply elem_of_app, (inv_dom _ I) in Hin as [? ?].
        congruence.
  - intros id success Hin.
    destruct (callback_completes s id success I Hin) as (s' & Hs' & Hr' & Hg).
    pose proof (rtc_mstep_Inv _ _ I Hr') as I'.
    destruct (rtc_mstep_life _ _ I L Hr' id) as [(d & Hp & Ht) _].
    destruct (rtc_mstep_trace _ _ I Hr') as (evs & Hev).
    pose proof (life_inflight s id I Hin (L id)) as Ht0.
    rewrite Hev, tally_app, Ht0 in Ht.
    assert (¬ id ∈ queued_jobs_ s' ++ inflight_jobs s') as Hout.
    { intros [? ?]%(inv_dom _ I'). congruence. }
    destruct d as [| | | |p r]; simpl in Hp.
    + by destruct (tally id evs).
    + destruct Hout. apply elem_of_app. by left.
    + destruct Hout. apply elem_of_app. by right.
    + destruct (tally id evs). simpl in Ht. injection Ht. lia.
    + exists s', p, r. split; [done|]. split; [done|].
      by rewrite Hev, tally_app, Ht0.
  - intros Hpos Hcb.
    assert (queued_jobs_ s = []) as Hq.
    { destruct He as [?|Hsat]; [done|].
      rewrite (inv_inflight _ I), Hcb in Hsat. simpl in Hsat. lia. }
    split; [done|]. intros id. destruct (L id) as [(d & Hp & Ht) _].
    exists d. split; [done|]. split; [done|].
    destruct d; simpl in Hp; simpl; auto.
    + rewrite Hq in Hp. by apply elem_of_nil in Hp.
    + rewrite Hcb in Hp. by apply elem_of_nil in Hp.
  - intros Hpos.
    destruct (drain_by_callbacks _ s Hpos I He (le_n _))
      as (ops' & s' & Hops & Hlen & Hrun & Hcb & Hq & Hj).
    exists ops', s'. split; [done|]. split.
    { by rewrite length_app, length_fmap in Hlen. }
    do 3 (split; [done|]).
    destruct (run_msteps ops' _ I (callbacks_wf _ Hops)) as (s'' & Hrun' & Hr').
    assert (s'' = s') as -> by congruence.
    destruct (rtc_mstep_trace _ _ I Hr') as (evs & Hev).
    assert (Forall not_stop ops') as Hns'.
    { eapply Forall_impl; [exact Hops|]. by intros []. }
    intros id Hin. unfold IDMap.Lookup in Hin.
    destruct (rtc_mstep_life _ _ I L Hr' id) as [(d & Hp & Ht) _].
    exists d.
    assert (adds (tally id (trace s)) = 1) as Hadd.
    { apply (inv_dom _ I), elem_of_app in Hin as [Hin|Hin].
      - by rewrite (life_queued s id I Hin (L id)).
      - by rewrite (life_inflight s id I Hin (L id)). }
    assert (terminal d) as Hterm.
    { destruct d; simpl in Hp; simpl; try done.
      - rewrite Hev, tally_app in Ht.
        destruct (tally id (trace s)), (tally id evs). simpl in *.
        injection Ht. lia.
      - rewrite Hq in Hp. by apply elem_of_nil in Hp.
      - rewrite Hcb in Hp. by apply elem_of_nil in Hp. }
    do 3 (split; [done|]). split; [|split].
    + intros Hinq Hc.
      destruct (Hdrop id ops' Hinq Hc (callbacks_wf _ Hops))
        as (s2 & evs2 & Hrun2 & _ & _ & _ & Hend).
      assert (s2 = s') as -> by congruence.
      destruct Hend as [Hinq'|[_ Htl]].
      { rewrite Hq in Hinq'. by apply elem_of_nil in Hinq'. }
      rewrite Ht in Htl. by destruct d as [| | | |[] []].
    + intros Hinq Hc.
      destruct (Hkeep id ops' Hinq Hc (callbacks_wf _ Hops) Hns')
        as (s2 & evs2 & Hrun2 & _ & _ & Hnd).
      assert (s2 = s') as -> by congruence.
      destruct d as [| | | |p r]; try done; [|by exists p, r].
      by destruct Hnd.
    + intros Hinf.
      pose proof (life_inflight s id I Hinf (L id)) as Ht0.
      destruct d as [| | | |p r]; try done; [|by exists p, r].
      rewrite Hev, tally_app, Ht0 in Ht.
      destruct (tally id evs). simpl in *. injection Ht. lia.
  - exact Hdrop.
  - exact Hkeep.
Qed.

End Manager.

(** ** Instances *)

Lemma inflight_count_within_cap_witness :
  (∃ s, run 3 0 256 64 512
          [OpStart (url_of "x")
             [request_of "a" 1; request_of "b" 1; request_of "c" 0;
              request_of "d" 1; request_of "e" 1];
           OpCallback 2 true; OpStop (url_of "x"); OpCallback 1 false]
          sample_manager = Some s ∧
        (0 ≤ inflight_preresolves_count_ s ≤ 3)%Z) ∧
  (∀ s, (3 ≤ inflight_preresolves_count_ s)%Z →
        TryToLaunchPreresolveJobs 3 s = Some s).
Proof.
  apply (inflight_count_within_cap 3 0 256 64 512).
  - unfold size_t_modulus. lia.
  - repeat constructor.
Defined.

Lemma job_has_one_disposition_witness :
  ∃ s, run 3 0 256 64 512 mixed_queue_ops sample_manager = Some s ∧
    (∀ id, ∃ d,
       placed s id d ∧
       tally id (trace s) = tally_of d ∧
       (∀ d', tally id (trace s) = tally_of d' → d' = d) ∧
       (is_Some (IDMap.Lookup id (preresolve_jobs_ s)) ↔
        d = InQueue ∨ d = InFlight)) ∧
    (∀ id success, id ∈ inflight_jobs s →
       ∃ s' p r, step 3 0 256 64 512 (OpCallback id success) s = Some s' ∧
                 placed s' id (Completed p r) ∧
                 tally id (trace s') = tally_of (Completed p r)) ∧
    ((0 < 3)%Z → callbacks s = [] →
     queued_jobs_ s = [] ∧
     ∀ id, ∃ d, placed s id d ∧ tally id (trace s) = tally_of d ∧
                (d = NotCreated ∨ terminal d)) ∧
    ((0 < 3)%Z →
     ∃ ops' s',
       Forall is_callback ops' ∧
       length ops' ≤ length (queued_jobs_ s) + length (callbacks s) ∧
       run 3 0 256 64 512 ops' s = Some s' ∧
       callbacks s' = [] ∧ queued_jobs_ s' = [] ∧
       ∀ id, is_Some (IDMap.Lookup id (preresolve_jobs_ s)) →
         ∃ d, terminal d ∧ placed s' id d ∧
              tally id (trace s') = tally_of d ∧
              (id ∈ queued_jobs_ s → cancelled s id = true → d = Dropped) ∧
              (id ∈ queued_jobs_ s → cancelled s id = false →
               ∃ p r, d = Completed p r) ∧
              (id ∈ inflight_jobs s → ∃ p r, d = Completed p r)) ∧
    (∀ id ops2, id ∈ queued_jobs_ s → cancelled s id = true →
       Forall wf_op ops2 →
       ∃ s2 evs, run 3 0 256 64 512 ops2 s = Some s2 ∧
         trace s2 = trace s ++ evs ∧
         (id ∉ admissions evs) ∧ (id ∉ inflight_jobs s2) ∧
         ((id ∈ queued_jobs_ s2) ∨
          placed s2 id Dropped ∧ tally id (trace s2) = tally_of Dropped)) ∧
    (∀ id ops2, id ∈ queued_jobs_ s → cancelled s id = false →
       Forall wf_op ops2 → Forall not_stop ops2 →
       ∃ s2 evs, run 3 0 256 64 512 ops2 s = Some s2 ∧
         trace s2 = trace s ++ evs ∧
         ((id ∈ queued_jobs_ s2) ∧ (id ∉ admissions evs) ∨
          (id ∈ admissions evs)) ∧
         ¬ (placed s2 id Dropped ∧ tally id (trace s2) = tally_of Dropped)).
Proof.
  apply (job_has_one_disposition 3 0 256 64 512).
  - unfold size_t_modulus. lia.
  - repeat constructor.
Defined.

Lemma no_preconnect_after_Stop_witness :
  ∃ s1 s2 evs,
    run 3 0 256 64 512
      [OpStartPreresolveHosts ["p"; "q"];
       OpStart (url_of "x") [request_of "a" 1; request_of "b" 1]]
      sample_manager = Some s1 ∧
    run 3 0 256 64 512
      (OpStop (url_of "x") ::
       [OpCallback 3 true; OpCallback 1 true; OpCallback 2 true]) s1 =
      Some s2 ∧
    trace s2 = trace s1 ++ evs ∧
    ∀ id job,
      IDMap.Lookup id (preresolve_jobs_ s1) = Some job →
      PreresolveJob.info job = Some (host (url_of "x")) →
      quiet id evs.
Proof.
  apply (no_preconnect_after_Stop 3 0 256 64 512).
  - unfold size_t_modulus. lia.
  - repeat constructor.
  - repeat constructor.
Defined.

Lemma failed_resolve_adds_no_record_witness :
  let s := default sample_manager
             (run 3 0 256 64 512
                [OpStart (url_of "x") [request_of "a" 1; request_of "b" 1]]
                sample_manager) in
  let op := OpCallback 1 false in
  (∃ s' evs,
     step 3 0 256 64 512 op s = Some s' ∧ trace s' = trace s ++ evs ∧
     (∀ st, st ∈ reports evs →
        ∃ h i, preresolve_info_ s !! h = Some i ∧
               preresolve_info_ s' !! h = None ∧
               st = PreconnectStats.mk
                      (PreconnectStats.url (PreresolveInfo.stats i))
                      (PreconnectStats.requests_stats (PreresolveInfo.stats i)
                       ++ callback_record s op h)) ∧
     (∀ h i i', preresolve_info_ s !! h = Some i →
        preresolve_info_ s' !! h = Some i' →
        PreresolveInfo.stats i' =
          PreconnectStats.mk (PreconnectStats.url (PreresolveInfo.stats i))
            (PreconnectStats.requests_stats (PreresolveInfo.stats i) ++
             callback_record s op h)) ∧
     (∀ h i', preresolve_info_ s !! h = None →
        preresolve_info_ s' !! h = Some i' →
        PreconnectStats.requests_stats (PreresolveInfo.stats i') = [])) ∧
  (∀ r,
     (∃ st, st ∈ reports (trace s) ∧
            r ∈ PreconnectStats.requests_stats st) ∨
     (∃ h i, preresolve_info_ s !! h = Some i ∧
             r ∈ PreconnectStats.requests_stats (PreresolveInfo.stats i)) →
     recorded_by 3 0 256 64 512 sample_manager
       [OpStart (url_of "x") [request_of "a" 1; request_of "b" 1]] r) ∧
  (∀ id success bound rest h,
     take_callback id (callbacks s) = Some (bound, rest) →
     default success bound = false →
     callback_record s (OpCallback id success) h = []) ∧
  (∀ id success bound rest job h i,
     take_callback id (callbacks s) = Some (bound, rest) →
     default success bound = true →
     IDMap.Lookup id (preresolve_jobs_ s) = Some job →
     PreresolveJob.info job = Some h →
     preresolve_info_ s !! h = Some i →
     callback_record s (OpCallback id success) h =
       [PreconnectedRequestStats.mk (PreresolveJob.url job) false
          (PreresolveJob.need_preconnect job &&
           negb (PreresolveInfo.was_canceled i))]) ∧
  (∀ s0 id job cached,
     IDMap.Lookup id (preresolve_jobs_ s0) = Some job →
     FinishPreresolve 0 256 64 512 id false cached s0 =
       Some (emit (Some id) [JobsRemove] (set_jobs (IDMap.Remove id) s0)) ∧
     (∀ h i, PreresolveJob.info job = Some h →
        preresolve_info_ s0 !! h = Some i →
        let need := PreresolveJob.need_preconnect job &&
                    negb (PreresolveInfo.was_canceled i) in
        let r := PreconnectedRequestStats.mk (PreresolveJob.url job) cached
                   need in
        FinishPreresolve 0 256 64 512 id true cached s0 =
          Some (emit (Some id)
                  ((if need
                    then PreconnectUrl 0 256 64 512 s0 (PreresolveJob.url job)
                           (PreresolveInfo.url i)
                           (PreresolveJob.num_sockets job)
                           (PreresolveJob.allow_credentials job)
                    else []) ++ [StatsEmplaceBack h r; JobsRemove])
                  (set_info (<[h := stats_emplace_back r i]>)
                     (set_jobs (IDMap.Remove id) s0))))).
Proof.
  intros s op.
  apply (failed_resolve_adds_no_record 3 0 256 64 512)
    with (delegate := true) (observer := false) (network_context := true)
         (profile := mkProfile false)
         (ops0 := [OpStart (url_of "x") [request_of "a" 1; request_of "b" 1]]).
  - unfold size_t_modulus. lia.
  - repeat constructor.
  - vm_compute. reflexivity.
  - exact I.
Defined.

(** C2: the group of "x" is stopped while one of its jobs is in flight and
    one is queued.  When the job in flight completes the group is not yet
    done; the queued job is then dropped by [TryToLaunchPreresolveJobs],
    which does not look at [is_done].  The run ends with nothing queued and
    nothing in flight, the group done and still in the map, and no report
    delivered; and whatever is called afterwards, the group stays in the
    map, done and unreported. *)
Theorem dropped_last_job_leaves_group_unreported ops :
  Forall wf_op ops →
  (λ s, (PreresolveInfo.is_done <$> preresolve_info_ s !! "x",
         queued_jobs_ s, callbacks s, reports (trace s))) <$>
    run 3 0 256 64 512 stop_then_drop_ops sample_manager =
  Some (Some true, [], [], []) ∧
  ∃ s, run 3 0 256 64 512 (stop_then_drop_ops ++ ops) sample_manager =
         Some s ∧
       Leaked "x" s.
Proof.
  intros Hwf. split; [vm_compute; reflexivity|].
  set (s0 := default sample_manager
               (run 3 0 256 64 512 stop_then_drop_ops sample_manager)).
  apply (run_Leaked 3 0 256 64 512) with (s0 := s0).
  - unfold size_t_modulus. lia.
  - repeat constructor.
  - vm_compute. reflexivity.
  - split; [|split].
    + vm_compute. eexists. split; reflexivity.
    + intros id. vm_compute. discriminate.
    + vm_compute. reflexivity.
  - done.
Qed.

Lemma dropped_last_job_leaves_group_unreported_witness :
  (λ s, (PreresolveInfo.is_done <$> preresolve_info_ s !! "x",
         queued_jobs_ s, callbacks s, reports (trace s))) <$>
    run 3 0 256 64 512 stop_then_drop_ops sample_manager =
  Some (Some true, [], [], []) ∧
  ∃ s, run 3 0 256 64 512
         (stop_then_drop_ops ++
          [OpStart (url_of "x") [request_of "c" 1];
           OpStartPreresolveHost (url_of "y"); OpCallback 5 true;
           OpStop (url_of "x")])
         sample_manager = Some s ∧
       Leaked "x" s.
Proof.
  apply dropped_last_job_leaves_group_unreported. repeat constructor.
Defined.


(** The report of a group whose only resolve failed is empty. *)
Lemma failed_resolve_report_is_empty :
  (λ s, reports (trace s)) <$>
    run 3 0 256 64 512 failed_resolve_ops sample_manager =
  Some [PreconnectStats.mk (url_of "x") []].
Proof. vm_compute. reflexivity. Qed.

(** With free slots the batch is submitted during its own call, before d
    is even queued; with a single slot a is submitted first and d
    overtakes only b and c. *)
Lemma batch_is_admitted_before_single :
  (λ s, submitted_hosts (trace s)) <$>
    run 3 0 256 64 512 batch_then_single_ops sample_manager =
  Some ["a"; "b"; "c"; "d"] ∧
  (λ s, submitted_hosts (trace s)) <$>
    run 1 0 256 64 512 batch_then_single_ops sample_manager =
  Some ["a"; "d"; "b"; "c"].
Proof. split; vm_compute; reflexivity. Qed.

Lemma batch_then_single_when_saturated_witness :
  let s0 := default sample_manager
              (run 3 0 256 64 512 saturating_ops sample_manager) in
  let n := IDMap.next_id_ (preresolve_jobs_ s0) in
  ∃ s,
    StartPreresolveHosts 3 ["a"; "b"; "c"] s0 ≫=
      StartPreresolveHost 3 (url_of "d") = Some s ∧
    queued_jobs_ s = [n + 3; n + 2; n + 1; n] ++ queued_jobs_ s0 ∧
    PreresolveJob.url <$> IDMap.Lookup (n + 3) (preresolve_jobs_ s) =
      Some (GetOrigin (url_of "d")) ∧
    PreresolveJob.url <$> IDMap.Lookup (n + 2) (preresolve_jobs_ s) =
      Some (GURL_http "a") ∧
    PreresolveJob.url <$> IDMap.Lookup (n + 1) (preresolve_jobs_ s) =
      Some (GURL_http "b") ∧
    PreresolveJob.url <$> IDMap.Lookup n (preresolve_jobs_ s) =
      Some (GURL_http "c") ∧
    callbacks s = callbacks s0 ∧
    ∀ ops, Forall wf_op ops →
      ∃ s' evs, run 3 0 256 64 512 ops s = Some s' ∧
        trace s' = trace s ++ evs ∧
        ∀ x y, before x y [n + 3; n + 2; n + 1; n] →
               y ∈ admissions evs → before x y (admissions evs).
Proof.
  intros s0.
  apply (batch_then_single_when_saturated 3 0 256 64 512)
    with (delegate := true) (observer := false) (network_context := true)
         (profile := mkProfile false) (ops0 := saturating_ops).
  - unfold size_t_modulus. lia.
  - repeat constructor.
  - vm_compute. reflexivity.
  - vm_compute. discriminate.
  - reflexivity.
Defined.

Lemma Start_existing_group_noop_witness :
  Start 3 (url_of "x") [request_of "a" 1]
    (set_info (<["x" := PreresolveInfo.new (url_of "x") 0]>) sample_manager) =
  Some (set_info (<["x" := PreresolveInfo.new (url_of "x") 0]>) sample_manager).
Proof.
  apply (Start_existing_group_noop 3). vm_compute. by eexists.
Defined.

Lemma PreresolveUrl_without_context_witness :
  ∃ s', PreresolveUrl (url_of "a") 7 offline_manager = (false, s') ∧
    preresolve_info_ s' = preresolve_info_ offline_manager ∧
    preresolve_jobs_ s' = preresolve_jobs_ offline_manager ∧
    queued_jobs_ s' = queued_jobs_ offline_manager ∧
    inflight_preresolves_count_ s' =
      inflight_preresolves_count_ offline_manager ∧
    callbacks s' = callbacks offline_manager ++ [(7, Some false)] ∧
    trace s' = trace offline_manager ++
      map (pair (Some 7))
        ((if observer_ offline_manager then [OnPreresolveUrl (url_of "a")]
          else []) ++ [PostTask false]) ∧
    (7 ∉ inflight_jobs offline_manager → ∀ success,
       step 3 0 256 64 512 (OpCallback 7 success) s' =
       OnPreresolveFinished 3 0 256 64 512 7 false
         (set_callbacks (λ _, callbacks offline_manager) s')).
Proof.
  apply (PreresolveUrl_without_context 3 0 256 64 512). reflexivity.
Defined.

Lemma non_http_scheme_noop_witness :
  StartPreresolveHost 3 (mkGURL "ftp" "a" "" "/") sample_manager =
    Some sample_manager ∧
  StartPreconnectUrl 3 (mkGURL "ftp" "a" "" "/") true sample_manager =
    Some sample_manager.
Proof. apply (non_http_scheme_noop 3). reflexivity. Defined.

(** ** Instances of the further properties *)

Lemma job_table_is_queue_and_inflight_witness :
  ∃ s, run 3 0 256 64 512 stop_then_drop_ops sample_manager = Some s ∧
    NoDup (queued_jobs_ s ++ inflight_jobs s) ∧
    (∀ id, is_Some (IDMap.Lookup id (preresolve_jobs_ s)) ↔
           id ∈ queued_jobs_ s ∨ id ∈ inflight_jobs s) ∧
    (∀ id, is_Some (IDMap.Lookup id (preresolve_jobs_ s)) →
           id < IDMap.next_id_ (preresolve_jobs_ s)).
Proof.
  apply (job_table_is_queue_and_inflight 3 0 256 64 512).
  - unfold size_t_modulus. lia.
  - repeat constructor.
Defined.

Lemma counters_count_jobs_witness :
  ∃ s, run 3 0 256 64 512 stop_then_drop_ops sample_manager = Some s ∧
    inflight_preresolves_count_ s = Z.of_nat (length (inflight_jobs s)) ∧
    ∀ h i, preresolve_info_ s !! h = Some i →
      PreresolveInfo.queued_count i =
        Z.of_nat (group_count (IDMap.data_ (preresolve_jobs_ s)) h
                    (queued_jobs_ s)) ∧
      PreresolveInfo.inflight_count i =
        Z.of_nat (group_count (IDMap.data_ (preresolve_jobs_ s)) h
                    (inflight_jobs s)) ∧
      (PreresolveInfo.is_done i = true ↔
       ∀ id job, IDMap.Lookup id (preresolve_jobs_ s) = Some job →
                 PreresolveJob.info job ≠ Some h).
Proof.
  apply (counters_count_jobs 3 0 256 64 512).
  - unfold size_t_modulus. lia.
  - repeat constructor.
Defined.

Lemma group_pointers_never_dangle_witness :
  ∃ s, run 3 0 256 64 512 stop_then_drop_ops sample_manager = Some s ∧
    (∀ id job h, IDMap.Lookup id (preresolve_jobs_ s) = Some job →
       PreresolveJob.info job = Some h →
       ∃ i, preresolve_info_ s !! h = Some i) ∧
    (∀ h i, preresolve_info_ s !! h = Some i →
       host (PreresolveInfo.url i) = h ∧
       PreconnectStats.url (PreresolveInfo.stats i) = PreresolveInfo.url i).
Proof.
  apply (group_pointers_never_dangle 3 0 256 64 512).
  - unfold size_t_modulus. lia.
  - repeat constructor.
Defined.

Lemma no_free_slot_while_queued_witness :
  ∃ s, run 3 0 256 64 512 two_queued_ops sample_manager = Some s ∧
    (queued_jobs_ s = [] ∨ inflight_preresolves_count_ s = 3%Z) ∧
    TryToLaunchPreresolveJobs 3 s = Some s ∧
    ((0 < 3)%Z → callbacks s = [] →
     queued_jobs_ s = [] ∧
     ∀ id, IDMap.Lookup id (preresolve_jobs_ s) = None).
Proof.
  apply (no_free_slot_while_queued 3 0 256 64 512).
  - unfold size_t_modulus. lia.
  - repeat constructor.
Defined.

Lemma adhoc_jobs_submitted_in_queue_order_witness :
  let s0 := default sample_manager
              (run 3 0 256 64 512 two_queued_ops sample_manager) in
  ∃ s evs,
    run 3 0 256 64 512 [OpCallback 1 true; OpCallback 2 false] s0 = Some s ∧
    trace s = trace s0 ++ evs ∧
    (4 ∈ admissions evs → before 5 4 (admissions evs)).
Proof.
  intros s0.
  apply (adhoc_jobs_submitted_in_queue_order 3 0 256 64 512)
    with (delegate := true) (observer := false) (network_context := true)
         (profile := mkProfile false) (ops0 := two_queued_ops).
  - unfold size_t_modulus. lia.
  - repeat constructor.
  - vm_compute. reflexivity.
  - exists [], [], []. vm_compute. reflexivity.
  - exists (PreresolveJob.mk (GURL_http "a") 0 true None false).
    split; vm_compute; reflexivity.
  - exists (PreresolveJob.mk (GURL_http "b") 0 true None false).
    split; vm_compute; reflexivity.
  - repeat constructor.
Defined.

Lemma StartPreresolveHosts_submits_in_order_witness :
  let s := default sample_manager
             (run 3 0 256 64 512 one_inflight_ops sample_manager) in
  let n := IDMap.next_id_ (preresolve_jobs_ s) in
  let len := length ["a"; "b"; "c"] in
  let ids := rev (seq n len) in
  let k := min len (free_slots 3 s) in
  ∃ s' evs,
    StartPreresolveHosts 3 ["a"; "b"; "c"] s = Some s' ∧
    queued_jobs_ s' = drop k ids ++ queued_jobs_ s ∧
    callbacks s' = callbacks s ++ map (submitted s) (take k ids) ∧
    trace s' = trace s ++ evs ∧ admissions evs = take k ids ∧
    ∀ j it, ["a"; "b"; "c"] !! j = Some it →
      ids !! j = Some (n + (len - S j)) ∧
      ∃ job, IDMap.Lookup (n + (len - S j)) (preresolve_jobs_ s') = Some job ∧
             same_job (PreresolveJob.new (GURL_http it) 0
                         kAllowCredentialsOnPreconnectByDefault None) job.
Proof.
  intros s.
  apply (StartPreresolveHosts_submits_in_order 3 0 256 64 512)
    with (delegate := true) (observer := false) (network_context := true)
         (profile := mkProfile false) (ops0 := one_inflight_ops).
  - unfold size_t_modulus. lia.
  - repeat constructor.
  - vm_compute. reflexivity.
Defined.

Lemma Start_submits_in_order_witness :
  let s := default sample_manager
             (run 3 0 256 64 512 one_inflight_ops sample_manager) in
  let requests := [request_of "a" 1; request_of "b" 1; request_of "c" 0] in
  let n := IDMap.next_id_ (preresolve_jobs_ s) in
  let len := length requests in
  let ids := seq n len in
  let k := min len (free_slots 3 s) in
  ∃ s' evs,
    Start 3 (url_of "x") requests s = Some s' ∧
    queued_jobs_ s' = queued_jobs_ s ++ drop k ids ∧
    callbacks s' = callbacks s ++ map (submitted s) (take k ids) ∧
    trace s' = trace s ++ evs ∧ admissions evs = take k ids ∧
    (∃ i, preresolve_info_ s' !! host (url_of "x") = Some i ∧
          PreresolveInfo.url i = url_of "x" ∧
          PreresolveInfo.was_canceled i = false ∧
          PreresolveInfo.queued_count i = Z.of_nat (len - k) ∧
          PreresolveInfo.inflight_count i = Z.of_nat k) ∧
    ∀ j r, requests !! j = Some r →
      ∃ job, IDMap.Lookup (n + j) (preresolve_jobs_ s') = Some job ∧
             same_job (PreresolveJob.new (PreconnectRequest.origin r)
                         (PreconnectRequest.num_sockets r)
                         (PreconnectRequest.allow_credentials r)
                         (Some (host (url_of "x")))) job.
Proof.
  intros s requests.
  apply (Start_submits_in_order 3 0 256 64 512)
    with (delegate := true) (observer := false) (network_context := true)
         (profile := mkProfile false) (ops0 := one_inflight_ops).
  - unfold size_t_modulus. lia.
  - repeat constructor.
  - vm_compute. reflexivity.
  - vm_compute. reflexivity.
  - vm_compute. reflexivity.
Defined.

Lemma callback_opens_sockets_iff_needed_witness :
  let s := default sample_manager
             (run 3 0 256 64 512 [OpStart (url_of "x") [request_of "a" 2]]
                sample_manager) in
  ∃ job s' evs,
    IDMap.Lookup 1 (preresolve_jobs_ s) = Some job ∧
    step 3 0 256 64 512 (OpCallback 1 true) s = Some s' ∧
    trace s' = trace s ++ evs ∧
    socket_calls evs =
      if default true None && PreresolveJob.need_preconnect job &&
         negb (cancelled s 1) && GetNetworkContext s
      then [(Some 1,
             PreconnectSockets (PreresolveJob.num_sockets job)
               (PreresolveJob.url job)
               (load_flags_of 0 256 64 512
                  (PreresolveJob.allow_credentials job))
               (negb (PreresolveJob.allow_credentials job)))]
      else [].
Proof.
  intros s.
  apply (callback_opens_sockets_iff_needed 3 0 256 64 512)
    with (delegate := true) (observer := false) (network_context := true)
         (profile := mkProfile false)
         (ops0 := [OpStart (url_of "x") [request_of "a" 2]]) (rest := []).
  - unfold size_t_modulus. lia.
  - repeat constructor.
  - vm_compute. reflexivity.
  - vm_compute. reflexivity.
Defined.

Lemma StartPreconnectUrl_opens_one_socket_witness :
  let s := default sample_manager
             (run 3 0 256 64 512 one_inflight_ops sample_manager) in
  let url := mkGURL "https" "a" "" "/index.html" in
  let n := IDMap.next_id_ (preresolve_jobs_ s) in
  let acts := JobsAdd ::
              (if observer_ s then [OnPreresolveUrl (GetOrigin url)] else []) ++
              [if GetNetworkContext s then ResolveHost (GetOrigin url)
               else PostTask false] in
  ∃ s1,
    StartPreconnectUrl 3 url false s = Some s1 ∧
    queued_jobs_ s1 = [] ∧
    callbacks s1 = callbacks s ++ [submitted s n] ∧
    trace s1 = trace s ++ map (pair (Some n)) acts ∧
    ∀ success, ∃ s2 evs,
      step 3 0 256 64 512 (OpCallback n success) s1 = Some s2 ∧
      trace s2 = trace s1 ++ evs ∧
      IDMap.Lookup n (preresolve_jobs_ s2) = None ∧
      socket_calls evs =
        if success && GetNetworkContext s
        then [(Some n,
               PreconnectSockets 1 (GetOrigin url)
                 (load_flags_of 0 256 64 512 false) (negb false))]
        else [].
Proof.
  intros s url.
  apply (StartPreconnectUrl_opens_one_socket 3 0 256 64 512)
    with (delegate := true) (observer := false) (network_context := true)
         (profile := mkProfile false) (ops0 := one_inflight_ops).
  - unfold size_t_modulus. lia.
  - repeat constructor.
  - vm_compute. reflexivity.
  - reflexivity.
  - vm_compute. reflexivity.
Defined.

Lemma StartPreresolveHost_only_resolves_witness :
  let s := default sample_manager
             (run 3 0 256 64 512 one_inflight_ops sample_manager) in
  let url := mkGURL "https" "a" "" "/index.html" in
  let n := IDMap.next_id_ (preresolve_jobs_ s) in
  let acts := JobsAdd ::
              (if observer_ s then [OnPreresolveUrl (GetOrigin url)] else []) ++
              [if GetNetworkContext s then ResolveHost (GetOrigin url)
               else PostTask false] in
  ∃ s1,
    StartPreresolveHost 3 url s = Some s1 ∧
    queued_jobs_ s1 = [] ∧
    callbacks s1 = callbacks s ++ [submitted s n] ∧
    trace s1 = trace s ++ map (pair (Some n)) acts ∧
    ∀ success, ∃ s2 evs,
      step 3 0 256 64 512 (OpCallback n success) s1 = Some s2 ∧
      trace s2 = trace s1 ++ evs ∧
      IDMap.Lookup n (preresolve_jobs_ s2) = None ∧
      socket_calls evs = [].
Proof.
  intros s url.
  apply (StartPreresolveHost_only_resolves 3 0 256 64 512)
    with (delegate := true) (observer := false) (network_context := true)
         (profile := mkProfile false) (ops0 := one_inflight_ops).
  - unfold size_t_modulus. lia.
  - repeat constructor.
  - vm_compute. reflexivity.
  - reflexivity.
  - vm_compute. reflexivity.
Defined.

Lemma sockets_only_in_positive_numbers_witness :
  ∃ s, run 3 0 256 64 512 stop_then_drop_ops sample_manager = Some s ∧
    ∀ job a, (job, a) ∈ trace s → positive_act a.
Proof.
  apply (sockets_only_in_positive_numbers 3 0 256 64 512).
  - unfold size_t_modulus. lia.
  - repeat constructor.
Defined.

Lemma no_record_is_cached_witness :
  ∃ s, run 3 0 256 64 512 stop_then_drop_ops sample_manager = Some s ∧
    (∀ st r, st ∈ reports (trace s) →
       r ∈ PreconnectStats.requests_stats st →
       PreconnectedRequestStats.was_preresolve_cached r = false) ∧
    (∀ h i r, preresolve_info_ s !! h = Some i →
       r ∈ PreconnectStats.requests_stats (PreresolveInfo.stats i) →
       PreconnectedRequestStats.was_preresolve_cached r = false).
Proof.
  apply (no_record_is_cached 3 0 256 64 512).
  - unfold size_t_modulus. lia.
  - repeat constructor.
Defined.

Lemma no_network_context_no_network_call_witness :
  ∃ s, run 3 0 256 64 512
         [OpStart (url_of "x") [request_of "a" 1];
          OpStartPreconnectUrl (url_of "b") true;
          OpCallback 1 true; OpCallback 2 true] offline_manager = Some s ∧
    (∀ job a, (job, a) ∈ trace s → offline_act a) ∧
    (∀ id b, (id, b) ∈ callbacks s → b = Some false) ∧
    (∀ h i, preresolve_info_ s !! h = Some i →
       PreconnectStats.requests_stats (PreresolveInfo.stats i) = []).
Proof.
  apply (no_network_context_no_network_call 3 0 256 64 512).
  - unfold size_t_modulus. lia.
  - reflexivity.
  - repeat constructor.
Defined.

Lemma groups_made_erased_reported_witness :
  ∃ s, run 3 0 256 64 512 failed_resolve_ops sample_manager = Some s ∧
    ∀ h,
      count_act (is_emplace h) (trace s) =
        count_act (is_erase h) (trace s) +
        (if decide (is_Some (preresolve_info_ s !! h)) then 1 else 0) ∧
      count_act (is_report h) (trace s) =
        (if true then count_act (is_erase h) (trace s) else 0).
Proof.
  apply (groups_made_erased_reported 3 0 256 64 512).
  - unfold size_t_modulus. lia.
  - repeat constructor.
Defined.

Lemma Start_without_requests_leaves_group_witness :
  ∃ s evs,
    run 3 0 256 64 512
      (OpStart (url_of "x") [] ::
       [OpStop (url_of "x"); OpStart (url_of "x") [request_of "a" 1];
        OpStartPreresolveHost (url_of "x"); OpCallback 1 true])
      sample_manager = Some s ∧
    trace s = trace sample_manager ++
              (None, InfoEmplace (host (url_of "x"))) :: evs ∧
    (∃ i, preresolve_info_ s !! host (url_of "x") = Some i ∧
          PreresolveInfo.is_done i = true) ∧
    count_act (is_report (host (url_of "x"))) evs = 0 ∧
    count_act (is_erase (host (url_of "x"))) evs = 0 ∧
    ∀ url' requests, host url' = host (url_of "x") →
      Start 3 url' requests s = Some s.
Proof.
  apply (Start_without_requests_leaves_group 3 0 256 64 512)
    with (delegate := true) (observer := false) (network_context := true)
         (profile := mkProfile false) (ops0 := []).
  - unfold size_t_modulus. lia.
  - constructor.
  - reflexivity.
  - reflexivity.
  - repeat constructor.
Defined.

Lemma group_reported_with_its_last_job_witness :
  let s := default sample_manager
             (run 3 0 256 64 512
                [OpStart (url_of "x") [request_of "a" 1; request_of "b" 1]]
                sample_manager) in
  let job := PreresolveJob.mk (url_of "a") 1 true (Some "x") true in
  ∃ i s' evs,
    preresolve_info_ s !! "x" = Some i ∧
    step 3 0 256 64 512 (OpCallback 1 true) s = Some s' ∧
    trace s' = trace s ++ evs ∧
    let st := PreresolveInfo.stats (finish_info job i (default true None)) in
    ((∀ id' job', id' ≠ 1 →
        IDMap.Lookup id' (preresolve_jobs_ s) = Some job' →
        PreresolveJob.info job' ≠ Some "x") →
     reports evs = (if true then [st] else []) ∧
     preresolve_info_ s' !! "x" = None) ∧
    (∀ id' job', id' ≠ 1 →
       IDMap.Lookup id' (preresolve_jobs_ s) = Some job' →
       PreresolveJob.info job' = Some "x" →
       reports evs = [] ∧
       ∃ i', preresolve_info_ s' !! "x" = Some i' ∧
             PreresolveInfo.stats i' = st).
Proof.
  intros s job.
  apply (group_reported_with_its_last_job 3 0 256 64 512)
    with (delegate := true) (observer := false) (network_context := true)
         (profile := mkProfile false)
         (ops0 := [OpStart (url_of "x") [request_of "a" 1; request_of "b" 1]])
         (rest := [(2, None)]).
  - unfold size_t_modulus. lia.
  - repeat constructor.
  - vm_compute. reflexivity.
  - vm_compute. reflexivity.
  - vm_compute. reflexivity.
  - reflexivity.
Defined.

Lemma jobs_drain_witness :
  let s := default sample_manager
             (run 3 0 256 64 512 two_queued_ops sample_manager) in
  ∃ ops s',
    Forall is_callback ops ∧
    length ops ≤ length (queued_jobs_ s) + length (callbacks s) ∧
    run 3 0 256 64 512 ops s = Some s' ∧
    callbacks s' = [] ∧ queued_jobs_ s' = [] ∧
    ∀ id, IDMap.Lookup id (preresolve_jobs_ s') = None.
Proof.
  intros s.
  apply (jobs_drain 3 0 256 64 512)
    with (delegate := true) (observer := false) (network_context := true)
         (profile := mkProfile false) (ops0 := two_queued_ops).
  - unfold size_t_modulus. lia.
  - lia.
  - repeat constructor.
  - vm_compute. reflexivity.
Defined.

Lemma resolve_client_held_while_in_flight_witness :
  ∃ s, run 3 0 256 64 512 two_queued_ops sample_manager = Some s ∧
    ∀ id job, IDMap.Lookup id (preresolve_jobs_ s) = Some job →
      (id ∈ queued_jobs_ s →
       PreresolveJob.resolve_host_client job = false) ∧
      (id ∈ inflight_jobs s →
       PreresolveJob.resolve_host_client job = GetNetworkContext s).
Proof.
  apply (resolve_client_held_while_in_flight 3 0 256 64 512).
  - unfold size_t_modulus. lia.
  - repeat constructor.
Defined.

Lemma no_submission_after_Stop_witness :
  ∃ s1 s2 evs,
    run 3 0 256 64 512
      [OpStartPreresolveHosts ["p"; "q"];
       OpStart (url_of "x") [request_of "a" 1; request_of "b" 1]]
      sample_manager = Some s1 ∧
    run 3 0 256 64 512
      (OpStop (url_of "x") ::
       [OpCallback 3 true; OpCallback 1 true; OpCallback 2 true]) s1 =
      Some s2 ∧
    trace s2 = trace s1 ++ evs ∧
    ∀ id job,
      id ∈ queued_jobs_ s1 →
      IDMap.Lookup id (preresolve_jobs_ s1) = Some job →
      PreresolveJob.info job = Some (host (url_of "x")) →
      (id ∉ admissions evs) ∧ (id ∉ inflight_jobs s2).
Proof.
  apply (no_submission_after_Stop 3 0 256 64 512).
  - unfold size_t_modulus. lia.
  - repeat constructor.
  - repeat constructor.
Defined.
